(** * TitanCache benchmark driver: a shallow embedding of [benchmark.py]

    The load generator samples keys and payload sizes from [random],
    issues one HTTP request per worker, gathers workers in batches of
    [users], and collects one record per answered request.

    Conventions of the embedding.
    - Python [int] is [Z]. A Python [float] is the rational it denotes,
      and [f64] rounds a rational to the nearest binary64 float. The float
      operations of key sampling ([space * 0.05], [u ** 3], the product
      with [space], the comparison with [0.9]), the read ratios of the
      catalog and the latency of a record are rounded as Python rounds
      them; [hot_bound_matches_binary64] compares [f64] with the machine's
      binary64. The Gaussian draw and the numbers that are only printed
      (progress, elapsed time, throughput, volume) are kept exact.
    - The [random] module, the wall clock and the remote cache service are
      oracles bundled in a [World]; the program reads them through call
      counters kept in the machine [State].
    - An exception that leaves a function is a [Raise] result; the state
      reached at that moment is kept next to it.
    - [asyncio.gather] runs every coroutine of the batch up to the point
      where its HTTP request is on the wire, in task order, and then lets
      the requests resolve in the order chosen by the environment. *)

From Stdlib Require Import ZArith QArith Qround Qabs Qpower Qreduction.
From Stdlib Require Import List String Ascii Bool Lia Lqa.
From Stdlib Require Import DecimalString DecimalZ DecimalPos Permutation.
From Stdlib Require Import Floats Uint63.
Import ListNotations.
Local Open Scope string_scope.
Local Open Scope list_scope.
Local Open Scope Z_scope.

(** ** Python primitives *)

Inductive exn : Type :=
| ValueError
| ZeroDivisionError.

Inductive result (A : Type) : Type :=
| Ok (a : A)
| Raise (e : exn).
Arguments Ok {A} a.
Arguments Raise {A} e.

(** [int(x)] on a float: truncation toward zero. *)
Definition py_int (x : Q) : Z := Z.quot (Qnum x) (Zpos (Qden x)).

(** [a % b] on ints: floored remainder, [ZeroDivisionError] when [b == 0]. *)
Definition py_mod (a b : Z) : result Z :=
  if b =? 0 then Raise ZeroDivisionError else Ok (a mod b).

(** [a / b] on numbers (true division). *)
Definition py_truediv (a b : Q) : result Q :=
  if Qeq_bool b 0 then Raise ZeroDivisionError else Ok (a / b)%Q.

(** [str(n)] for an int, as used by the f-strings. *)
Definition py_str (n : Z) : string := NilZero.string_of_int (Z.to_int n).

(** ["X" * n]: the empty string when [n <= 0]. *)
Fixpoint repeat_X (n : nat) : string :=
  match n with
  | O => EmptyString
  | S k => String "X"%char (repeat_X k)
  end.

Definition py_mul_X (n : Z) : string := repeat_X (Z.to_nat n).

(** [len(s)] *)
Definition py_len (s : string) : Z := Z.of_nat (String.length s).

(** The integer nearest to [x], ties to the even one. *)
Definition round_half_even (x : Q) : Z :=
  let f := Qfloor x in
  let d := (x - inject_Z f)%Q in
  if Qle_bool d (1 # 2)
  then (if Qeq_bool d (1 # 2) then (if Z.even f then f else f + 1) else f)
  else f + 1.

Definition Qlt_bool (a b : Q) : bool := negb (Qle_bool b a).

(** *** Floats

    Python's [float] is IEEE binary64. A float is represented by the
    rational it denotes, and [f64] rounds a rational to the nearest float,
    ties to the even significand. The exponent is not bounded: overflow and
    underflow are outside the model. *)

Definition pow2 (e : Z) : Q := (2 ^ e)%Q.

(** For [x > 0], the [e] with [2^e <= x < 2^(e+1)]. *)
Definition binade (x : Q) : Z :=
  let e0 := Z.log2 (Qnum x) - Z.log2 (Zpos (Qden x)) in
  if Qle_bool (pow2 e0) x then e0 else e0 - 1.

(** [x > 0] rounded to 53 significant bits. *)
Definition f64_pos (x : Q) : Q :=
  let e := binade x in
  (inject_Z (round_half_even (x * pow2 (52 - e))) * pow2 (e - 52))%Q.

Definition f64 (x : Q) : Q :=
  match Qnum x with
  | Z0 => 0%Q
  | Zpos _ => Qred (f64_pos x)
  | Zneg _ => Qred (- f64_pos (- x))
  end.

(** [float(n)], as in the implicit conversion of [n * x]. *)
Definition float_of_int (n : Z) : Q := f64 (inject_Z n).

(** [x * y] on floats. *)
Definition float_mul (x y : Q) : Q := f64 (x * y).

(** [x - y] on floats. *)
Definition float_sub (x y : Q) : Q := f64 (x - y).

(** [x ** n] on a float and a small int: the C library's [pow], taken as
    correctly rounded. *)
Definition float_pow (x : Q) (n : Z) : Q := f64 (x ^ n).

(** [round(x, 2)] on a float: the float nearest to the multiple of 1/100
    nearest to [x], ties to the even multiple. *)
Definition py_round2 (x : Q) : Q :=
  f64 (inject_Z (round_half_even (x * 100)) / 100).

(** ** Configuration *)

Definition BASE_URL : string := "http://localhost:8080/api/cache"%string.

Record Config : Type := mkConfig {
  name : string;
  requests : Z;
  users : Z;
  read_ratio : Q;
  key_pattern : string;
  payload_mean : Q;
  payload_std : Q;
  key_space : Z
}.

Definition Realistic_E_Commerce_Day : Config :=
  mkConfig "1_Realistic_E_Commerce_Day" 100000 1000 (f64 (9 # 10)) "zipf"
           (inject_Z 5120) (inject_Z 1024) 50000.

Definition Flash_Sale_Spike : Config :=
  mkConfig "2_Flash_Sale_Spike" 50000 3000 (f64 (2 # 10)) "hot"
           (inject_Z 1024) (inject_Z 100) 1000.

Definition The_Ram_Eater : Config :=
  mkConfig "3_The_Ram_Eater" 50000 200 (f64 (5 # 100)) "uniform"
           (inject_Z (50 * 1024)) 0 200000.

Definition SCENARIOS : list Config :=
  [Realistic_E_Commerce_Day; Flash_Sale_Spike; The_Ram_Eater].

(** ** The environment *)

Inductive Reply : Type :=
| Response (status : Z)     (* a response arrived and its body was read *)
| TransportError.           (* connection error, timeout, ... *)

Record World : Type := mkWorld {
  (** raw value behind the k-th call into [random]; [random.random()] keeps
      its fractional part, [random.gauss] uses it as the standard normal
      variate *)
  entropy : nat -> Q;
  (** raw integer behind the k-th call into [random], for [randint] *)
  entropy_int : nat -> Z;
  (** k-th reading of [time.time()] *)
  wall_clock : nat -> Q;
  (** what the service does with the request of worker [i] *)
  net_reply : Z -> Reply;
  (** completion rank of the request of worker [i] inside its batch *)
  net_delay : Z -> nat;
  (** what the service does with [DELETE /clear] *)
  reset_reply : Reply
}.

(** ** Records, output and the machine state *)

Inductive Op : Type := READ | WRITE.

Record RequestRecord : Type := mkRecord {
  rec_scenario : string;
  rec_timestamp : Q;
  rec_operation : Op;
  rec_status : Z;
  rec_latency_ms : Q;
  rec_payload_bytes : Z;
  rec_key : option string
}.

Inductive Request : Type :=
| Post (url : string) (key : option string) (value : string)
| Get (url : string).

Inductive Line : Type :=
| LnStarting (scenario : string)
| LnConfiguration (reqs usrs : Z)
| LnPayloadAvg (kb : Q)
| LnCacheReset (status : Z)
| LnResetFailed
| LnProgress (percent elapsed : Q)
| LnComplete (total_time : Q)
| LnThroughput (req_per_sec : Q)
| LnDataMoved (mb : Q)
| LnErrors (count : Z).

(** Observable actions, in the order they happen. [EvGather] and [EvJoin]
    bracket one [asyncio.gather]; [EvStart i] is worker [i] putting its
    request on the wire, [EvResolve i] the moment its response (or its
    exception) is delivered to it. *)
Inductive Event : Type :=
| EvSessionOpen (limit : Z)
| EvSessionClose
| EvSleep (seconds : Z)
| EvGather (tasks : list Z)
| EvJoin
| EvStart (i : Z) (req : Request)
| EvResolve (i : Z) (r : Reply).

Record State : Type := mkState {
  rng_calls : nat;
  clock_calls : nat;
  stats_list : list RequestRecord;
  error_counter : Z;
  stdout : list Line;
  trace : list Event
}.

Definition initial_state : State := mkState 0 0 [] 0 [] [].

(** ** The effect monad: state plus exceptions *)

Definition M (A : Type) : Type := State -> result A * State.

Definition ret {A} (a : A) : M A := fun s => (Ok a, s).

Definition bind {A B} (m : M A) (k : A -> M B) : M B :=
  fun s => match m s with
           | (Ok a, s') => k a s'
           | (Raise e, s') => (Raise e, s')
           end.

Definition raise {A} (e : exn) : M A := fun s => (Raise e, s).

Definition lift {A} (r : result A) : M A := fun s => (r, s).

Declare Scope m_scope.
Delimit Scope m_scope with M.
Notation "x <- m ;; k" := (bind m (fun x => k))
  (at level 61, m at next level, right associativity) : m_scope.
Notation "m ;;; k" := (bind m (fun _ => k))
  (at level 61, right associativity) : m_scope.
Local Open Scope m_scope.

Definition print (l : Line) : M unit :=
  fun s => (Ok tt, mkState (rng_calls s) (clock_calls s) (stats_list s)
                           (error_counter s) (stdout s ++ [l]) (trace s)).

Definition emit (e : Event) : M unit :=
  fun s => (Ok tt, mkState (rng_calls s) (clock_calls s) (stats_list s)
                           (error_counter s) (stdout s) (trace s ++ [e])).

Definition append_record (r : RequestRecord) : M unit :=
  fun s => (Ok tt, mkState (rng_calls s) (clock_calls s) (stats_list s ++ [r])
                           (error_counter s) (stdout s) (trace s)).

Definition count_error : M unit :=
  fun s => (Ok tt, mkState (rng_calls s) (clock_calls s) (stats_list s)
                           (error_counter s + 1) (stdout s) (trace s)).

Definition tick_rng : M nat :=
  fun s => (Ok (rng_calls s),
            mkState (S (rng_calls s)) (clock_calls s) (stats_list s)
                    (error_counter s) (stdout s) (trace s)).

Section Program.

Variable w : World.

(** *** [time] and [random] *)

Definition time_time : M Q :=
  fun s => (Ok (wall_clock w (clock_calls s)),
            mkState (rng_calls s) (S (clock_calls s)) (stats_list s)
                    (error_counter s) (stdout s) (trace s)).

(** The value [random.random()] returns at call number [k]: a multiple of
    [2^-53] in [0, 1), here the fractional part of the raw value cut to 53
    bits. *)
Definition unit_draw (k : nat) : Q :=
  Qfloor ((entropy w k - inject_Z (Qfloor (entropy w k)))
          * inject_Z (2 ^ 53)) # 9007199254740992.

Definition random_random : M Q :=
  k <- tick_rng ;; ret (unit_draw k).

(** The value [random.randint(a, b)] returns at call number [k] when the
    range is not empty: in [a, b]. *)
Definition int_draw (k : nat) (a b : Z) : Z := a + entropy_int w k mod (b - a + 1).

Definition random_randint (a b : Z) : M Z :=
  if b <? a then raise ValueError
  else k <- tick_rng ;; ret (int_draw k a b).

(** The value [random.gauss(mu, sigma)] returns at call number [k]. *)
Definition gauss_draw (k : nat) (mu sigma : Q) : Q :=
  (mu + entropy w k * sigma)%Q.

Definition random_gauss (mu sigma : Q) : M Q :=
  k <- tick_rng ;; ret (gauss_draw k mu sigma).

(** *** Utilities of the script *)

Definition generate_payload (mean std : Q) : M string :=
  g <- random_gauss mean std ;;
  let size := py_int g in
  ret (py_mul_X (Z.max 1 size)).

Definition user_ (n : Z) : string := String.append "user_" (py_str n).

Definition get_key (config : Config) : M (option string) :=
  let pattern := key_pattern config in
  let space := key_space config in
  if String.eqb pattern "uniform" then
    n <- random_randint 1 space ;; ret (Some (user_ n))
  else if String.eqb pattern "hot" then
    u <- random_random ;;
    if Qlt_bool u (f64 (9 # 10)) then
      n <- random_randint 1 (py_int (float_mul (float_of_int space)
                                               (f64 (5 # 100)))) ;;
      ret (Some (user_ n))
    else
      n <- random_randint 1 space ;; ret (Some (user_ n))
  else if String.eqb pattern "zipf" then
    u <- random_random ;;
    let k := py_int (float_mul (float_of_int space) (float_pow u 3)) in
    ret (Some (user_ (Z.max 1 k)))
  else ret None.

(** *** The worker coroutine

    [worker] runs without suspension from its first line to the HTTP call:
    the key, the payload, the start time and the read/write draw are all
    taken before the request is on the wire ([worker_start]). It is resumed
    once, when the response or the transport exception is delivered
    ([worker_finish]). *)

(** [f"{key}"]: [str(None)] is ["None"]. *)
Definition py_str_key (key : option string) : string :=
  match key with
  | Some k => k
  | None => "None"
  end.

Record Pending : Type := mkPending {
  p_index : Z;
  p_key : option string;
  p_value : string;
  p_op_type : Op;
  p_start : Q;
  p_request : Request
}.

Definition worker_start (i : Z) (config : Config) : M Pending :=
  key <- get_key config ;;
  value <- generate_payload (payload_mean config) (payload_std config) ;;
  start <- time_time ;;
  u <- random_random ;;
  if Qlt_bool (read_ratio config) u then
    let req := Post (String.append BASE_URL "/store") key value in
    emit (EvStart i req) ;;;
    ret (mkPending i key value WRITE start req)
  else
    let req := Get (String.append BASE_URL
                      (String.append "/retrieve/" (py_str_key key))) in
    emit (EvStart i req) ;;;
    ret (mkPending i key value READ start req).

Definition worker_finish (config : Config) (p : Pending) : M unit :=
  emit (EvResolve (p_index p) (net_reply w (p_index p))) ;;;
  match net_reply w (p_index p) with
  | Response status =>
      t1 <- time_time ;;
      let latency_ms := float_mul (float_sub t1 (p_start p))
                                  (float_of_int 1000) in
      t2 <- time_time ;;
      append_record (mkRecord (name config) t2 (p_op_type p) status
                              (py_round2 latency_ms) (py_len (p_value p))
                              (p_key p))
  | TransportError => count_error
  end.

(** One worker awaited on its own. *)
Definition worker (i : Z) (config : Config) : M unit :=
  p <- worker_start i config ;; worker_finish config p.

(** *** [asyncio.gather] over a batch of workers *)

(** Every task is started, in task order; a task whose synchronous part
    raises does not stop the later ones from starting, and the first
    exception is the one [gather] hands to its caller. *)
Fixpoint start_all (config : Config) (tasks : list Z)
  : State -> (list Pending * option exn) * State :=
  fun s =>
    match tasks with
    | [] => (([], None), s)
    | i :: rest =>
        match worker_start i config s with
        | (Ok p, s1) =>
            let '((ps, e), s2) := start_all config rest s1 in
            ((p :: ps, e), s2)
        | (Raise e, s1) =>
            let '((ps, _), s2) := start_all config rest s1 in
            ((ps, Some e), s2)
        end
    end.

(** Requests resolve by increasing [net_delay], ties in task order. *)
Fixpoint insert_by_delay (p : Pending) (ps : list Pending) : list Pending :=
  match ps with
  | [] => [p]
  | q :: rest =>
      if (net_delay w (p_index p) <=? net_delay w (p_index q))%nat
      then p :: q :: rest
      else q :: insert_by_delay p rest
  end.

Definition completion_order (ps : list Pending) : list Pending :=
  fold_right insert_by_delay [] ps.

Fixpoint finish_all (config : Config) (ps : list Pending) : M unit :=
  match ps with
  | [] => ret tt
  | p :: rest => worker_finish config p ;;; finish_all config rest
  end.

(** When the first phase raises, the requests already on the wire stay
    pending: what becomes of them once the exception has left
    [run_scenario] is decided by the event loop and is not modelled. *)
Definition gather (config : Config) (tasks : list Z) : M unit :=
  emit (EvGather tasks) ;;;
  fun s =>
    match start_all config tasks s with
    | ((_, Some e), s1) => (Raise e, s1)
    | ((ps, None), s1) =>
        (finish_all config (completion_order ps) ;;; emit EvJoin) s1
    end.

(** *** [run_scenario] *)

Definition clear_server_state : M unit :=
  match reset_reply w with
  | Response status => print (LnCacheReset status)
  | TransportError => print LnResetFailed
  end.

(** The [for i in range(total_reqs)] loop; [pending_is] are the values of
    [i] still to come and [tasks] the coroutines collected so far. The
    result is the content of [tasks] when the loop ends. *)
Fixpoint batch_loop (scenario : Config) (start_time : Q)
         (pending_is : list Z) (tasks : list Z) : M (list Z) :=
  match pending_is with
  | [] => ret tasks
  | i :: rest =>
      let total_reqs := requests scenario in
      let tasks := tasks ++ [i] in
      if users scenario <=? Z.of_nat (List.length tasks) then
        gather scenario tasks ;;;
        r <- lift (py_mod (i + 1) (total_reqs / 10)) ;;
        (if r =? 0 then
           let percent := ((inject_Z (i + 1) / inject_Z total_reqs) * 100)%Q in
           now <- time_time ;;
           print (LnProgress percent (now - start_time)%Q)
         else ret tt) ;;;
        batch_loop scenario start_time rest []
      else batch_loop scenario start_time rest tasks
  end.

(** [range(n)]: [0, 1, ..., n-1], empty when [n <= 0]. *)
Fixpoint range_from (start : Z) (len : nat) : list Z :=
  match len with
  | O => []
  | S k => start :: range_from (start + 1) k
  end.

Definition py_range (n : Z) : list Z := range_from 0 (Z.to_nat n).

(** Body of the [async with aiohttp.ClientSession(...)] block. *)
Definition session_body (scenario : Config) : M (list RequestRecord) :=
  clear_server_state ;;;
  emit (EvSleep 2) ;;;
  start_time <- time_time ;;
  let total_reqs := requests scenario in
  tasks <- batch_loop scenario start_time (py_range total_reqs) [] ;;
  (match tasks with
   | [] => ret tt
   | _ :: _ => gather scenario tasks
   end) ;;;
  now <- time_time ;;
  let total_time := (now - start_time)%Q in
  throughput <- lift (py_truediv (inject_Z (requests scenario)) total_time) ;;
  let data_volume_mb :=
    ((inject_Z (requests scenario) * payload_mean scenario)
     / inject_Z (1024 * 1024))%Q in
  print (LnComplete total_time) ;;;
  print (LnThroughput throughput) ;;;
  print (LnDataMoved data_volume_mb) ;;;
  fun s =>
    ((if 0 <? error_counter s then print (LnErrors (error_counter s))
      else ret tt) ;;;
     ret (stats_list s)) s.

(** The session is closed on the way out, whether the body returned or
    raised. *)
Definition with_session {A} (limit : Z) (body : M A) : M A :=
  emit (EvSessionOpen limit) ;;;
  fun s =>
    match body s with
    | (r, s1) => (r, snd (emit EvSessionClose s1))
    end.

(** [stats_list] and [error_counter] are created afresh by each call. *)
Definition fresh_collectors : M unit :=
  fun s => (Ok tt, mkState (rng_calls s) (clock_calls s) [] 0
                           (stdout s) (trace s)).

Definition run_scenario (scenario : Config) : M (list RequestRecord) :=
  print (LnStarting (name scenario)) ;;;
  print (LnConfiguration (requests scenario) (users scenario)) ;;;
  print (LnPayloadAvg (payload_mean scenario / 1024)%Q) ;;;
  fresh_collectors ;;;
  with_session (users scenario + 100) (session_body scenario).

End Program.

(** * The entry point

    [main] runs the catalog in order, each scenario in the environment of
    its own time ([worlds k] for the k-th one), and exports the records.
    What it prints around the scenarios and the table it writes are
    returned as an [Export]; the lines printed by the scenarios are the
    ones added to [stdout] meanwhile. *)

Definition CSV_FILENAME : string := "titan_nuclear_benchmark.csv".

Inductive Cell : Type :=
| CellStr (s : string)
| CellFloat (q : Q)
| CellInt (n : Z)
| CellNone.

Inductive Console : Type :=
| CoRule
| CoInitialized
| CoScenario (l : Line)
| CoBlankRule
| CoExporting (n : Z) (path : string)
| CoSuccess.

Record Export : Type := mkExport {
  ex_console : list Console;
  ex_path : string;
  ex_rows : list (list Cell)
}.

Definition op_name (o : Op) : string :=
  match o with
  | READ => "READ"
  | WRITE => "WRITE"
  end.

Definition csv_header : list Cell :=
  [CellStr "Scenario"; CellStr "Timestamp"; CellStr "Operation";
   CellStr "HTTP_Status"; CellStr "Latency_ms"; CellStr "Payload_Bytes";
   CellStr "Key_ID"].

(** One element of [stats_list], in the order the worker builds it. *)
Definition csv_row (r : RequestRecord) : list Cell :=
  [CellStr (rec_scenario r); CellFloat (rec_timestamp r);
   CellStr (op_name (rec_operation r)); CellInt (rec_status r);
   CellFloat (rec_latency_ms r); CellInt (rec_payload_bytes r);
   match rec_key r with
   | Some k => CellStr k
   | None => CellNone
   end].

(** The [for scenario in SCENARIOS] loop of [main]. *)
Fixpoint run_all (worlds : nat -> World) (k : nat) (scenarios : list Config)
         (all_results : list RequestRecord) : M (list RequestRecord) :=
  match scenarios with
  | [] => ret all_results
  | scenario :: rest =>
      results <- run_scenario (worlds k) scenario ;;
      emit (EvSleep 5) ;;;
      run_all worlds (S k) rest (all_results ++ results)
  end.

Definition export_all (worlds : nat -> World) (scenarios : list Config)
  : M Export :=
  fun s =>
    match run_all worlds 0 scenarios [] s with
    | (Ok all_results, s') =>
        (Ok (mkExport
               ([CoRule; CoInitialized; CoRule]
                  ++ map CoScenario (skipn (List.length (stdout s)) (stdout s'))
                  ++ [CoBlankRule;
                      CoExporting (Z.of_nat (List.length all_results))
                                  CSV_FILENAME;
                      CoSuccess; CoRule])
               CSV_FILENAME
               (csv_header :: map csv_row all_results)),
         s')
    | (Raise e, s') => (Raise e, s')
    end.

Definition main (worlds : nat -> World) : M Export :=
  export_all worlds SCENARIOS.

(** * Vocabulary of the statements

    Projections of the trace, counting functions, the states and worlds used
    as examples, and the pieces into which [run_scenario] is cut for the
    proofs. Nothing here is part of the script. *)

(** What the specification asks of a rounded length: [r] is an integer
    nearest to [x]. Any tie-breaking rule satisfies it. *)
Definition nearest_int (x : Q) (r : Z) : Prop :=
  (Qabs (x - inject_Z r) <= 1 # 2)%Q.

(** A world in which every oracle answers zero and every request is
    answered with status 200. *)
Definition quiet_world : World :=
  mkWorld (fun _ => 0%Q) (fun _ => 0) (fun _ => 0%Q)
          (fun _ => Response 200) (fun _ => O) (Response 200).

(** The state after [n] more calls into [random]. *)
Definition after_draws (n : nat) (s : State) : State :=
  mkState (n + rng_calls s) (clock_calls s) (stats_list s)
          (error_counter s) (stdout s) (trace s).

(** The request a worker puts on the wire, from its key, its payload and
    its read/write draw [u]. *)
Definition dispatch_of (config : Config) (i : Z) (key : option string)
           (value : string) (start u : Q) : Pending :=
  if Qlt_bool (read_ratio config) u
  then mkPending i key value WRITE start
                 (Post (String.append BASE_URL "/store") key value)
  else mkPending i key value READ start
                 (Get (String.append BASE_URL
                         (String.append "/retrieve/" (py_str_key key)))).

(** The state after one more event, and after one more reading of the
    clock. *)
Definition add_event (e : Event) (s : State) : State := snd (emit e s).

Definition add_clock (s : State) : State :=
  mkState (rng_calls s) (S (clock_calls s)) (stats_list s)
          (error_counter s) (stdout s) (trace s).

(** Only the [random] and clock counters moved between [s] and [s']. *)
Definition only_counters (s s' : State) : Prop :=
  stats_list s' = stats_list s /\ error_counter s' = error_counter s /\
  stdout s' = stdout s /\ trace s' = trace s.

Definition start_event (p : Pending) : Event := EvStart (p_index p) (p_request p).

(** A scenario with a misspelt pattern. *)
Definition Misspelt_Pattern : Config :=
  mkConfig "misspelt" 10 5 1 "zipfian" (inject_Z 16) 0 100.

Definition resolve_event (w : World) (p : Pending) : Event :=
  EvResolve (p_index p) (net_reply w (p_index p)).

(** Number of dispatches, among workers [ids], that end in a transport
    exception. *)
Fixpoint failures (w : World) (ids : list Z) : Z :=
  match ids with
  | [] => 0
  | i :: rest =>
      match net_reply w i with
      | TransportError => 1 + failures w rest
      | Response _ => failures w rest
      end
  end.

(** A record produced for the pending request [p]. *)
Definition record_of (w : World) (config : Config) (p : Pending)
           (r : RequestRecord) : Prop :=
  net_reply w (p_index p) = Response (rec_status r) /\
  rec_operation r = p_op_type p /\
  rec_scenario r = name config /\
  rec_payload_bytes r = py_len (p_value p) /\
  rec_key r = p_key p.

Definition keys_safe (config : Config) : Prop :=
  (key_pattern config = "uniform" -> 1 <= key_space config) /\
  (key_pattern config = "hot" -> 20 <= key_space config).

(** The request and the operation of [p] are those selected by comparing
    some draw of [random.random()] with [read_ratio]. *)
Definition dispatch_shape (w : World) (config : Config) (p : Pending) : Prop :=
  exists k : nat,
    p = dispatch_of config (p_index p) (p_key p) (p_value p) (p_start p)
                    (unit_draw w k).

(** What a completed [gather] over [tasks] adds to the trace, [ps] being
    the requests of its workers. *)
Definition batch_events (w : World) (tasks : list Z) (ps : list Pending)
  : list Event :=
  EvGather tasks
  :: map start_event ps
  ++ map (resolve_event w) (completion_order w ps)
  ++ [EvJoin].

Definition gather_completed (w : World) (config : Config) (tasks : list Z)
           (s s' : State) : Prop :=
  exists ps,
    map p_index ps = tasks /\
    Forall (dispatch_shape w config) ps /\
    trace s' = trace s ++ batch_events w tasks ps /\
    error_counter s' = error_counter s + failures w tasks /\
    exists recs,
      stats_list s' = stats_list s ++ recs /\
      Z.of_nat (List.length recs)
      = Z.of_nat (List.length tasks) - failures w tasks /\
      Forall (fun r => exists p, In p ps /\ record_of w config p r) recs.

Definition gather_aborted (w : World) (config : Config) (tasks : list Z)
           (s s' : State) : Prop :=
  exists ps,
    (List.length ps < List.length tasks)%nat /\
    Forall (dispatch_shape w config) ps /\
    trace s' = trace s ++ EvGather tasks :: map start_event ps /\
    stats_list s' = stats_list s /\
    error_counter s' = error_counter s.

(** A "hot" scenario whose key space is too small for a hot subset. *)
Definition Tiny_Hot_Space : Config :=
  mkConfig "tiny_hot" 10 5 1 "hot" (inject_Z 16) 0 10.

(** The batches the [for] loop hands to [gather], in order, and what is
    left in [tasks] when the loop ends. *)
Fixpoint plan (usrs : Z) (pending_is tasks : list Z) : list (list Z) * list Z :=
  match pending_is with
  | [] => ([], tasks)
  | i :: rest =>
      let tasks := tasks ++ [i] in
      if usrs <=? Z.of_nat (List.length tasks) then
        let (bs, left) := plan usrs rest [] in (tasks :: bs, left)
      else plan usrs rest tasks
  end.

(** The progress test made after the batch that ends with worker [i]. *)
Definition progress_check (w : World) (scenario : Config) (start_time : Q)
           (i : Z) : M unit :=
  r <- lift (py_mod (i + 1) (requests scenario / 10)) ;;
  if r =? 0 then
    let percent := ((inject_Z (i + 1) / inject_Z (requests scenario)) * 100)%Q in
    now <- time_time w ;;
    print (LnProgress percent (now - start_time)%Q)
  else ret tt.

Fixpoint run_batches (w : World) (scenario : Config) (start_time : Q)
         (bs : list (list Z)) : M unit :=
  match bs with
  | [] => ret tt
  | b :: rest =>
      gather w scenario b ;;;
      progress_check w scenario start_time (last b 0) ;;;
      run_batches w scenario start_time rest
  end.

Definition batches_of (done : list (list Pending)) : list (list Z) :=
  map (map p_index) done.

Definition blocks_trace (w : World) (done : list (list Pending)) : list Event :=
  flat_map (fun ps => batch_events w (map p_index ps) ps) done.

(** Between [s] and [s'] the batches [done] were gathered to completion,
    then the events [tail] happened; the collectors grew accordingly. *)
Definition progressed (w : World) (config : Config)
           (done : list (list Pending)) (tail : list Event)
           (s s' : State) : Prop :=
  Forall (Forall (dispatch_shape w config)) done /\
  trace s' = trace s ++ blocks_trace w done ++ tail /\
  error_counter s'
  = error_counter s + failures w (List.concat (batches_of done)) /\
  exists recs,
    stats_list s' = stats_list s ++ recs /\
    Z.of_nat (List.length recs)
    = Z.of_nat (List.length (List.concat (batches_of done)))
      - failures w (List.concat (batches_of done)) /\
    Forall (fun r => exists ps p, In ps done /\ In p ps /\
                                  record_of w config p r) recs.

Definition progress_percents (out : list Line) : list Q :=
  flat_map (fun l => match l with
                     | LnProgress percent _ => [percent]
                     | _ => []
                     end) out.

(** The percentage printed after the batch that ends with worker [i], if
    any. *)
Definition mark (total : Z) (i : Z) : list Q :=
  if (i + 1) mod (total / 10) =? 0
  then [((inject_Z (i + 1) / inject_Z total) * 100)%Q]
  else [].

Definition marks (total : Z) (bs : list (list Z)) : list Q :=
  flat_map (fun b => mark total (last b 0)) bs.

(** How a sequence of batches ends. *)
Definition batches_outcome (w : World) (scenario : Config)
           (bs : list (list Z)) (r : result unit)
           (done : list (list Pending)) (tail : list Event)
           (s s' : State) : Prop :=
  match r with
  | Ok _ =>
      batches_of done = bs /\ tail = [] /\
      progress_percents (stdout s')
      = progress_percents (stdout s) ++ marks (requests scenario) bs
  | Raise ZeroDivisionError =>
      requests scenario / 10 = 0 /\ tail = [] /\
      exists rest, bs = batches_of done ++ rest
  | Raise ValueError =>
      ~ keys_safe scenario /\
      exists b rest ps,
        bs = batches_of done ++ b :: rest /\
        tail = EvGather b :: map start_event ps /\
        (List.length ps < List.length b)%nat /\
        Forall (dispatch_shape w scenario) ps
  end.

(** Every batch of a scenario: the full batches of the loop, then what is
    left in [tasks], if anything. *)
Definition all_batches (scenario : Config) : list (list Z) :=
  let (bs, left) := plan (users scenario) (py_range (requests scenario)) [] in
  bs ++ match left with
        | [] => []
        | _ :: _ => [left]
        end.

(** How [run_scenario] ends: every batch was gathered to completion; or
    the progress test divided by zero after some batch; or a worker raised
    while sampling its key. *)
Definition run_outcome (w : World) (scenario : Config)
           (r : result (list RequestRecord))
           (done : list (list Pending)) (tail : list Event)
           (s s' : State) : Prop :=
  (tail = [] /\ batches_of done = all_batches scenario /\
   (r = Ok (stats_list s') \/ r = Raise ZeroDivisionError) /\
   progress_percents (stdout s')
   = progress_percents (stdout s)
     ++ marks (requests scenario)
              (fst (plan (users scenario) (py_range (requests scenario)) [])))
  \/
  (r = Raise ZeroDivisionError /\ requests scenario / 10 = 0 /\ tail = [] /\
   exists rest, all_batches scenario = batches_of done ++ rest)
  \/
  (r = Raise ValueError /\ ~ keys_safe scenario /\
   exists b rest ps,
     all_batches scenario = batches_of done ++ b :: rest /\
     tail = EvGather b :: map start_event ps /\
     (List.length ps < List.length b)%nat /\
     Forall (dispatch_shape w scenario) ps).

(** The state in which the batch loop starts. *)
Definition loop_entry (w : World) (scenario : Config) (s : State) : State :=
  mkState (rng_calls s) (S (clock_calls s)) [] 0
          (((((stdout s ++ [LnStarting (name scenario)])
                ++ [LnConfiguration (requests scenario) (users scenario)])
               ++ [LnPayloadAvg (payload_mean scenario / 1024)%Q])
              ++ [match reset_reply w with
                  | Response status => LnCacheReset status
                  | TransportError => LnResetFailed
                  end]))
          ((trace s ++ [EvSessionOpen (users scenario + 100)]) ++ [EvSleep 2]).

(** What follows the loop inside the session block. *)
Definition after_loop (w : World) (scenario : Config) (start_time : Q)
           (tasks : list Z) : M (list RequestRecord) :=
  (match tasks with
   | [] => ret tt
   | _ :: _ => gather w scenario tasks
   end) ;;;
  now <- time_time w ;;
  let total_time := (now - start_time)%Q in
  throughput <- lift (py_truediv (inject_Z (requests scenario)) total_time) ;;
  let data_volume_mb :=
    ((inject_Z (requests scenario) * payload_mean scenario)
     / inject_Z (1024 * 1024))%Q in
  print (LnComplete total_time) ;;;
  print (LnThroughput throughput) ;;;
  print (LnDataMoved data_volume_mb) ;;;
  fun s =>
    ((if 0 <? error_counter s then print (LnErrors (error_counter s))
      else ret tt) ;;;
     ret (stats_list s)) s.

Definition close_session (s : State) : State := snd (emit EvSessionClose s).

Definition leftover_batch (tasks : list Z) : list (list Z) :=
  match tasks with
  | [] => []
  | _ :: _ => [tasks]
  end.

(** Workers that put a request on the wire, in order. *)
Definition start_ids (tr : list Event) : list Z :=
  flat_map (fun e => match e with EvStart i _ => [i] | _ => [] end) tr.

(** Workers whose request resolved, in order. *)
Definition resolve_ids (tr : list Event) : list Z :=
  flat_map (fun e => match e with EvResolve i _ => [i] | _ => [] end) tr.

(** The batches handed to [asyncio.gather], in order. *)
Definition gathers (tr : list Event) : list (list Z) :=
  flat_map (fun e => match e with EvGather b => [b] | _ => [] end) tr.

(** What happened between [s] and the later state [s']. *)
Definition new_events (s s' : State) : list Event :=
  skipn (List.length (trace s)) (trace s').

(** Number of requests put on the wire between [s] and [s']. *)
Definition attempted (s s' : State) : Z :=
  Z.of_nat (List.length (start_ids (new_events s s'))).

(** A world whose service fails every fourth request at transport level
    and answers 404 to some of the others. *)
Definition flaky_world : World :=
  mkWorld (fun k => (Z.of_nat k # 7)%Q) (fun k => 13 * Z.of_nat k)
          (fun k => inject_Z (Z.of_nat k))
          (fun i => if i mod 4 =? 3 then TransportError
                    else if i mod 4 =? 1 then Response 404 else Response 200)
          (fun i => Z.to_nat (7 - i mod 3)) (Response 200).

Definition Small_Read_Only : Config :=
  mkConfig "small_read_only" 10 5 1 "uniform" (inject_Z 16) 0 100.

Definition Uneven_Batches : Config :=
  mkConfig "uneven_batches" 20 3 (1 # 2) "zipf" (inject_Z 16) 0 100.

(** The percentages printed by the loop, computed with a task counter in
    place of the task list. *)
Fixpoint loop_marks (total usrs : Z) (pending_is : list Z) (ntasks : Z)
  : list Q :=
  match pending_is with
  | [] => []
  | i :: rest =>
      if usrs <=? ntasks + 1
      then mark total i ++ loop_marks total usrs rest 0
      else loop_marks total usrs rest (ntasks + 1)
  end.

(** Workers that issued a GET, and workers that issued a POST. *)
Definition read_ids (tr : list Event) : list Z :=
  flat_map (fun e => match e with EvStart i (Get _) => [i] | _ => [] end) tr.

Definition write_ids (tr : list Event) : list Z :=
  flat_map (fun e => match e with EvStart i (Post _ _ _) => [i] | _ => [] end) tr.

Definition is_get (p : Pending) : Prop :=
  p_op_type p = READ /\
  p_request p = Get (String.append BASE_URL
                       (String.append "/retrieve/" (py_str_key (p_key p)))).

(** [int(space * 0.05)] and [int(space * u ** 3)], as [get_key] computes
    them. *)
Definition hot_bound (space : Z) : Z :=
  py_int (float_mul (float_of_int space) (f64 (5 # 100))).

Definition zipf_index (space : Z) (u : Q) : Z :=
  py_int (float_mul (float_of_int space) (float_pow u 3)).

(** A key space wide enough for the float product to round past the
    exact one, and a world whose [randint] returns the top of that
    range. *)
Definition Wide_Hot_Space : Config :=
  mkConfig "wide_hot" 10 5 1 "hot" (inject_Z 16) 0 6755417383277639.

Definition top_draw_world : World :=
  mkWorld (fun _ => 0%Q) (fun _ => 337770869163881) (fun _ => 0%Q)
          (fun _ => Response 200) (fun _ => O) (Response 200).

(** A world whose first uniform draw is 0.95 and whose later ones are 0:
    the first worker of a "hot" batch misses the hot subset, the next
    one takes it. *)
Definition late_hot_world : World :=
  mkWorld (fun k => match k with O => (95 # 100)%Q | _ => 0%Q end)
          (fun _ => 0) (fun _ => 0%Q)
          (fun _ => Response 200) (fun _ => O) (Response 200).


(** [int(x)] on an IEEE binary64 value, for comparison with the rational
    model: [None] on infinities and NaN, where Python raises. *)
Definition float_int (x : float) : option Z :=
  match Prim2SF x with
  | S754_zero _ => Some 0
  | S754_finite sgn m e =>
      let mag := if 0 <=? e then Z.pos m * 2 ^ e
                 else Z.quot (Z.pos m) (2 ^ (- e)) in
      Some (if sgn then - mag else mag)
  | _ => None
  end.

(** [int(space * 0.05)] as CPython computes it, in binary64. *)
Definition float_hot_bound (space : Z) : option Z :=
  float_int (PrimFloat.mul (PrimFloat.of_uint63 (Uint63.of_Z space))
                           0x1.999999999999ap-5%float).

Definition hot_bound_agrees (space : Z) : bool :=
  match float_hot_bound space with
  | Some n => n =? hot_bound space
  | None => false
  end.

Definition Six_By_Three : Config :=
  mkConfig "six_by_three" 6 3 (1 # 2) "zipf" (inject_Z 16) 0 100.

Definition clock_le (s s' : State) : Prop :=
  (clock_calls s <= clock_calls s')%nat.

(** A clock that advances between any two readings. *)
Definition clock_advances (w : World) : Prop :=
  forall k, (wall_clock w k < wall_clock w (S k))%Q.

Definition No_Requests : Config :=
  mkConfig "no_requests" 0 5 (1 # 2) "hot" (inject_Z 16) 0 3.

Definition session_event (e : Event) : Prop :=
  match e with
  | EvSessionOpen _ | EvSessionClose => True
  | _ => False
  end.

Definition known_pattern (config : Config) : Prop :=
  key_pattern config = "uniform" \/ key_pattern config = "hot" \/
  key_pattern config = "zipf".

Definition sound_record (config : Config) (r : RequestRecord) : Prop :=
  rec_scenario r = name config /\
  1 <= rec_payload_bytes r /\
  (rec_key r = None -> ~ known_pattern config).

Definition sound_pending (config : Config) (p : Pending) : Prop :=
  1 <= py_len (p_value p) /\ (p_key p = None -> ~ known_pattern config).

Definition keeps_sound_records (config : Config) (s s' : State) : Prop :=
  Forall (sound_record config) (stats_list s) ->
  Forall (sound_record config) (stats_list s').

(** [rss] holds, scenario by scenario, the records of a run of the
    catalog that started with the [k]-th environment. *)
Fixpoint grouped (worlds : nat -> World) (k : nat) (scenarios : list Config)
         (rss : list (list RequestRecord)) : Prop :=
  match scenarios, rss with
  | [], [] => True
  | scenario :: scenarios', rs :: rss' =>
      Forall (sound_record scenario) rs /\
      Z.of_nat (List.length rs)
      = Z.max 0 (requests scenario)
        - failures (worlds k) (py_range (requests scenario)) /\
      grouped worlds (S k) scenarios' rss'
  | _, _ => False
  end.

(** The environment [w] with another answer to [DELETE /clear]. *)
Definition with_reset (w : World) (r : Reply) : World :=
  mkWorld (entropy w) (entropy_int w) (wall_clock w) (net_reply w)
          (net_delay w) r.

(** The two lines [clear_server_state] can print. *)
Definition reset_line (l : Line) : Prop :=
  match l with
  | LnCacheReset _ | LnResetFailed => True
  | _ => False
  end.

Definition same_line_but_reset (l1 l2 : Line) : Prop :=
  l1 = l2 \/ (reset_line l1 /\ reset_line l2).

(** Two states that differ at most in the reset reports on the console. *)
Definition agree (s1 s2 : State) : Prop :=
  rng_calls s1 = rng_calls s2 /\
  clock_calls s1 = clock_calls s2 /\
  stats_list s1 = stats_list s2 /\
  error_counter s1 = error_counter s2 /\
  trace s1 = trace s2 /\
  Forall2 same_line_but_reset (stdout s1) (stdout s2).

(** Two computations that, from agreeing states, end the same way in
    agreeing states. *)
Definition sim {A} (m1 m2 : M A) : Prop :=
  forall s1 s2, agree s1 s2 ->
    fst (m1 s1) = fst (m2 s2) /\ agree (snd (m1 s1)) (snd (m2 s2)).

(** * Properties *)

(** ** Arithmetic of the Python primitives *)

Lemma py_int_nonneg (x : Q) : (0 <= x)%Q -> py_int x = Qfloor x.
Proof.
  destruct x as [n d]. unfold Qle, py_int, Qfloor. simpl. intros H.
  apply Z.quot_div_nonneg; lia.
Qed.

Lemma py_int_nonpos (x : Q) : (x <= 0)%Q -> py_int x = Qceiling x.
Proof.
  destruct x as [n d]. unfold Qle, py_int, Qceiling, Qfloor. simpl. intros H.
  rewrite <- (Z.opp_involutive n) at 1.
  rewrite Z.quot_opp_l by lia.
  f_equal. apply Z.quot_div_nonneg; lia.
Qed.

Lemma py_int_comp (x y : Q) : (x == y)%Q -> py_int x = py_int y.
Proof.
  intros E. destruct (Qlt_le_dec x 0) as [L | L].
  - rewrite (py_int_nonpos x), (py_int_nonpos y);
      [now apply Qceiling_comp | rewrite <- E | ]; now apply Qlt_le_weak.
  - rewrite (py_int_nonneg x), (py_int_nonneg y);
      [now apply Qfloor_comp | rewrite <- E | ]; assumption.
Qed.

Lemma py_int_le_0 (x : Q) : (x <= 0)%Q -> py_int x <= 0.
Proof.
  intros H. rewrite py_int_nonpos by assumption.
  change 0 with (Qceiling 0). now apply Qceiling_resp_le.
Qed.

Lemma length_repeat_X (n : nat) : String.length (repeat_X n) = n.
Proof. induction n; simpl; congruence. Qed.

Lemma py_len_mul_X (n : Z) : py_len (py_mul_X n) = Z.max 0 n.
Proof. unfold py_len, py_mul_X. rewrite length_repeat_X. lia. Qed.

Lemma Qlt_bool_iff (a b : Q) : Qlt_bool a b = true <-> (a < b)%Q.
Proof.
  unfold Qlt_bool. rewrite negb_true_iff. split; intros H.
  - apply Qnot_le_lt. intros L. apply Qle_bool_iff in L. congruence.
  - destruct (Qle_bool b a) eqn:E; [|reflexivity].
    apply Qle_bool_iff in E. exfalso. exact (Qlt_not_le _ _ H E).
Qed.

Lemma Qlt_bool_false_iff (a b : Q) : Qlt_bool a b = false <-> (b <= a)%Q.
Proof.
  unfold Qlt_bool. rewrite negb_false_iff. apply Qle_bool_iff.
Qed.

(** ** Binary64 rounding *)

Section Binary64.

Local Open Scope Q_scope.

Lemma pow2_pos (e : Z) : 0 < pow2 e.
Proof. apply Qpower_0_lt. reflexivity. Qed.

Lemma pow2_add (a b : Z) : pow2 (a + b) == pow2 a * pow2 b.
Proof. apply Qpower_plus. discriminate. Qed.

Lemma pow2_le (a b : Z) : (a <= b)%Z -> pow2 a <= pow2 b.
Proof. intros H. apply Qpower_le_compat_l; [exact H | discriminate]. Qed.

Lemma pow2_lt (a b : Z) : (a < b)%Z -> pow2 a < pow2 b.
Proof. intros H. apply Qpower_lt_compat_l; [exact H | reflexivity]. Qed.

Lemma pow2_lt_inv (a b : Z) : pow2 a < pow2 b -> (a < b)%Z.
Proof. intros H. eapply Qpower_lt_compat_l_inv; [exact H | reflexivity]. Qed.

Lemma pow2_Z (a : Z) : (0 <= a)%Z -> pow2 a == inject_Z (2 ^ a).
Proof. intros H. unfold pow2. now rewrite Zpower_Qpower. Qed.

Lemma pow2_cancel (a : Z) : pow2 a * pow2 (- a) == 1.
Proof. rewrite <- pow2_add, Z.add_opp_diag_r. reflexivity. Qed.

Lemma pow2_succ (a : Z) : pow2 (a + 1) == 2 * pow2 a.
Proof. rewrite pow2_add. change (pow2 1) with 2. ring. Qed.

(** *** Rounding to the nearest integer, ties to even *)

Lemma round_half_even_cases (x : Q) :
  let f := Qfloor x in
  let d := x - inject_Z f in
  (round_half_even x = f /\ (d < 1 # 2 \/ (d == 1 # 2 /\ Z.even f = true))) \/
  (round_half_even x = (f + 1)%Z /\
   (1 # 2 < d \/ (d == 1 # 2 /\ Z.even f = false))).
Proof.
  intros f d. unfold round_half_even. fold f. fold d.
  destruct (Qle_bool d (1 # 2)) eqn:L.
  - apply Qle_bool_iff in L. destruct (Qeq_bool d (1 # 2)) eqn:E.
    + apply Qeq_bool_iff in E. destruct (Z.even f) eqn:P.
      * left. split; [reflexivity | right; split; [exact E | reflexivity]].
      * right. split; [reflexivity | right; split; [exact E | reflexivity]].
    + apply Qeq_bool_neq in E. left. split; [reflexivity | left].
      apply Qle_lteq in L. destruct L as [L | L]; [exact L | contradiction].
  - right. split; [reflexivity | left]. apply Qnot_le_lt. intros H.
    apply Qle_bool_iff in H. congruence.
Qed.

Lemma round_half_even_near (x : Q) :
  x - (1 # 2) <= inject_Z (round_half_even x) /\
  inject_Z (round_half_even x) <= x + (1 # 2).
Proof.
  pose proof (Qfloor_le x) as Hl. pose proof (Qlt_floor x) as Hu.
  rewrite inject_Z_plus in Hu. change (inject_Z 1) with 1 in Hu.
  destruct (round_half_even_cases x) as [[-> H] | [-> H]].
  - destruct H as [H | [H _]]; split; lra.
  - rewrite inject_Z_plus. change (inject_Z 1) with 1.
    destruct H as [H | [H _]]; split; lra.
Qed.

Lemma round_half_even_mono (x y : Q) :
  x <= y -> (round_half_even x <= round_half_even y)%Z.
Proof.
  intros H. pose proof (Qfloor_resp_le x y H) as F.
  pose proof (Qfloor_le x) as Hxl. pose proof (Qlt_floor x) as Hxu.
  pose proof (Qfloor_le y) as Hyl. pose proof (Qlt_floor y) as Hyu.
  destruct (round_half_even_cases x) as [[-> Hx] | [-> Hx]];
    destruct (round_half_even_cases y) as [[-> Hy] | [-> Hy]]; try lia.
  destruct (Z.eq_dec (Qfloor x) (Qfloor y)) as [E | E]; [ | lia].
  exfalso. rewrite E in Hx.
  destruct Hx as [Hx | [Hx Px]], Hy as [Hy | [Hy Py]]; try lra.
  congruence.
Qed.

Lemma round_half_even_Z (n : Z) : round_half_even (inject_Z n) = n.
Proof.
  destruct (round_half_even_cases (inject_Z n)) as [[-> _] | [_ H]].
  - apply Qfloor_Z.
  - exfalso. rewrite Qfloor_Z in H. destruct H as [H | [H _]]; lra.
Qed.

Lemma round_half_even_eq_Z (x : Q) (n : Z) :
  x == inject_Z n -> round_half_even x = n.
Proof.
  intros E. pose proof (round_half_even_Z n) as Hn.
  assert (round_half_even x <= round_half_even (inject_Z n))%Z
    by (apply round_half_even_mono; lra).
  assert (round_half_even (inject_Z n) <= round_half_even x)%Z
    by (apply round_half_even_mono; lra).
  lia.
Qed.

(** *** The binade of a positive rational *)

Lemma Qmult_lt_cancel_r (x y z : Q) : 0 < z -> x * z < y * z -> x < y.
Proof. intros Hz H. now apply (Qmult_lt_r x y z Hz). Qed.

Lemma Qmult_le_cancel_r (x y z : Q) : 0 < z -> x * z <= y * z -> x <= y.
Proof. intros Hz H. now apply (Qmult_le_r x y z Hz). Qed.

Lemma binade_spec (x : Q) :
  0 < x -> pow2 (binade x) <= x /\ x < pow2 (binade x + 1).
Proof.
  intros Hx. destruct x as [n d].
  assert (0 < n)%Z as Hn by (unfold Qlt in Hx; cbn in Hx; lia).
  unfold binade. cbn [Qnum Qden].
  set (a := Z.log2 n). set (b := Z.log2 (Z.pos d)).
  pose proof (Z.log2_spec n Hn) as [A1 A2]. fold a in A1, A2.
  pose proof (Z.log2_spec (Z.pos d) eq_refl) as [B1 B2]. fold b in B1, B2.
  pose proof (Z.log2_nonneg n) as A0. fold a in A0.
  pose proof (Z.log2_nonneg (Z.pos d)) as B0. fold b in B0.
  rewrite Zle_Qle in A1, B1. rewrite Zlt_Qlt in A2, B2.
  rewrite <- pow2_Z in A1, A2, B1, B2 by lia.
  unfold Z.succ in A2, B2. rewrite pow2_succ in A2, B2.
  assert ((n # d) * inject_Z (Z.pos d) == inject_Z n) as XD.
  { unfold Qeq, Qmult, inject_Z. cbn. lia. }
  assert (pow2 (a - b) * pow2 b == pow2 a) as EB.
  { rewrite <- pow2_add. now replace (a - b + b)%Z with a by lia. }
  pose proof (pow2_pos b) as Pb. pose proof (pow2_pos (a - b)) as Pe.
  set (X := n # d) in *. set (D := inject_Z (Z.pos d)) in *.
  set (N := inject_Z n) in *.
  assert (0 < D) as HD by lra.
  assert (X < 2 * pow2 (a - b)) as U.
  { apply (Qmult_lt_cancel_r _ _ D HD). rewrite XD.
    apply Qlt_le_trans with (2 * pow2 a); [exact A2 | ].
    rewrite <- EB. 
    setoid_replace (2 * (pow2 (a - b) * pow2 b)) with ((2 * pow2 (a - b)) * pow2 b) by ring.
    apply Qmult_le_l; lra. }
  assert (pow2 (a - b) < 2 * X) as L.
  { apply (Qmult_lt_cancel_r _ _ D HD).
    setoid_replace (2 * X * D) with (2 * (X * D)) by ring. rewrite XD.
    apply Qlt_le_trans with (pow2 (a - b) * (2 * pow2 b)).
    - apply Qmult_lt_l; lra.
    - setoid_replace (pow2 (a - b) * (2 * pow2 b))
        with (2 * (pow2 (a - b) * pow2 b)) by ring.
      rewrite EB. lra. }
  destruct (Qle_bool (pow2 (a - b)) X) eqn:C.
  - apply Qle_bool_iff in C. rewrite pow2_succ. split; lra.
  - assert (X < pow2 (a - b)) as C'.
    { apply Qnot_le_lt. intros H. apply Qle_bool_iff in H. congruence. }
    replace (a - b - 1 + 1)%Z with (a - b)%Z by lia.
    assert (pow2 (a - b) == 2 * pow2 (a - b - 1)) as E.
    { rewrite <- pow2_succ. now replace (a - b - 1 + 1)%Z with (a - b)%Z by lia. }
    split; lra.
Qed.

Lemma binade_unique (x : Q) (e : Z) :
  pow2 e <= x -> x < pow2 (e + 1) -> binade x = e.
Proof.
  intros L U. assert (0 < x) as Hx by (pose proof (pow2_pos e); lra).
  destruct (binade_spec x Hx) as [L' U'].
  assert (e < binade x + 1)%Z by (apply pow2_lt_inv; lra).
  assert (binade x < e + 1)%Z by (apply pow2_lt_inv; lra).
  lia.
Qed.

Lemma binade_mono (x y : Q) : 0 < x -> x <= y -> (binade x <= binade y)%Z.
Proof.
  intros Hx H. destruct (binade_spec x Hx) as [L _].
  destruct (binade_spec y) as [_ U]; [lra | ].
  assert (binade x < binade y + 1)%Z by (apply pow2_lt_inv; lra). lia.
Qed.

(** *** Rounding a positive rational to 53 significant bits *)

Lemma pow2_52 : pow2 52 == inject_Z (2 ^ 52).
Proof. apply pow2_Z. lia. Qed.

Lemma pow2_53 : pow2 53 == inject_Z (2 ^ 53).
Proof. apply pow2_Z. lia. Qed.

Lemma scaled_range (x : Q) :
  0 < x ->
  pow2 52 <= x * pow2 (52 - binade x) /\ x * pow2 (52 - binade x) < pow2 53.
Proof.
  intros Hx. destruct (binade_spec x Hx) as [L U].
  pose proof (pow2_pos (52 - binade x)) as P.
  assert (pow2 52 == pow2 (binade x) * pow2 (52 - binade x)) as ->.
  { rewrite <- pow2_add. now replace (binade x + (52 - binade x))%Z with 52%Z by lia. }
  assert (pow2 53 == pow2 (binade x + 1) * pow2 (52 - binade x)) as ->.
  { rewrite <- pow2_add.
    now replace (binade x + 1 + (52 - binade x))%Z with 53%Z by lia. }
  split; [apply Qmult_le_r | apply Qmult_lt_r]; assumption.
Qed.

Lemma mantissa_range (x : Q) :
  0 < x ->
  (2 ^ 52 <= round_half_even (x * pow2 (52 - binade x)) <= 2 ^ 53)%Z.
Proof.
  intros Hx. destruct (scaled_range x Hx) as [L U].
  rewrite pow2_52 in L. rewrite pow2_53 in U.
  split.
  - rewrite <- (round_half_even_Z (2 ^ 52)). now apply round_half_even_mono.
  - rewrite <- (round_half_even_Z (2 ^ 53)). apply round_half_even_mono. lra.
Qed.

Lemma unscale (x : Q) (e : Z) : x * pow2 (52 - e) * pow2 (e - 52) == x.
Proof.
  rewrite <- Qmult_assoc, <- pow2_add.
  replace (52 - e + (e - 52))%Z with 0%Z by lia. change (pow2 0) with 1. ring.
Qed.

Lemma f64_pos_near (x : Q) :
  0 < x ->
  x - pow2 (binade x - 53) <= f64_pos x /\
  f64_pos x <= x + pow2 (binade x - 53).
Proof.
  intros Hx. unfold f64_pos. cbv zeta.
  set (e := binade x). set (t := x * pow2 (52 - e)).
  destruct (round_half_even_near t) as [L U].
  pose proof (pow2_pos (e - 52)) as P.
  assert (pow2 (e - 52) == 2 * pow2 (e - 53)) as E.
  { rewrite <- pow2_succ. now replace (e - 53 + 1)%Z with (e - 52)%Z by lia. }
  pose proof (unscale x e) as X. fold t in X.
  apply (Qmult_le_compat_r _ _ (pow2 (e - 52))) in L; [ | lra].
  apply (Qmult_le_compat_r _ _ (pow2 (e - 52))) in U; [ | lra].
  split; nra.
Qed.

Lemma f64_pos_bounds (x : Q) :
  0 < x -> pow2 (binade x) <= f64_pos x /\ f64_pos x <= pow2 (binade x + 1).
Proof.
  intros Hx. destruct (mantissa_range x Hx) as [L U].
  unfold f64_pos. cbv zeta. set (e := binade x) in *.
  set (M := round_half_even _) in *.
  pose proof (pow2_pos (e - 52)) as P.
  rewrite Zle_Qle in L, U. rewrite <- pow2_52 in L. rewrite <- pow2_53 in U.
  assert (pow2 e == pow2 52 * pow2 (e - 52)) as ->.
  { rewrite <- pow2_add. now replace (52 + (e - 52))%Z with e by lia. }
  assert (pow2 (e + 1) == pow2 53 * pow2 (e - 52)) as ->.
  { rewrite <- pow2_add. now replace (53 + (e - 52))%Z with (e + 1)%Z by lia. }
  split; apply Qmult_le_r; assumption.
Qed.

Lemma f64_pos_positive (x : Q) : 0 < x -> 0 < f64_pos x.
Proof.
  intros Hx. destruct (f64_pos_bounds x Hx) as [L _].
  pose proof (pow2_pos (binade x)). lra.
Qed.

Lemma f64_pos_mono (x y : Q) : 0 < x -> x <= y -> f64_pos x <= f64_pos y.
Proof.
  intros Hx H. assert (0 < y) as Hy by lra.
  pose proof (binade_mono x y Hx H) as B.
  destruct (Z.eq_dec (binade x) (binade y)) as [E | E].
  - unfold f64_pos. cbv zeta. rewrite E.
    pose proof (pow2_pos (binade y - 52)) as P.
    pose proof (pow2_pos (52 - binade y)) as P'.
    apply Qmult_le_r; [exact P | ]. rewrite <- Zle_Qle.
    apply round_half_even_mono. apply Qmult_le_r; assumption.
  - destruct (f64_pos_bounds x Hx) as [_ U].
    destruct (f64_pos_bounds y Hy) as [L _].
    assert (pow2 (binade x + 1) <= pow2 (binade y)) by (apply pow2_le; lia).
    lra.
Qed.

Lemma f64_pos_fix (x : Q) (m k : Z) :
  (0 < m <= 2 ^ 53)%Z -> x == inject_Z m * pow2 k -> f64_pos x == x.
Proof.
  assert (forall m k : Z, (0 < m < 2 ^ 53)%Z -> x == inject_Z m * pow2 k ->
                          f64_pos x == x) as Strict.
  { clear m k. intros m k Hm E.
    assert (0 < x) as Hx.
    { rewrite E. apply Qmult_lt_0_compat; [ | apply pow2_pos].
      change 0 with (inject_Z 0). rewrite <- Zlt_Qlt. lia. }
    destruct (binade_spec x Hx) as [L _].
    unfold f64_pos. cbv zeta. set (e := binade x) in *.
    assert (e < 53 + k)%Z as J.
    { apply pow2_lt_inv. apply Qle_lt_trans with x; [exact L | ].
      rewrite E, pow2_add, pow2_53.
      apply Qmult_lt_r; [apply pow2_pos | ]. rewrite <- Zlt_Qlt. lia. }
    assert (x * pow2 (52 - e) == inject_Z (m * 2 ^ (52 - e + k))) as T.
    { rewrite inject_Z_mult, <- pow2_Z by lia. rewrite E, <- Qmult_assoc.
      rewrite <- pow2_add. now replace (k + (52 - e))%Z with (52 - e + k)%Z by lia. }
    rewrite (round_half_even_eq_Z _ _ T), <- T. apply unscale. }
  intros Hm E. destruct (Z.eq_dec m (2 ^ 53)) as [-> | N].
  - apply (Strict (2 ^ 52)%Z (k + 1)%Z); [lia | ].
    rewrite E, pow2_succ. change (2 ^ 53)%Z with (2 * 2 ^ 52)%Z.
    rewrite inject_Z_mult. change (inject_Z 2) with 2. ring.
  - apply (Strict m k); [lia | exact E].
Qed.

(** *** [f64] *)

Lemma f64_of_pos (x : Q) : 0 < x -> f64 x == f64_pos x.
Proof.
  intros Hx. unfold f64. destruct x as [[ | n | n] d]; cbn [Qnum];
    try (exfalso; unfold Qlt in Hx; cbn in Hx; lia).
  apply Qred_correct.
Qed.

Lemma f64_of_neg (x : Q) : x < 0 -> f64 x == - f64_pos (- x).
Proof.
  intros Hx. unfold f64. destruct x as [[ | n | n] d]; cbn [Qnum];
    try (exfalso; unfold Qlt in Hx; cbn in Hx; lia).
  apply Qred_correct.
Qed.

Lemma f64_of_zero (x : Q) : x == 0 -> f64 x = 0.
Proof.
  intros Hx. unfold f64. destruct x as [[ | n | n] d]; cbn [Qnum];
    try (exfalso; unfold Qeq in Hx; cbn in Hx; lia).
  reflexivity.
Qed.

Lemma f64_canonical (x : Q) : Qred (f64 x) = f64 x.
Proof.
  unfold f64. destruct (Qnum x); [reflexivity | | ];
    apply Qred_complete, Qred_correct.
Qed.

Lemma Qred_inject_Z (n : Z) : Qred (inject_Z n) = inject_Z n.
Proof.
  unfold Qred, inject_Z.
  pose proof (Z.ggcd_gcd n 1) as G. pose proof (Z.ggcd_correct_divisors n 1) as D.
  destruct (Z.ggcd n 1) as [g [aa bb]]. cbn [fst snd] in *.
  rewrite Z.gcd_1_r in G. subst g. destruct D as [D1 D2].
  rewrite Z.mul_1_l in D1, D2. subst aa bb. reflexivity.
Qed.

Lemma f64_sign (x : Q) :
  (0 < x -> 0 < f64 x) /\ (x < 0 -> f64 x < 0) /\ (x == 0 -> f64 x == 0).
Proof.
  split; [ | split].
  - intros H. rewrite (f64_of_pos x H). now apply f64_pos_positive.
  - intros H. rewrite (f64_of_neg x H).
    assert (0 < f64_pos (- x)) by (apply f64_pos_positive; lra). lra.
  - intros H. now rewrite (f64_of_zero x H).
Qed.

Lemma f64_mono (x y : Q) : x <= y -> f64 x <= f64 y.
Proof.
  intros H. destruct (f64_sign x) as (Px & Nx & Zx).
  destruct (f64_sign y) as (Py & Ny & Zy).
  destruct (Q_dec x 0) as [[X | X] | X]; destruct (Q_dec y 0) as [[Y | Y] | Y];
    try lra; try (specialize (Nx X)); try (specialize (Py Y));
    try (specialize (Px X)); try (specialize (Ny Y));
    try (specialize (Zx X)); try (specialize (Zy Y)); try lra.
  - rewrite (f64_of_neg x X), (f64_of_neg y Y).
    assert (f64_pos (- y) <= f64_pos (- x)) by (apply f64_pos_mono; lra). lra.
  - rewrite (f64_of_pos x X), (f64_of_pos y Y). now apply f64_pos_mono.
Qed.

Lemma f64_comp (x y : Q) : x == y -> f64 x == f64 y.
Proof. intros H. apply Qle_antisym; apply f64_mono; lra. Qed.

Lemma f64_eq (x y : Q) : x == y -> f64 x = f64 y.
Proof.
  intros H. rewrite <- (f64_canonical x), <- (f64_canonical y).
  apply Qred_complete. now apply f64_comp.
Qed.

(** Every [m * 2^k] with at most 53 significant bits is a float. *)
Lemma f64_fix (x : Q) (m k : Z) :
  (Z.abs m <= 2 ^ 53)%Z -> x == inject_Z m * pow2 k -> f64 x == x.
Proof.
  intros Hm E. pose proof (pow2_pos k) as P.
  destruct (Z.lt_trichotomy m 0) as [N | [-> | N]].
  - assert (x < 0) as Hx.
    { rewrite E. assert (inject_Z m < 0)
        by (change 0 with (inject_Z 0); rewrite <- Zlt_Qlt; lia). nra. }
    rewrite (f64_of_neg x Hx).
    rewrite (f64_pos_fix (- x) (- m) k); [ring | lia | ].
    rewrite E, inject_Z_opp. ring.
  - rewrite (f64_of_zero x); [ | rewrite E; ring]. rewrite E. ring.
  - assert (0 < x) as Hx.
    { rewrite E. assert (0 < inject_Z m)
        by (change 0 with (inject_Z 0); rewrite <- Zlt_Qlt; lia). nra. }
    rewrite (f64_of_pos x Hx). apply (f64_pos_fix x m k); [lia | exact E].
Qed.

Lemma f64_int (n : Z) :
  (Z.abs n <= 2 ^ 53)%Z -> f64 (inject_Z n) = inject_Z n.
Proof.
  intros H. rewrite <- f64_canonical.
  rewrite (Qred_complete _ (inject_Z n)).
  - apply Qred_inject_Z.
  - apply (f64_fix _ n 0 H). change (pow2 0) with 1. ring.
Qed.

(** The relative error of one rounding is at most [2^-53]. *)
Lemma f64_near (x : Q) :
  0 <= x ->
  x * (1 - pow2 (- 53)) <= f64 x /\ f64 x <= x * (1 + pow2 (- 53)).
Proof.
  intros H. destruct (Q_dec x 0) as [[X | X] | X]; [lra | | ].
  - rewrite (f64_of_pos x X). destruct (f64_pos_near x X) as [L U].
    destruct (binade_spec x X) as [B _].
    assert (pow2 (binade x - 53) == pow2 (binade x) * pow2 (- 53)) as E.
    { rewrite <- pow2_add. now replace (binade x + - 53)%Z with (binade x - 53)%Z by lia. }
    pose proof (pow2_pos (- 53)) as P. pose proof (pow2_pos (binade x)) as P'.
    assert (pow2 (binade x) * pow2 (- 53) <= x * pow2 (- 53))
      by (apply Qmult_le_r; assumption).
    split; lra.
  - rewrite (f64_of_zero x X), X. split; lra.
Qed.

(** A float scaled down by a factor of at most [1 - 2^-52] rounds below
    the number the float was rounded from. *)
Lemma f64_scaled_below (x c : Q) :
  0 < x -> 0 <= c -> c <= 1 - pow2 (- 52) -> f64 (f64 x * c) < x.
Proof.
  intros Hx C0 C1. rewrite (f64_comp _ (f64_pos x * c))
    by (now rewrite (f64_of_pos x Hx)).
  destruct (mantissa_range x Hx) as [ML MU].
  destruct (round_half_even_near (x * pow2 (52 - binade x))) as [_ NU].
  pose proof (unscale x (binade x)) as X.
  unfold f64_pos in *. cbv zeta in *.
  set (e := binade x) in *. set (t := x * pow2 (52 - e)) in *.
  set (M := round_half_even t) in *. set (u := pow2 (e - 52)) in *.
  assert (0 < u) as Pu by apply pow2_pos.
  set (r := inject_Z (M - 1) * u).
  assert (f64 r == r) as Fr.
  { apply (f64_fix r (M - 1) (e - 52)); [lia | reflexivity]. }
  assert (inject_Z (M - 1) == inject_Z M - 1) as EM
    by (replace (M - 1)%Z with (M + -1)%Z by lia; rewrite inject_Z_plus;
        reflexivity).
  assert (r < x) as Rx.
  { unfold r. rewrite EM. nra. }
  assert (inject_Z M * u * c <= r) as Le.
  { unfold r. rewrite EM.
    assert (1 <= inject_Z M * pow2 (- 52)) as One.
    { rewrite Zle_Qle in ML. rewrite <- pow2_52 in ML.
      pose proof (pow2_pos (- 52)) as P. pose proof (pow2_cancel 52) as K.
      apply Qle_trans with (pow2 52 * pow2 (- 52));
        [rewrite K; apply Qle_refl | ].
      apply Qmult_le_r; assumption. }
    assert (0 <= inject_Z M * u) as Pos.
    { apply Qmult_le_0_compat; [ | lra]. change 0 with (inject_Z 0).
      rewrite <- Zle_Qle. lia. }
    apply Qle_trans with (inject_Z M * u * (1 - pow2 (- 52))).
    - rewrite (Qmult_comm _ c), (Qmult_comm _ (1 - pow2 (- 52))).
      apply Qmult_le_compat_r; assumption.
    - assert (inject_Z M * u * (1 - pow2 (- 52))
              == inject_Z M * u - u * (inject_Z M * pow2 (- 52))) as -> by ring.
      assert (u * 1 <= u * (inject_Z M * pow2 (- 52)))
        by (apply Qmult_le_l; assumption).
      lra. }
  apply Qle_lt_trans with r; [ | exact Rx].
  rewrite <- Fr. now apply f64_mono.
Qed.

End Binary64.

(** [random.random()] is a multiple of [2^-53]. *)
Lemma unit_draw_grid (w : World) (k : nat) :
  exists n, unit_draw w k = (n # 9007199254740992)%Q /\ 0 <= n < 2 ^ 53.
Proof.
  unfold unit_draw. set (f := (entropy w k - inject_Z (Qfloor (entropy w k)))%Q).
  exists (Qfloor (f * inject_Z (2 ^ 53))). split; [reflexivity | ].
  assert (0 <= f /\ f < 1)%Q as [F0 F1].
  { unfold f. pose proof (Qfloor_le (entropy w k)) as Hl.
    pose proof (Qlt_floor (entropy w k)) as Hu.
    rewrite inject_Z_plus in Hu. change (inject_Z 1) with 1%Q in Hu.
    split; lra. }
  assert (0 < inject_Z (2 ^ 53))%Q as P by reflexivity.
  split.
  - change 0 with (Qfloor 0). apply Qfloor_resp_le.
    apply Qmult_le_0_compat; lra.
  - assert (Qfloor (f * inject_Z (2 ^ 53)) < 2 ^ 53); [ | lia].
    rewrite Zlt_Qlt. eapply Qle_lt_trans; [apply Qfloor_le | ].
    rewrite <- (Qmult_1_l (inject_Z (2 ^ 53))) at 2.
    apply Qmult_lt_r; assumption.
Qed.

(** [random.random()] is in [0, 1). *)
Lemma unit_draw_range (w : World) (k : nat) :
  (0 <= unit_draw w k /\ unit_draw w k < 1)%Q.
Proof.
  destruct (unit_draw_grid w k) as (n & E & Hn). rewrite E.
  unfold Qle, Qlt. cbn. lia.
Qed.

(** The comparison with the float [0.9] decides [U < 9/10]. *)
Lemma hot_threshold (w : World) (k : nat) :
  (unit_draw w k < f64 (9 # 10) <-> unit_draw w k < 9 # 10)%Q.
Proof.
  destruct (unit_draw_grid w k) as (n & E & Hn). rewrite E.
  replace (f64 (9 # 10)) with (8106479329266893 # 9007199254740992)%Q
    by (vm_compute; reflexivity).
  unfold Qlt. cbn. lia.
Qed.

(** [random.randint(a, b)] is in [a, b] when the range is not empty. *)
Lemma int_draw_range (w : World) (k : nat) (a b : Z) :
  a <= b -> a <= int_draw w k a b <= b.
Proof.
  intros H. unfold int_draw.
  pose proof (Z.mod_pos_bound (entropy_int w k) (b - a + 1)). lia.
Qed.

(** Every value of the range is drawn for some raw integer. *)
Lemma int_draw_onto (w : World) (k : nat) (a b n : Z) :
  a <= n <= b -> entropy_int w k = n - a -> int_draw w k a b = n.
Proof.
  intros H E. unfold int_draw. rewrite E, Z.mod_small; lia.
Qed.

(** ** PayloadGenerator *)

Lemma generate_payload_eq (w : World) (mean std : Q) (s : State) :
  generate_payload w mean std s =
  (Ok (py_mul_X (Z.max 1 (py_int (gauss_draw w (rng_calls s) mean std)))),
   snd (tick_rng s)).
Proof. reflexivity. Qed.

(** C8: whatever the mean, the deviation and the Gaussian draw (negative
    and zero draws included), the generated payload has at least one
    byte. *)
Theorem payload_length_at_least_one (w : World) (mean std : Q) (s : State) :
  exists value s',
    generate_payload w mean std s = (Ok value, s') /\ 1 <= py_len value.
Proof.
  eexists. eexists. split.
  - apply generate_payload_eq.
  - rewrite py_len_mul_X. lia.
Qed.

(** C4, as the code has it: the payload length is the Gaussian draw
    truncated toward zero by [int], floored to a minimum of 1; with
    [std = 0] every payload has the fixed length [max(1, int(mean))]. *)
Theorem payload_length_truncates :
  (forall (w : World) (mean std : Q) (s : State),
      exists value s',
        generate_payload w mean std s = (Ok value, s') /\
        py_len value = Z.max 1 (py_int (gauss_draw w (rng_calls s) mean std)))
  /\
  (forall (w : World) (mean : Q) (s : State),
      exists value s',
        generate_payload w mean 0 s = (Ok value, s') /\
        py_len value = Z.max 1 (py_int mean)).
Proof.
  split.
  - intros w mean std s. eexists. eexists. split.
    + apply generate_payload_eq.
    + rewrite py_len_mul_X. lia.
  - intros w mean s. eexists. eexists. split.
    + apply generate_payload_eq.
    + rewrite py_len_mul_X.
      rewrite (py_int_comp (gauss_draw w (rng_calls s) mean 0) mean).
      * lia.
      * unfold gauss_draw. ring.
Qed.

(** C4 as stated fails: with mean 2.7 and deviation 0 the draw is 2.7, the
    payload has 2 bytes, and 2 is not [max(1, r)] for any integer [r]
    nearest to 2.7. *)
Lemma payload_length_not_rounded :
  generate_payload quiet_world (27 # 10) 0 initial_state
  = (Ok "XX", snd (tick_rng initial_state)) /\
  (gauss_draw quiet_world 0 (27 # 10) 0 == 27 # 10)%Q /\
  ~ (exists r : Z,
        nearest_int (gauss_draw quiet_world 0 (27 # 10) 0) r /\
        py_len "XX" = Z.max 1 r).
Proof.
  split; [reflexivity | split; [reflexivity | ]].
  intros [r [Hn Hl]].
  assert (r = 2) as -> by (change (py_len "XX") with 2 in Hl; lia).
  vm_compute in Hn. apply Hn. reflexivity.
Qed.

(** ** KeySampler *)

(** *** Truncation *)

Lemma py_int_below (x : Q) (n : Z) :
  0 <= n -> (x < inject_Z (n + 1))%Q -> py_int x <= n.
Proof.
  intros N H. destruct (Qlt_le_dec x 0) as [L | L].
  - pose proof (py_int_le_0 x (Qlt_le_weak _ _ L)). lia.
  - rewrite py_int_nonneg by assumption.
    assert (Qfloor x < n + 1); [ | lia].
    rewrite Zlt_Qlt. eapply Qle_lt_trans; [apply Qfloor_le | exact H].
Qed.

Lemma py_int_above (x : Q) (n : Z) :
  (inject_Z n <= x)%Q -> 0 <= n -> n <= py_int x.
Proof.
  intros H N. rewrite py_int_nonneg.
  - rewrite <- (Qfloor_Z n). now apply Qfloor_resp_le.
  - eapply Qle_trans; [ | exact H]. change 0%Q with (inject_Z 0).
    now rewrite <- Zle_Qle.
Qed.


(** *** The hot subset: [int(space * 0.05)] *)

Lemma float_0_05 : f64 (5 # 100) = (3602879701896397 # 72057594037927936)%Q.
Proof. vm_compute. reflexivity. Qed.

Lemma pow2_m53 : (pow2 (- 53) == 1 # 9007199254740992)%Q.
Proof. unfold Qeq. vm_compute. reflexivity. Qed.

Lemma pow2_m52 : (pow2 (- 52) == 1 # 4503599627370496)%Q.
Proof. unfold Qeq. vm_compute. reflexivity. Qed.

Lemma float_of_int_nonpos (n : Z) : n <= 0 -> (float_of_int n <= 0)%Q.
Proof.
  intros H. unfold float_of_int.
  change 0%Q with (f64 (inject_Z 0)). apply f64_mono. now rewrite <- Zle_Qle.
Qed.

Lemma float_of_int_near (n : Z) :
  0 <= n ->
  (inject_Z n * (1 - pow2 (- 53)) <= float_of_int n /\
   float_of_int n <= inject_Z n * (1 + pow2 (- 53)))%Q.
Proof.
  intros H. apply f64_near. change 0%Q with (inject_Z 0). now rewrite <- Zle_Qle.
Qed.

Lemma hot_bound_small (space : Z) : space < 20 -> hot_bound space <= 0.
Proof.
  intros H. unfold hot_bound, float_mul. rewrite float_0_05.
  apply py_int_below; [lia | ]. change (inject_Z (0 + 1)) with 1%Q.
  apply Qle_lt_trans with (31 # 32)%Q; [ | reflexivity].
  rewrite <- (f64_fix (31 # 32) 31 (- 5)); [ | vm_compute; discriminate | reflexivity].
  apply f64_mono.
  destruct (Z_le_gt_dec space 0) as [N | P].
  - pose proof (float_of_int_nonpos space N). lra.
  - unfold float_of_int. rewrite f64_int by lia.
    assert (inject_Z space <= 19)%Q
      by (change 19%Q with (inject_Z 19); rewrite <- Zle_Qle; lia).
    lra.
Qed.

Lemma hot_bound_large (space : Z) : 20 <= space -> 1 <= hot_bound space.
Proof.
  intros H. unfold hot_bound, float_mul. rewrite float_0_05.
  apply py_int_above; [ | lia].
  rewrite <- (f64_int 1) by (vm_compute; discriminate).
  apply f64_mono.
  assert (20 <= float_of_int space)%Q.
  { unfold float_of_int. change 20%Q with (inject_Z 20).
    rewrite <- (f64_int 20) at 1 by (vm_compute; discriminate).
    apply f64_mono. now rewrite <- Zle_Qle. }
  change (inject_Z 1) with 1%Q. lra.
Qed.

Lemma hot_bound_le_space (space : Z) : 1 <= space -> hot_bound space <= space.
Proof.
  intros H. unfold hot_bound, float_mul. rewrite float_0_05.
  destruct (float_of_int_near space) as [L U]; [lia | ].
  assert (1 <= inject_Z space)%Q
    by (change 1%Q with (inject_Z 1); rewrite <- Zle_Qle; lia).
  rewrite pow2_m53 in L, U.
  set (Sp := float_of_int space) in *.
  assert (0 <= Sp * (3602879701896397 # 72057594037927936))%Q as P by lra.
  destruct (f64_near _ P) as [_ V]. rewrite pow2_m53 in V.
  apply py_int_below; [lia | ]. rewrite inject_Z_plus.
  change (inject_Z 1) with 1%Q. lra.
Qed.

Lemma hot_subset_bound (space : Z) :
  Qfloor (inject_Z space * (5 # 100)) = space / 20.
Proof.
  unfold Qfloor, inject_Z, Qmult. simpl.
  change 100 with (20 * 5). rewrite Z.div_mul_cancel_r; lia.
Qed.

(** For key spaces up to [2^48] the float product truncates to the
    integer quotient [space // 20], the floor of the exact product. *)
Lemma hot_bound_exact (space : Z) :
  0 <= space <= 2 ^ 48 -> hot_bound space = space / 20.
Proof.
  intros H. unfold hot_bound, float_mul, float_of_int.
  rewrite float_0_05, f64_int by lia.
  pose proof (Z.div_mod space 20 ltac:(lia)) as D.
  pose proof (Z.mod_pos_bound space 20 ltac:(lia)) as R.
  set (q := space / 20) in *. set (r := space mod 20) in *.
  assert (0 <= q <= 2 ^ 48) as Hq.
  { split; [apply Z.div_pos; lia | ]. unfold q.
    apply Z.le_trans with space; [ | lia]. apply Z.div_le_upper_bound; lia. }
  assert (inject_Z space == 20 * inject_Z q + inject_Z r)%Q as E.
  { rewrite D, inject_Z_plus, inject_Z_mult. reflexivity. }
  assert (0 <= inject_Z r <= 19)%Q as [R0 R1].
  { split; [change 0%Q with (inject_Z 0) | change 19%Q with (inject_Z 19)];
      rewrite <- Zle_Qle; lia. }
  assert (0 <= inject_Z q <= inject_Z (2 ^ 48))%Q as [Q0 Q1].
  { split; [change 0%Q with (inject_Z 0) | ]; rewrite <- Zle_Qle; lia. }
  change (inject_Z (2 ^ 48)) with (281474976710656 # 1)%Q in Q1.
  set (x := (inject_Z space * (3602879701896397 # 72057594037927936))%Q).
  assert (0 <= x)%Q as P by (unfold x; lra).
  destruct (f64_near x P) as [_ V]. rewrite pow2_m53 in V.
  apply Z.le_antisymm.
  - apply py_int_below; [lia | ]. rewrite inject_Z_plus.
    change (inject_Z 1) with 1%Q. unfold x in *. lra.
  - apply py_int_above; [ | lia].
    rewrite <- (f64_int q) by lia. apply f64_mono. unfold x. lra.
Qed.

(** The rounding of [f64] gives what the machine's binary64 gives for
    [int(space * 0.05)], on every key space from 0 to 9999 and on the
    key space where the product first rounds past the exact quotient. *)
Lemma hot_bound_matches_binary64 :
  forallb hot_bound_agrees (6755417383277639 :: py_range 10000) = true.
Proof. vm_compute. reflexivity. Qed.

(** *** The cube of the zipf pattern: [int(space * u ** 3)] *)

Lemma Qmult_le_nonneg_l (a x y : Q) : (0 <= a -> x <= y -> a * x <= a * y)%Q.
Proof.
  intros A H. rewrite (Qmult_comm a x), (Qmult_comm a y).
  now apply Qmult_le_compat_r.
Qed.

Lemma cube_eq (u : Q) : (u ^ 3 == u * (u * u))%Q.
Proof. cbn. ring. Qed.

Lemma cube_range (u : Q) :
  (0 <= u -> u <= 1 - pow2 (- 53) ->
   0 <= u ^ 3 /\ u ^ 3 <= 1 - pow2 (- 52))%Q.
Proof.
  intros U0 U1. rewrite pow2_m53 in U1. rewrite pow2_m52, cube_eq.
  set (m := (1 - (1 # 9007199254740992))%Q) in *.
  assert (0 <= u * u)%Q as S0 by (apply Qmult_le_0_compat; assumption).
  assert (u * u <= m * m)%Q as S1.
  { apply Qle_trans with (u * m)%Q.
    - now apply Qmult_le_nonneg_l.
    - apply Qmult_le_compat_r; [assumption | unfold m; lra]. }
  split; [apply Qmult_le_0_compat; assumption | ].
  apply Qle_trans with (m * (m * m))%Q.
  - apply Qle_trans with (u * (m * m))%Q.
    + now apply Qmult_le_nonneg_l.
    + apply Qmult_le_compat_r; [assumption | ]. unfold m. lra.
  - unfold m. unfold Qle. vm_compute. discriminate.
Qed.

Lemma float_cube_range (u : Q) :
  (0 <= u -> u <= 1 - pow2 (- 53) ->
   0 <= float_pow u 3 /\ float_pow u 3 <= 1 - pow2 (- 52))%Q.
Proof.
  intros U0 U1. destruct (cube_range u U0 U1) as [C0 C1]. unfold float_pow.
  split.
  - change 0%Q with (f64 0). now apply f64_mono.
  - rewrite <- (f64_fix (1 - pow2 (- 52)) (2 ^ 52 - 1) (- 52)).
    + now apply f64_mono.
    + vm_compute. discriminate.
    + rewrite pow2_m52. unfold Qeq. vm_compute. reflexivity.
Qed.

Lemma zipf_index_nonpos (space : Z) (u : Q) :
  (0 <= u)%Q -> (u <= 1 - pow2 (- 53))%Q -> space <= 0 ->
  zipf_index space u <= 0.
Proof.
  intros U0 U1 H. destruct (float_cube_range u U0 U1) as [C0 _].
  apply py_int_le_0. unfold float_mul. change 0%Q with (f64 0).
  apply f64_mono. pose proof (float_of_int_nonpos space H) as S.
  rewrite <- (Qmult_0_l (float_pow u 3)).
  now apply Qmult_le_compat_r.
Qed.

(** The top of the key space is out of reach. *)
Lemma zipf_index_below (space : Z) (u : Q) :
  (0 <= u)%Q -> (u <= 1 - pow2 (- 53))%Q -> 1 <= space ->
  0 <= zipf_index space u <= space - 1.
Proof.
  intros U0 U1 H. destruct (float_cube_range u U0 U1) as [C0 C1].
  assert (0 < inject_Z space)%Q as P
    by (change 0%Q with (inject_Z 0); rewrite <- Zlt_Qlt; lia).
  pose proof (f64_scaled_below (inject_Z space) (float_pow u 3) P C0 C1) as B.
  unfold zipf_index, float_mul, float_of_int. split.
  - apply py_int_above; [ | lia]. change (inject_Z 0) with (f64 0).
    apply f64_mono. apply Qmult_le_0_compat; [ | exact C0].
    change 0%Q with (f64 0). apply f64_mono. lra.
  - apply py_int_below; [lia | ].
    now replace (space - 1 + 1) with space by lia.
Qed.


Lemma unit_draw_top (w : World) (k : nat) :
  (0 <= unit_draw w k /\ unit_draw w k <= 1 - pow2 (- 53))%Q.
Proof.
  destruct (unit_draw_grid w k) as (n & E & Hn). rewrite E, pow2_m53.
  unfold Qle. cbn. lia.
Qed.

(** *** [get_key], branch by branch *)

Lemma get_key_uniform (w : World) (config : Config) (s : State) :
  key_pattern config = "uniform" ->
  get_key w config s =
  if key_space config <? 1 then (Raise ValueError, s)
  else (Ok (Some (user_ (int_draw w (rng_calls s) 1 (key_space config)))),
        after_draws 1 s).
Proof.
  intros H. unfold get_key. rewrite H. cbn [String.eqb Ascii.eqb Bool.eqb].
  unfold random_randint. destruct (key_space config <? 1); reflexivity.
Qed.

Lemma get_key_hot (w : World) (config : Config) (s : State) :
  key_pattern config = "hot" ->
  get_key w config s =
  let k := rng_calls s in
  let space := key_space config in
  if Qlt_bool (unit_draw w k) (f64 (9 # 10)) then
    if hot_bound space <? 1
    then (Raise ValueError, after_draws 1 s)
    else (Ok (Some (user_ (int_draw w (S k) 1 (hot_bound space)))),
          after_draws 2 s)
  else
    if space <? 1 then (Raise ValueError, after_draws 1 s)
    else (Ok (Some (user_ (int_draw w (S k) 1 space))), after_draws 2 s).
Proof.
  intros H. unfold get_key. rewrite H. cbn [String.eqb Ascii.eqb Bool.eqb].
  unfold random_random, random_randint, bind, tick_rng, ret. cbn beta iota zeta.
  fold (hot_bound (key_space config)).
  destruct (Qlt_bool (unit_draw w (rng_calls s)) (f64 (9 # 10))).
  - destruct (hot_bound (key_space config) <? 1); reflexivity.
  - destruct (key_space config <? 1); reflexivity.
Qed.

Lemma get_key_zipf (w : World) (config : Config) (s : State) :
  key_pattern config = "zipf" ->
  get_key w config s =
  (Ok (Some (user_ (Z.max 1 (zipf_index (key_space config)
                                        (unit_draw w (rng_calls s)))))),
   after_draws 1 s).
Proof.
  intros H. unfold get_key. rewrite H. reflexivity.
Qed.

Lemma get_key_other (w : World) (config : Config) (s : State) :
  key_pattern config <> "uniform" ->
  key_pattern config <> "hot" ->
  key_pattern config <> "zipf" ->
  get_key w config s = (Ok None, s).
Proof.
  intros Hu Hh Hz. unfold get_key.
  apply String.eqb_neq in Hu, Hh, Hz. rewrite Hu, Hh, Hz. reflexivity.
Qed.

Lemma get_key_hot_large (w : World) (config : Config) (s : State) :
  key_pattern config = "hot" ->
  20 <= key_space config ->
  exists key s', get_key w config s = (Ok key, s').
Proof.
  intros H Hs. rewrite get_key_hot by assumption. cbv zeta.
  assert ((hot_bound (key_space config) <? 1) = false) as ->.
  { apply Z.ltb_ge. now apply hot_bound_large. }
  assert ((key_space config <? 1) = false) as -> by (apply Z.ltb_ge; lia).
  destruct (Qlt_bool (unit_draw w (rng_calls s)) (f64 (9 # 10)));
    eexists; eexists; reflexivity.
Qed.

(** [str(n)] tells integers apart. *)
Lemma py_str_inj (a b : Z) : py_str a = py_str b -> a = b.
Proof.
  unfold py_str. intros H. apply (f_equal NilZero.int_of_string) in H.
  assert (forall n, Z.to_int n <> Decimal.Pos Decimal.Nil /\
                    Z.to_int n <> Decimal.Neg Decimal.Nil) as NN.
  { intros [ | p | p]; cbn; split; try discriminate;
      intros E; injection E as E;
      now apply DecimalPos.Unsigned.to_uint_nonnil in E. }
  rewrite !NilZero.isi in H by apply NN.
  injection H as H. now apply DecimalZ.to_int_inj.
Qed.




(** C6: under the "hot" pattern a fresh [U] of [0, 1) is drawn first. Every
    key that is sampled is [user_<N>], where [N] is the [randint] draw over
    [1 .. int(key_space * 0.05)] when [U < 0.9] and over [1 .. key_space]
    otherwise; the bound is the binary64 product that Python computes, and
    it is [floor(key_space * 0.05)] for every key space up to [2^48]. With
    [key_space >= 20] a key is always sampled. *)
Theorem hot_key_formula (w : World) (config : Config) (s : State) :
  key_pattern config = "hot" ->
  let k := rng_calls s in
  let u := unit_draw w k in
  let space := key_space config in
  let hot := py_int (float_mul (float_of_int space) (f64 (5 # 100))) in
  (0 <= u /\ u < 1)%Q /\
  (0 <= space <= 2 ^ 48 -> hot = Qfloor (inject_Z space * (5 # 100))) /\
  (forall key s',
      get_key w config s = (Ok key, s') ->
      exists N,
        key = Some (String.append "user_"
                      (NilZero.string_of_int (Z.to_int N))) /\
        (((u < 9 # 10)%Q /\ N = int_draw w (S k) 1 hot /\ 1 <= N <= hot) \/
         ((9 # 10 <= u)%Q /\ N = int_draw w (S k) 1 space /\ 1 <= N <= space)))
  /\
  (20 <= space -> exists key s', get_key w config s = (Ok key, s')).
Proof.
  intros H k u space hot. split; [apply unit_draw_range | ].
  split; [ | split].
  - intros Hs. rewrite hot_subset_bound. now apply hot_bound_exact.
  - rewrite get_key_hot by assumption. cbv zeta. fold k u space.
    fold (hot_bound space) in hot. fold hot.
    intros key s'.
    destruct (Qlt_bool u (f64 (9 # 10))) eqn:Eu.
    + apply Qlt_bool_iff, hot_threshold in Eu.
      destruct (hot <? 1) eqn:Eh; [discriminate | ].
      apply Z.ltb_ge in Eh. intros E. injection E as <- _.
      exists (int_draw w (S k) 1 hot). split; [reflexivity | ]. left.
      split; [exact Eu | split; [reflexivity | ]].
      apply int_draw_range. exact Eh.
    + apply Qlt_bool_false_iff in Eu.
      assert (9 # 10 <= u)%Q as Eu'.
      { apply Qnot_lt_le. intros L. apply hot_threshold in L.
        exact (Qlt_not_le _ _ L Eu). }
      destruct (space <? 1) eqn:Es; [discriminate | ].
      apply Z.ltb_ge in Es. intros E. injection E as <- _.
      exists (int_draw w (S k) 1 space). split; [reflexivity | ]. right.
      split; [exact Eu' | split; [reflexivity | ]].
      apply int_draw_range. exact Es.
  - intros Hs. now apply get_key_hot_large.
Qed.

Lemma hot_key_formula_witness :
  key_pattern Flash_Sale_Spike = "hot" /\
  exists key s',
    get_key quiet_world Flash_Sale_Spike initial_state = (Ok key, s').
Proof.
  split; [reflexivity | ].
  refine (proj2 (proj2 (proj2 (hot_key_formula quiet_world Flash_Sale_Spike
                                               initial_state eq_refl))) _).
  vm_compute. discriminate.
Defined.

(** C6 as stated fails: with [key_space = 6755417383277639] the binary64
    product [key_space * 0.05] is 337770869163882, one above
    [floor(key_space * 0.05)]; the draw [U = 0] takes the hot branch and
    [randint] can return that bound, so the key [user_337770869163882] is
    sampled, whose number is not in [1 .. floor(key_space * 0.05)]. *)
Lemma hot_subset_exceeds_floor :
  key_pattern Wide_Hot_Space = "hot" /\
  (unit_draw top_draw_world 0 < 9 # 10)%Q /\
  get_key top_draw_world Wide_Hot_Space initial_state
  = (Ok (Some "user_337770869163882"), after_draws 2 initial_state) /\
  Qfloor (inject_Z (key_space Wide_Hot_Space) * (5 # 100)) = 337770869163881 /\
  ~ (exists N,
        Some "user_337770869163882"
        = Some (String.append "user_" (NilZero.string_of_int (Z.to_int N))) /\
        1 <= N <= Qfloor (inject_Z (key_space Wide_Hot_Space) * (5 # 100))).
Proof.
  split; [reflexivity | ]. split; [reflexivity | ].
  split; [vm_compute; reflexivity | ]. split; [vm_compute; reflexivity | ].
  intros (N & E & B).
  replace (Qfloor (inject_Z (key_space Wide_Hot_Space) * (5 # 100)))
    with 337770869163881 in B by (vm_compute; reflexivity).
  injection E as E.
  change "337770869163882" with (py_str 337770869163882) in E.
  apply py_str_inj in E. lia.
Qed.

(** ** RequestDispatcher *)

(** [worker_start] in one piece: the key is sampled first; if sampling
    raises, nothing else happens. *)
Lemma worker_start_eq (w : World) (i : Z) (config : Config) (s : State) :
  worker_start w i config s =
  match get_key w config s with
  | (Raise e, s1) => (Raise e, s1)
  | (Ok key, s1) =>
      let value := py_mul_X (Z.max 1 (py_int
                     (gauss_draw w (rng_calls s1) (payload_mean config)
                                 (payload_std config)))) in
      let start := wall_clock w (clock_calls s1) in
      let u := unit_draw w (S (rng_calls s1)) in
      let p := dispatch_of config i key value start u in
      (Ok p, add_event (EvStart i (p_request p))
                       (add_clock (after_draws 2 s1)))
  end.
Proof.
  unfold worker_start, bind at 1.
  destruct (get_key w config s) as [[key | e] s1]; [ | reflexivity].
  unfold dispatch_of. cbn.
  destruct (Qlt_bool (read_ratio config) (unit_draw w (S (rng_calls s1))));
    reflexivity.
Qed.

(** *** What each step may touch *)

Lemma only_counters_refl (s : State) : only_counters s s.
Proof. repeat split. Qed.

Lemma only_counters_trans (s1 s2 s3 : State) :
  only_counters s1 s2 -> only_counters s2 s3 -> only_counters s1 s3.
Proof.
  unfold only_counters. intros (A & B & C & D) (A' & B' & C' & D').
  repeat split; congruence.
Qed.

Lemma get_key_frame (w : World) (config : Config) (s s1 : State)
      (r : result (option string)) :
  get_key w config s = (r, s1) ->
  only_counters s s1 /\ (forall e, r = Raise e -> e = ValueError).
Proof.
  destruct (String.eqb_spec (key_pattern config) "uniform") as [Hu | Hu].
  { rewrite get_key_uniform by assumption.
    destruct (key_space config <? 1); intros E; injection E as <- <-;
      (split; [repeat split | intros e E; congruence]). }
  destruct (String.eqb_spec (key_pattern config) "hot") as [Hh | Hh].
  { rewrite get_key_hot by assumption. cbv zeta.
    destruct (Qlt_bool _ _);
      [destruct (hot_bound _ <? 1) | destruct (key_space config <? 1)];
      intros E; injection E as <- <-;
      (split; [repeat split | intros e E; congruence]). }
  destruct (String.eqb_spec (key_pattern config) "zipf") as [Hz | Hz].
  { rewrite get_key_zipf by assumption.
    intros E; injection E as <- <-.
    split; [repeat split | intros e E; congruence]. }
  rewrite get_key_other by assumption.
  intros E; injection E as <- <-.
  split; [repeat split | intros e E; congruence].
Qed.

(** A worker either fails while sampling its key, leaving collectors and
    trace as they were, or puts exactly one request on the wire. *)
Lemma worker_start_cases (w : World) (i : Z) (config : Config)
      (s s' : State) (r : result Pending) :
  worker_start w i config s = (r, s') ->
  (r = Raise ValueError /\ only_counters s s') \/
  (exists p, r = Ok p /\ p_index p = i /\
             stats_list s' = stats_list s /\
             error_counter s' = error_counter s /\
             stdout s' = stdout s /\
             trace s' = trace s ++ [EvStart i (p_request p)]).
Proof.
  rewrite worker_start_eq.
  destruct (get_key w config s) as [[key | e] s1] eqn:K;
    apply get_key_frame in K; destruct K as [(A & B & C & D) V].
  - cbv zeta. intros E. injection E as <- <-. right.
    eexists. split; [reflexivity | ].
    split; [unfold dispatch_of; destruct (Qlt_bool _ _); reflexivity | ].
    cbn. rewrite A, B, C, D. repeat split.
  - intros E. injection E as <- <-. left.
    rewrite (V e eq_refl). repeat split; assumption.
Qed.

Lemma worker_finish_eq (w : World) (config : Config) (p : Pending) (s : State) :
  exists s',
    worker_finish w config p s = (Ok tt, s') /\
    stdout s' = stdout s /\ rng_calls s' = rng_calls s /\
    trace s' = trace s ++ [EvResolve (p_index p) (net_reply w (p_index p))] /\
    match net_reply w (p_index p) with
    | Response status =>
        error_counter s' = error_counter s /\
        exists r, stats_list s' = stats_list s ++ [r] /\
                  rec_status r = status /\
                  rec_operation r = p_op_type p /\
                  rec_scenario r = name config /\
                  rec_payload_bytes r = py_len (p_value p) /\
                  rec_key r = p_key p
    | TransportError =>
        error_counter s' = error_counter s + 1 /\
        stats_list s' = stats_list s
    end.
Proof.
  unfold worker_finish.
  destruct (net_reply w (p_index p)) as [status | ];
    eexists; (split; [reflexivity | ]); cbn; repeat split.
  eexists. split; [reflexivity | ]. repeat split.
Qed.

(** *** The first phase of [gather] *)

Lemma start_all_spec (w : World) (config : Config) (tasks : list Z) :
  forall (s s' : State) (ps : list Pending) (e : option exn),
    start_all w config tasks s = ((ps, e), s') ->
    stats_list s' = stats_list s /\ error_counter s' = error_counter s /\
    stdout s' = stdout s /\
    trace s' = trace s ++ map start_event ps /\
    match e with
    | None => map p_index ps = tasks
    | Some x => x = ValueError /\ (List.length ps < List.length tasks)%nat
    end /\
    (List.length ps <= List.length tasks)%nat.
Proof.
  induction tasks as [ | i rest IH]; intros s s' ps e; simpl.
  - intros E. injection E as <- <- <-. rewrite app_nil_r. repeat split.
    apply le_n.
  - destruct (worker_start w i config s) as [[p | x] s1] eqn:W;
      apply worker_start_cases in W;
      destruct (start_all w config rest s1) as [[ps1 e1] s2] eqn:R;
      apply IH in R; destruct R as (A & B & C & D & F & G);
      intros E; injection E as <- <- <-.
    + destruct W as [[W _] | (p' & W & Hi & A' & B' & C' & D')];
        [discriminate | ]. injection W as <-.
      repeat split; try congruence.
      * rewrite D, D'. simpl. rewrite <- app_assoc. unfold start_event at 2.
        rewrite Hi. reflexivity.
      * destruct e1 as [x | ]; simpl.
        -- destruct F. split; [assumption | lia].
        -- congruence.
      * simpl. lia.
    + destruct W as [[W (A' & B' & C' & D')] | (p' & W & _)];
        [ | discriminate]. injection W as ->.
      repeat split; try congruence; simpl; lia.
Qed.

(** ** Key sampling outside the three patterns *)

(** C10: a pattern other than "uniform", "hot" and "zipf" is not rejected:
    key sampling returns [None] without raising and without touching the
    state, and the worker issues its request with that absent key, a READ
    being a GET of [.../retrieve/None]. *)
Theorem unknown_pattern_key_is_None (w : World) (config : Config) (i : Z)
        (s : State) :
  key_pattern config <> "uniform" ->
  key_pattern config <> "hot" ->
  key_pattern config <> "zipf" ->
  get_key w config s = (Ok None, s) /\
  exists p s',
    worker_start w i config s = (Ok p, s') /\
    p_key p = None /\
    trace s' = trace s ++ [EvStart i (p_request p)] /\
    ((p_op_type p = READ /\
      p_request p = Get "http://localhost:8080/api/cache/retrieve/None") \/
     (p_op_type p = WRITE /\
      p_request p = Post "http://localhost:8080/api/cache/store" None
                         (p_value p))).
Proof.
  intros Hu Hh Hz. split; [now apply get_key_other | ].
  rewrite worker_start_eq, get_key_other by assumption. cbv zeta.
  eexists. eexists. split; [reflexivity | ].
  unfold dispatch_of.
  destruct (Qlt_bool (read_ratio config) (unit_draw w (S (rng_calls s))));
    cbn; repeat split; [right | left]; split; reflexivity.
Qed.

Lemma unknown_pattern_key_is_None_witness :
  (key_pattern Misspelt_Pattern <> "uniform" /\
   key_pattern Misspelt_Pattern <> "hot" /\
   key_pattern Misspelt_Pattern <> "zipf") /\
  get_key quiet_world Misspelt_Pattern initial_state = (Ok None, initial_state).
Proof.
  split; [repeat split; discriminate | ].
  refine (proj1 (unknown_pattern_key_is_None quiet_world Misspelt_Pattern 0
                                             initial_state _ _ _));
    discriminate.
Defined.

(** *** The second phase of [gather] *)

Lemma failures_app (w : World) (l1 l2 : list Z) :
  failures w (l1 ++ l2) = failures w l1 + failures w l2.
Proof.
  induction l1 as [ | i l1 IH]; cbn [failures app]; [reflexivity | ].
  destruct (net_reply w i); lia.
Qed.

Lemma failures_bounds (w : World) (ids : list Z) :
  0 <= failures w ids <= Z.of_nat (List.length ids).
Proof.
  induction ids as [ | i ids IH]; cbn [failures List.length]; [lia | ].
  destruct (net_reply w i); lia.
Qed.

Lemma failures_perm (w : World) (l l' : list Z) :
  Permutation l l' -> failures w l = failures w l'.
Proof.
  induction 1 as [ | x l l' _ IH | x y l | l l' l'' _ IH1 _ IH2];
    cbn [failures].
  - reflexivity.
  - rewrite IH. reflexivity.
  - destruct (net_reply w x), (net_reply w y); lia.
  - congruence.
Qed.

Lemma insert_by_delay_perm (w : World) (p : Pending) (ps : list Pending) :
  Permutation (insert_by_delay w p ps) (p :: ps).
Proof.
  induction ps as [ | q ps IH]; simpl; [apply Permutation_refl | ].
  destruct (net_delay w (p_index p) <=? net_delay w (p_index q))%nat.
  - apply Permutation_refl.
  - eapply perm_trans; [apply perm_skip, IH | apply perm_swap].
Qed.

Lemma completion_order_perm (w : World) (ps : list Pending) :
  Permutation (completion_order w ps) ps.
Proof.
  induction ps as [ | p ps IH]; simpl; [apply perm_nil | ].
  eapply perm_trans; [apply insert_by_delay_perm | apply perm_skip, IH].
Qed.

Lemma finish_all_spec (w : World) (config : Config) (qs : list Pending) :
  forall s : State,
  exists s',
    finish_all w config qs s = (Ok tt, s') /\
    stdout s' = stdout s /\ rng_calls s' = rng_calls s /\
    trace s' = trace s ++ map (resolve_event w) qs /\
    error_counter s' = error_counter s + failures w (map p_index qs) /\
    exists recs,
      stats_list s' = stats_list s ++ recs /\
      Z.of_nat (List.length recs)
      = Z.of_nat (List.length qs) - failures w (map p_index qs) /\
      Forall (fun r => exists p, In p qs /\ record_of w config p r) recs.
Proof.
  induction qs as [ | q qs IH]; intros s.
  - exists s. simpl. rewrite app_nil_r. repeat split; try lia.
    exists []. rewrite app_nil_r. repeat split. constructor.
  - destruct (worker_finish_eq w config q s) as (s1 & E1 & O1 & R1 & T1 & C1).
    destruct (IH s1) as (s2 & E2 & O2 & R2 & T2 & C2 & recs & L2 & N2 & F2).
    exists s2. split.
    { cbn [finish_all]. unfold bind at 1. rewrite E1. exact E2. }
    split; [congruence | ]. split; [congruence | ].
    split.
    { rewrite T2, T1. simpl. rewrite <- app_assoc. reflexivity. }
    assert (Forall (fun r => exists p, In p (q :: qs) /\ record_of w config p r)
                   recs) as F2'.
    { eapply Forall_impl; [ | exact F2]. intros r (p & I & H).
      exists p. split; [now right | exact H]. }
    cbn [map failures List.length].
    destruct (net_reply w (p_index q)) as [status | ] eqn:Rq.
    + destruct C1 as (C1 & r & L1 & S1 & P1 & N1 & B1 & K1).
      split; [lia | ].
      exists (r :: recs). split.
      { rewrite L2, L1, <- app_assoc. reflexivity. }
      split; [cbn [List.length]; lia | ].
      constructor; [ | exact F2'].
      exists q. split; [now left | ].
      unfold record_of. rewrite Rq, S1. repeat split; assumption.
    + destruct C1 as (C1 & L1).
      split; [lia | ].
      exists recs. split; [congruence | ]. split; [lia | exact F2'].
Qed.

(** *** Key sampling that cannot raise *)

Lemma get_key_safe (w : World) (config : Config) (s : State) :
  keys_safe config -> exists key s1, get_key w config s = (Ok key, s1).
Proof.
  intros [Su Sh].
  destruct (String.eqb_spec (key_pattern config) "uniform") as [Hu | Hu].
  { rewrite get_key_uniform by assumption.
    assert ((key_space config <? 1) = false) as ->
        by (apply Z.ltb_ge; auto).
    eexists; eexists; reflexivity. }
  destruct (String.eqb_spec (key_pattern config) "hot") as [Hh | Hh].
  { exact (get_key_hot_large w config s Hh (Sh Hh)). }
  destruct (String.eqb_spec (key_pattern config) "zipf") as [Hz | Hz].
  { rewrite get_key_zipf by assumption. eexists; eexists; reflexivity. }
  rewrite get_key_other by assumption. eexists; eexists; reflexivity.
Qed.

Lemma start_all_safe (w : World) (config : Config) (tasks : list Z) :
  keys_safe config ->
  forall (s s' : State) (ps : list Pending) (e : option exn),
    start_all w config tasks s = ((ps, e), s') -> e = None.
Proof.
  intros Safe. induction tasks as [ | i rest IH]; intros s s' ps e; simpl.
  - intros E. now injection E as <- <- <-.
  - rewrite worker_start_eq.
    destruct (get_key_safe w config s Safe) as (key & s1 & ->).
    cbv beta iota zeta.
    match goal with
    | |- context [start_all w config rest ?x] =>
        destruct (start_all w config rest x) as [[ps1 e1] s2] eqn:R
    end.
    apply IH in R. intros E. injection E as <- <- <-. exact R.
Qed.

(** *** Shape of the dispatches of a batch *)

Lemma dispatch_of_shape (w : World) (config : Config) (i : Z)
      (key : option string) (value : string) (start : Q) (k : nat) :
  dispatch_shape w config (dispatch_of config i key value start (unit_draw w k)).
Proof.
  exists k. unfold dispatch_of.
  destruct (Qlt_bool (read_ratio config) (unit_draw w k)); reflexivity.
Qed.

Lemma start_all_shape (w : World) (config : Config) (tasks : list Z) :
  forall (s s' : State) (ps : list Pending) (e : option exn),
    start_all w config tasks s = ((ps, e), s') ->
    Forall (dispatch_shape w config) ps.
Proof.
  induction tasks as [ | i rest IH]; intros s s' ps e; simpl.
  - intros E. injection E as <- <- <-. constructor.
  - rewrite worker_start_eq.
    destruct (get_key w config s) as [[key | x] s1]; cbv beta iota zeta;
      match goal with
      | |- context [start_all w config rest ?x] =>
          destruct (start_all w config rest x) as [[ps1 e1] s2] eqn:R
      end;
      apply IH in R; intros E; injection E as <- <- <-.
    + constructor; [apply dispatch_of_shape | exact R].
    + exact R.
Qed.

(** *** One [gather] *)

Lemma gather_spec (w : World) (config : Config) (tasks : list Z) (s : State) :
  exists r s',
    gather w config tasks s = (r, s') /\
    stdout s' = stdout s /\
    ((r = Ok tt /\ gather_completed w config tasks s s') \/
     (r = Raise ValueError /\ ~ keys_safe config /\
      gather_aborted w config tasks s s')).
Proof.
  unfold gather, bind at 1. cbn [emit].
  set (s0 := mkState _ _ _ _ _ _).
  destruct (start_all w config tasks s0) as [[ps e] s1] eqn:S1.
  pose proof (start_all_spec _ _ _ _ _ _ _ S1) as (A & B & C & D & F & G).
  pose proof (start_all_shape _ _ _ _ _ _ _ S1) as Sh.
  subst s0. cbn [stats_list error_counter stdout trace] in A, B, C, D.
  destruct e as [x | ].
  - destruct F as [-> F]. exists (Raise ValueError), s1.
    split; [reflexivity | ]. split; [exact C | ]. right.
    split; [reflexivity | ]. split.
    { intros Safe. pose proof (start_all_safe _ _ _ Safe _ _ _ _ S1).
      discriminate. }
    exists ps. split; [exact F | ]. split; [exact Sh | ].
    split; [ | split; assumption].
    rewrite D, <- app_assoc. reflexivity.
  - destruct (finish_all_spec w config (completion_order w ps) s1)
      as (s2 & E2 & O2 & R2 & T2 & C2 & recs & L2 & N2 & F2).
    pose proof (completion_order_perm w ps) as P.
    assert (failures w (map p_index (completion_order w ps)) = failures w tasks)
      as Ef.
    { rewrite <- F. apply failures_perm. now apply Permutation_map. }
    exists (Ok tt). eexists. split.
    { unfold bind. rewrite E2. reflexivity. }
    cbn [emit snd stdout].
    split; [congruence | ]. left. split; [reflexivity | ].
    exists ps. cbn [trace error_counter stats_list].
    split; [exact F | ]. split; [exact Sh | ].
    split.
    { rewrite T2, D. unfold batch_events.
      rewrite <- !app_assoc. reflexivity. }
    split; [rewrite C2, Ef; congruence | ].
    exists recs. split; [congruence | ]. split.
    { rewrite N2, Ef, (Permutation_length P), <- F, length_map. reflexivity. }
    eapply Forall_impl; [ | exact F2]. intros r (p & I & H).
    exists p. split; [ | exact H].
    eapply Permutation_in; [exact P | exact I].
Qed.

(** ** The empty hot subset *)

Lemma get_key_hot_small (w : World) (config : Config) (s : State) :
  key_pattern config = "hot" ->
  key_space config < 20 ->
  (unit_draw w (rng_calls s) < 9 # 10)%Q ->
  get_key w config s = (Raise ValueError, after_draws 1 s).
Proof.
  intros H Hs Hu. rewrite get_key_hot by assumption. cbv zeta.
  apply hot_threshold, Qlt_bool_iff in Hu. rewrite Hu.
  pose proof (hot_bound_small _ Hs) as L.
  assert ((hot_bound (key_space config) <? 1) = true) as ->
      by (apply Z.ltb_lt; lia).
  reflexivity.
Qed.

(** The workers of a batch start one after the other. *)
Lemma start_all_app (w : World) (config : Config) (pre post : list Z) :
  forall s,
    start_all w config (pre ++ post) s =
    let '((ps1, e1), s1) := start_all w config pre s in
    let '((ps2, e2), s2) := start_all w config post s1 in
    ((ps1 ++ ps2, match e1 with Some e => Some e | None => e2 end), s2).
Proof.
  induction pre as [ | i pre IH]; intros s; cbn [app start_all].
  - destruct (start_all w config post s) as [[ps2 e2] s2]. reflexivity.
  - destruct (worker_start w i config s) as [[p | e] s0]; rewrite IH;
      destruct (start_all w config pre s0) as [[ps1 e1] s1];
      destruct (start_all w config post s1) as [[ps2 e2] s2]; reflexivity.
Qed.

(** C9: under the "hot" pattern with [key_space < 20] the hot subset
    [1 .. int(key_space * 0.05)] is empty (the bound is 0 for
    [0 <= key_space < 20]); a worker that takes the hot branch
    ([U < 0.9]) has [randint] raise [ValueError]. The exception leaves the
    worker: no record is appended, [ErrorCounter] is not incremented and
    no request is issued; and wherever the worker stands in its batch,
    the [gather] of that batch raises [ValueError] with no request of the
    batch resolved, no record appended and no error counted. [s] is the
    state in which worker [i] starts, [s0] the state from which its batch
    [pre ++ i :: post] is gathered. *)
Theorem hot_small_key_space_raises (w : World) (config : Config) (i : Z)
        (s : State) :
  key_pattern config = "hot" ->
  key_space config < 20 ->
  (unit_draw w (rng_calls s) < 9 # 10)%Q ->
  py_int (float_mul (float_of_int (key_space config)) (f64 (5 # 100))) <= 0 /\
  (0 <= key_space config ->
   py_int (float_mul (float_of_int (key_space config)) (f64 (5 # 100))) = 0 /\
   Qfloor (inject_Z (key_space config) * (5 # 100)) = 0) /\
  get_key w config s = (Raise ValueError, after_draws 1 s) /\
  (exists s1,
      worker w i config s = (Raise ValueError, s1) /\
      stats_list s1 = stats_list s /\ error_counter s1 = error_counter s /\
      trace s1 = trace s) /\
  (forall (pre post : list Z) (s0 : State),
      snd (start_all w config pre
                     (add_event (EvGather (pre ++ i :: post)) s0)) = s ->
      exists s2,
        gather w config (pre ++ i :: post) s0 = (Raise ValueError, s2) /\
        stats_list s2 = stats_list s0 /\ error_counter s2 = error_counter s0 /\
        resolve_ids (new_events s0 s2) = [] /\
        ~ In EvJoin (new_events s0 s2)).
Proof.
  intros H Hs Hu.
  pose proof (hot_bound_small _ Hs) as Small. unfold hot_bound in Small.
  split; [exact Small | ]. split; [ | split; [ | split]].
  - intros Hp. split.
    + fold (hot_bound (key_space config)). rewrite hot_bound_exact by lia.
      apply Z.div_small. lia.
    + rewrite hot_subset_bound. apply Z.div_small. lia.
  - now apply get_key_hot_small.
  - exists (after_draws 1 s). split; [ | repeat split].
    unfold worker, bind. rewrite worker_start_eq, get_key_hot_small by assumption.
    reflexivity.
  - intros pre post s0 Arr.
    unfold gather, bind at 1. cbn [emit].
    unfold add_event in Arr. cbn [emit snd] in Arr.
    match goal with
    | |- context [start_all w config (pre ++ i :: post) ?x] =>
        set (sg := x) in *
    end.
    rewrite start_all_app.
    destruct (start_all w config pre sg) as [[ps1 e1] s1] eqn:R1.
    cbn [snd] in Arr. subst s1.
    cbn [start_all].
    rewrite worker_start_eq, get_key_hot_small by assumption.
    destruct (start_all w config post (after_draws 1 s)) as [[ps2 e2] s2] eqn:R2.
    apply start_all_spec in R1, R2.
    destruct R1 as (A1 & B1 & _ & D1 & F1 & _).
    destruct R2 as (A2 & B2 & _ & D2 & _).
    exists s2.
    assert (match e1 with Some e => Some e | None => Some ValueError end
            = Some ValueError) as ->.
    { destruct e1 as [e | ]; [destruct F1 as [-> _] | ]; reflexivity. }
    split; [reflexivity | ].
    split; [rewrite A2; cbn [after_draws stats_list]; rewrite A1; reflexivity | ].
    split; [rewrite B2; cbn [after_draws error_counter]; rewrite B1; reflexivity | ].
    assert (new_events s0 s2
            = EvGather (pre ++ i :: post) :: map start_event (ps1 ++ ps2)) as ->.
    { unfold new_events. rewrite D2. cbn [after_draws trace]. rewrite D1.
      subst sg. cbn [trace].
      rewrite <- !app_assoc, skipn_app, skipn_all, Nat.sub_diag.
      cbn [skipn app]. now rewrite map_app. }
    split.
    + cbn. induction (ps1 ++ ps2) as [ | p l IH]; [reflexivity | exact IH].
    + intros [I | I]; [discriminate | ].
      apply in_map_iff in I. destruct I as (p & I & _). discriminate.
Qed.

Lemma hot_small_key_space_raises_witness :
  (key_pattern Tiny_Hot_Space = "hot" /\
   key_space Tiny_Hot_Space < 20 /\
   (unit_draw late_hot_world 4 < 9 # 10)%Q) /\
  exists s2,
    gather late_hot_world Tiny_Hot_Space [0; 1; 2] initial_state
    = (Raise ValueError, s2) /\
    stats_list s2 = [] /\ error_counter s2 = 0.
Proof.
  split; [repeat split | ].
  destruct (proj2 (proj2 (proj2 (proj2
              (hot_small_key_space_raises
                 late_hot_world Tiny_Hot_Space 1
                 (snd (start_all late_hot_world Tiny_Hot_Space [0]
                         (add_event (EvGather [0; 1; 2]) initial_state)))
                 eq_refl eq_refl eq_refl))))
              [0] [2] initial_state eq_refl)
    as (s2 & G & A & B & _).
  exists s2. split; [exact G | split; [exact A | exact B]].
Defined.

(** ** ConcurrencyBatcher *)

(** *** The loop, batch by batch *)

Lemma bind_assoc {A B C} (m : M A) (f : A -> M B) (g : B -> M C) (s : State) :
  bind (bind m f) g s = bind m (fun x => bind (f x) g) s.
Proof.
  unfold bind. destruct (m s) as [[a | e] s1]; reflexivity.
Qed.

Lemma bind_ext {A B} (m : M A) (k1 k2 : A -> M B) (s : State) :
  (forall a s', k1 a s' = k2 a s') -> bind m k1 s = bind m k2 s.
Proof.
  intros H. unfold bind. destruct (m s) as [[a | e] s1]; [apply H | reflexivity].
Qed.

Lemma batch_loop_plan (w : World) (scenario : Config) (start_time : Q)
      (pending_is : list Z) :
  forall (tasks : list Z) (s : State),
    batch_loop w scenario start_time pending_is tasks s =
    (run_batches w scenario start_time
                 (fst (plan (users scenario) pending_is tasks)) ;;;
     ret (snd (plan (users scenario) pending_is tasks))) s.
Proof.
  induction pending_is as [ | i rest IH]; intros tasks s.
  - reflexivity.
  - cbn [batch_loop plan].
    destruct (users scenario <=? Z.of_nat (List.length (tasks ++ [i]))).
    + destruct (plan (users scenario) rest []) as [bs left] eqn:P.
      cbn [fst snd run_batches]. rewrite last_last.
      rewrite bind_assoc. apply bind_ext. intros _ s1.
      rewrite bind_assoc. unfold progress_check.
      rewrite bind_assoc. apply bind_ext. intros r s2.
      apply bind_ext. intros _ s3.
      rewrite IH, P. reflexivity.
    + apply IH.
Qed.

Lemma plan_concat (usrs : Z) (pending_is : list Z) :
  forall tasks,
    List.concat (fst (plan usrs pending_is tasks)) ++ snd (plan usrs pending_is tasks)
    = tasks ++ pending_is.
Proof.
  induction pending_is as [ | i rest IH]; intros tasks; cbn [plan].
  - cbn. now rewrite app_nil_r.
  - destruct (usrs <=? Z.of_nat (List.length (tasks ++ [i]))).
    + specialize (IH []). destruct (plan usrs rest []) as [bs left].
      cbn [fst snd List.concat] in *. rewrite <- !app_assoc, IH. reflexivity.
    + rewrite IH, <- app_assoc. reflexivity.
Qed.

Lemma plan_sizes (usrs : Z) (pending_is : list Z) :
  0 < usrs ->
  forall tasks,
    Z.of_nat (List.length tasks) < usrs ->
    Forall (fun b => Z.of_nat (List.length b) = usrs)
           (fst (plan usrs pending_is tasks)) /\
    Z.of_nat (List.length (snd (plan usrs pending_is tasks))) < usrs.
Proof.
  intros Hu. induction pending_is as [ | i rest IH]; intros tasks Ht; cbn [plan].
  - split; [constructor | exact Ht].
  - destruct (usrs <=? Z.of_nat (List.length (tasks ++ [i]))) eqn:E.
    + apply Z.leb_le in E.
      destruct (IH []) as [F L]; [cbn; lia | ].
      destruct (plan usrs rest []) as [bs left]. cbn [fst snd] in *.
      split; [ | exact L]. constructor; [ | exact F].
      rewrite length_app in *. cbn [List.length] in *. lia.
    + apply Z.leb_gt in E. apply IH. exact E.
Qed.

(** *** Completed batches *)

Lemma progressed_quiet (w : World) (config : Config) (s s' : State) :
  trace s' = trace s -> stats_list s' = stats_list s ->
  error_counter s' = error_counter s ->
  progressed w config [] [] s s'.
Proof.
  intros T L C. split; [constructor | ]. cbn.
  split; [now rewrite app_nil_r | ]. split; [lia | ].
  exists []. rewrite app_nil_r. cbn. repeat split; auto.
Qed.

Lemma blocks_trace_app (w : World) (d1 d2 : list (list Pending)) :
  blocks_trace w (d1 ++ d2) = blocks_trace w d1 ++ blocks_trace w d2.
Proof. unfold blocks_trace. apply flat_map_app. Qed.

Lemma batches_of_app (d1 d2 : list (list Pending)) :
  batches_of (d1 ++ d2) = batches_of d1 ++ batches_of d2.
Proof. unfold batches_of. apply map_app. Qed.

Lemma batches_of_cons (ps : list Pending) (done : list (list Pending)) :
  batches_of (ps :: done) = map p_index ps :: batches_of done.
Proof. reflexivity. Qed.

Lemma progressed_trans (w : World) (config : Config)
      (d1 d2 : list (list Pending)) (tail : list Event) (s s1 s2 : State) :
  progressed w config d1 [] s s1 ->
  progressed w config d2 tail s1 s2 ->
  progressed w config (d1 ++ d2) tail s s2.
Proof.
  intros (F1 & T1 & C1 & r1 & L1 & N1 & R1) (F2 & T2 & C2 & r2 & L2 & N2 & R2).
  split; [apply Forall_app; split; assumption | ].
  rewrite batches_of_app, concat_app, failures_app, length_app.
  split.
  { rewrite T2, T1, blocks_trace_app, app_nil_r, <- !app_assoc. reflexivity. }
  split; [lia | ].
  exists (r1 ++ r2). split; [rewrite L2, L1, app_assoc; reflexivity | ].
  split; [rewrite length_app; lia | ].
  apply Forall_app. split.
  - eapply Forall_impl; [ | exact R1]. intros r (ps & p & I & J & H).
    exists ps, p. split; [apply in_or_app; now left | split; assumption].
  - eapply Forall_impl; [ | exact R2]. intros r (ps & p & I & J & H).
    exists ps, p. split; [apply in_or_app; now right | split; assumption].
Qed.

Lemma gather_completed_progressed (w : World) (config : Config)
      (tasks : list Z) (s s' : State) :
  gather_completed w config tasks s s' ->
  exists ps, map p_index ps = tasks /\ progressed w config [ps] [] s s'.
Proof.
  intros (ps & I & Sh & T & C & recs & L & N & R).
  exists ps. split; [exact I | ].
  split; [constructor; [exact Sh | constructor] | ].
  unfold blocks_trace, batches_of. cbn [flat_map map List.concat].
  rewrite !app_nil_r, I.
  split; [exact T | ]. split; [exact C | ].
  exists recs. split; [exact L | ]. split; [exact N | ].
  eapply Forall_impl; [ | exact R]. intros r (p & J & H).
  exists ps, p. split; [now left | split; assumption].
Qed.

Lemma gather_aborted_progressed (w : World) (config : Config)
      (tasks : list Z) (s s' : State) :
  gather_aborted w config tasks s s' ->
  exists ps, (List.length ps < List.length tasks)%nat /\
             Forall (dispatch_shape w config) ps /\
             progressed w config [] (EvGather tasks :: map start_event ps) s s'.
Proof.
  intros (ps & L & Sh & T & S & C).
  exists ps. split; [exact L | ]. split; [exact Sh | ].
  split; [constructor | ]. cbn.
  split; [exact T | ]. split; [lia | ].
  exists []. rewrite app_nil_r. cbn. repeat split; auto.
Qed.

(** *** Progress lines *)

Lemma progress_percents_app (l1 l2 : list Line) :
  progress_percents (l1 ++ l2) = progress_percents l1 ++ progress_percents l2.
Proof. unfold progress_percents. apply flat_map_app. Qed.

Lemma progress_check_spec (w : World) (scenario : Config) (start_time : Q)
      (i : Z) (s : State) :
  exists r s',
    progress_check w scenario start_time i s = (r, s') /\
    trace s' = trace s /\ stats_list s' = stats_list s /\
    error_counter s' = error_counter s /\
    ((r = Ok tt /\ requests scenario / 10 <> 0 /\
      progress_percents (stdout s')
      = progress_percents (stdout s) ++ mark (requests scenario) i) \/
     (r = Raise ZeroDivisionError /\ requests scenario / 10 = 0)).
Proof.
  unfold progress_check, bind at 1, lift, py_mod, mark.
  destruct (requests scenario / 10 =? 0) eqn:E.
  - apply Z.eqb_eq in E. eexists. eexists. split; [reflexivity | ].
    repeat split. right. split; [reflexivity | exact E].
  - apply Z.eqb_neq in E.
    destruct ((i + 1) mod (requests scenario / 10) =? 0).
    + eexists. eexists. split; [reflexivity | ]. cbn.
      repeat split. left. split; [reflexivity | ]. split; [exact E | ].
      rewrite progress_percents_app. reflexivity.
    + eexists. eexists. split; [reflexivity | ]. cbn.
      repeat split. left. split; [reflexivity | ]. split; [exact E | ].
      now rewrite app_nil_r.
Qed.

Lemma run_batches_spec (w : World) (scenario : Config) (start_time : Q)
      (bs : list (list Z)) :
  forall s : State,
  exists r s' done tail,
    run_batches w scenario start_time bs s = (r, s') /\
    progressed w scenario done tail s s' /\
    batches_outcome w scenario bs r done tail s s'.
Proof.
  induction bs as [ | b bs IH]; intros s.
  - exists (Ok tt), s, [], []. split; [reflexivity | ].
    split; [now apply progressed_quiet | ].
    cbn. repeat split. now rewrite app_nil_r.
  - cbn [run_batches].
    destruct (gather_spec w scenario b s)
      as (r1 & s1 & E1 & O1 & [[-> G] | (-> & NS & G)]).
    + apply gather_completed_progressed in G. destruct G as (ps & I & G).
      destruct (progress_check_spec w scenario start_time (last b 0) s1)
        as (r2 & s2 & E2 & T2 & L2 & C2 & [(-> & NZ & P2) | (-> & Z2)]).
      * destruct (IH s2) as (r3 & s3 & done & tail & E3 & G3 & Out).
        exists r3, s3, (ps :: done), tail. split.
        { unfold bind. rewrite E1, E2. exact E3. }
        split.
        { change (ps :: done) with ([ps] ++ done).
          eapply progressed_trans; [ | exact G3].
          rewrite <- (app_nil_r [ps]).
          eapply progressed_trans; [exact G | ].
          now apply progressed_quiet. }
        destruct r3 as [[] | []]; cbn [batches_outcome] in *.
        -- destruct Out as (B & Tl & P3).
           split; [now rewrite batches_of_cons, I, B | ]. split; [exact Tl | ].
           rewrite P3, P2, O1. cbn [marks flat_map].
           rewrite <- app_assoc. reflexivity.
        -- destruct Out as (NS & b' & rest & ps' & B & Tl & Ln & Sh).
           split; [exact NS | ]. exists b', rest, ps'.
           split; [now rewrite batches_of_cons, I, B | ].
           repeat split; assumption.
        -- destruct Out as (Z3 & Tl & rest & B).
           split; [exact Z3 | ]. split; [exact Tl | ].
           exists rest. now rewrite batches_of_cons, I, B.
      * exists (Raise ZeroDivisionError), s2, [ps], []. split.
        { unfold bind. rewrite E1, E2. reflexivity. }
        split.
        { rewrite <- (app_nil_r [ps]).
          eapply progressed_trans; [exact G | ].
          now apply progressed_quiet. }
        cbn [batches_outcome]. split; [exact Z2 | ]. split; [reflexivity | ].
        exists bs. now rewrite batches_of_cons, I.
    + apply (gather_aborted_progressed w scenario) in G.
      destruct G as (ps & Ln & Sh & G).
      exists (Raise ValueError), s1, [], (EvGather b :: map start_event ps).
      split.
      { unfold bind. rewrite E1. reflexivity. }
      split; [exact G | ].
      cbn [batches_outcome]. split; [exact NS | ].
      exists b, bs, ps. repeat split; assumption.
Qed.

(** ** ScenarioRunner *)

Lemma run_scenario_eq (w : World) (scenario : Config) (s : State) :
  run_scenario w scenario s =
  let start_time := wall_clock w (clock_calls s) in
  let '(r, s1) :=
    (tasks <- batch_loop w scenario start_time
                         (py_range (requests scenario)) [] ;;
     after_loop w scenario start_time tasks) (loop_entry w scenario s) in
  (r, close_session s1).
Proof.
  unfold run_scenario, with_session, session_body, clear_server_state.
  unfold loop_entry, after_loop, close_session.
  destruct (reset_reply w); reflexivity.
Qed.

(** The summary printed after the last batch. *)
Lemma summary_spec (w : World) (scenario : Config) (start_time : Q) (s : State) :
  exists r s',
    after_loop w scenario start_time [] s = (r, s') /\
    trace s' = trace s /\ stats_list s' = stats_list s /\
    error_counter s' = error_counter s /\
    progress_percents (stdout s') = progress_percents (stdout s) /\
    (r = Ok (stats_list s') \/ r = Raise ZeroDivisionError).
Proof.
  unfold after_loop, bind, ret, time_time, lift, py_truediv, print.
  cbn beta iota.
  destruct (Qeq_bool _ 0).
  - eexists. eexists. split; [reflexivity | ]. cbn. repeat split. now right.
  - cbn beta iota. cbn [error_counter stats_list].
    destruct (0 <? error_counter s);
      eexists; eexists; (split; [reflexivity | ]); cbn;
      rewrite ?progress_percents_app; cbn; rewrite ?app_nil_r;
      repeat split; now left.
Qed.

Lemma after_loop_cons (w : World) (scenario : Config) (start_time : Q)
      (i : Z) (tasks : list Z) (s : State) :
  after_loop w scenario start_time (i :: tasks) s =
  (gather w scenario (i :: tasks) ;;; after_loop w scenario start_time []) s.
Proof.
  unfold after_loop. apply bind_ext. intros [] s1. reflexivity.
Qed.

Lemma after_loop_spec (w : World) (scenario : Config) (start_time : Q)
      (tasks : list Z) (s : State) :
  exists r s' done tail,
    after_loop w scenario start_time tasks s = (r, s') /\
    progressed w scenario done tail s s' /\
    progress_percents (stdout s') = progress_percents (stdout s) /\
    ((tail = [] /\ batches_of done = leftover_batch tasks /\
      (r = Ok (stats_list s') \/ r = Raise ZeroDivisionError)) \/
     (r = Raise ValueError /\ ~ keys_safe scenario /\ done = [] /\
      exists ps, tail = EvGather tasks :: map start_event ps /\
                 (List.length ps < List.length tasks)%nat /\
                 Forall (dispatch_shape w scenario) ps)).
Proof.
  destruct tasks as [ | i tasks].
  - destruct (summary_spec w scenario start_time s)
      as (r & s' & E & T & L & C & P & R).
    exists r, s', [], []. split; [exact E | ].
    split; [now apply progressed_quiet | ]. split; [exact P | ].
    left. repeat split. exact R.
  - rewrite after_loop_cons.
    destruct (gather_spec w scenario (i :: tasks) s)
      as (r1 & s1 & E1 & O1 & [[-> G] | (-> & NS & G)]).
    + apply gather_completed_progressed in G. destruct G as (ps & I & G).
      destruct (summary_spec w scenario start_time s1)
        as (r & s' & E & T & L & C & P & R).
      exists r, s', [ps], []. split.
      { unfold bind. rewrite E1. exact E. }
      split.
      { rewrite <- (app_nil_r [ps]).
        eapply progressed_trans; [exact G | ]. now apply progressed_quiet. }
      split; [congruence | ]. left.
      split; [reflexivity | ]. split; [ | exact R].
      rewrite batches_of_cons, I. reflexivity.
    + apply (gather_aborted_progressed w scenario) in G.
      destruct G as (ps & Ln & Sh & G).
      exists (Raise ValueError), s1, [], (EvGather (i :: tasks) :: map start_event ps).
      split.
      { unfold bind. rewrite E1. reflexivity. }
      split; [exact G | ]. split; [congruence | ]. right.
      repeat split; [exact NS | ]. exists ps. repeat split; assumption.
Qed.

Lemma loop_entry_percents (w : World) (scenario : Config) (s : State) :
  progress_percents (stdout (loop_entry w scenario s))
  = progress_percents (stdout s).
Proof.
  unfold loop_entry. cbn [stdout]. rewrite !progress_percents_app.
  destruct (reset_reply w); cbn; now rewrite !app_nil_r.
Qed.

Lemma all_batches_eq (scenario : Config) (bs : list (list Z)) (left : list Z) :
  plan (users scenario) (py_range (requests scenario)) [] = (bs, left) ->
  all_batches scenario = bs ++ leftover_batch left.
Proof. intros P. unfold all_batches. rewrite P. reflexivity. Qed.

(** The collectors and the trace at the end of [run_scenario], whatever
    the way it ends. *)
Lemma run_scenario_spec (w : World) (scenario : Config) (s : State) :
  exists r s' done tail,
    run_scenario w scenario s = (r, s') /\
    trace s' = trace s
               ++ EvSessionOpen (users scenario + 100) :: EvSleep 2
                  :: blocks_trace w done ++ tail ++ [EvSessionClose] /\
    Forall (Forall (dispatch_shape w scenario)) done /\
    error_counter s' = failures w (List.concat (batches_of done)) /\
    Z.of_nat (List.length (stats_list s'))
    = Z.of_nat (List.length (List.concat (batches_of done)))
      - failures w (List.concat (batches_of done)) /\
    Forall (fun r => exists ps p, In ps done /\ In p ps /\
                                  record_of w scenario p r) (stats_list s') /\
    run_outcome w scenario r done tail s s'.
Proof.
  rewrite run_scenario_eq. cbv zeta.
  pose proof (loop_entry_percents w scenario s) as P0.
  assert (trace (loop_entry w scenario s)
          = trace s ++ [EvSessionOpen (users scenario + 100); EvSleep 2]) as T0
      by (cbn; now rewrite <- app_assoc).
  assert (stats_list (loop_entry w scenario s) = []) as L0 by reflexivity.
  assert (error_counter (loop_entry w scenario s) = 0) as C0 by reflexivity.
  set (s1 := loop_entry w scenario s) in *. clearbody s1.
  set (st := wall_clock w (clock_calls s)). clearbody st.
  unfold bind at 1. rewrite batch_loop_plan.
  destruct (plan (users scenario) (py_range (requests scenario)) [])
    as [bs left] eqn:Pl.
  pose proof (all_batches_eq _ _ _ Pl) as P. cbn [fst snd].
  destruct (run_batches_spec w scenario st bs s1)
    as (r1 & s2 & done & tail & E & G & Out).
  unfold bind at 1. rewrite E.
  assert (forall d tl s3 (r : result (list RequestRecord)),
             progressed w scenario d tl s1 s3 ->
             run_outcome w scenario r d tl s (close_session s3) ->
             exists r' s' done tail,
               (r, close_session s3) = (r', s') /\
               trace s' = trace s
                 ++ EvSessionOpen (users scenario + 100) :: EvSleep 2
                    :: blocks_trace w done ++ tail ++ [EvSessionClose] /\
               Forall (Forall (dispatch_shape w scenario)) done /\
               error_counter s' = failures w (List.concat (batches_of done)) /\
               Z.of_nat (List.length (stats_list s'))
               = Z.of_nat (List.length (List.concat (batches_of done)))
                 - failures w (List.concat (batches_of done)) /\
               Forall (fun r => exists ps p, In ps done /\ In p ps /\
                                  record_of w scenario p r) (stats_list s') /\
               run_outcome w scenario r' done tail s s') as Pack.
  { intros d tl s3 r (F & T & C & recs & L & N & R) O.
    exists r, (close_session s3), d, tl. split; [reflexivity | ].
    split.
    { cbn [close_session emit snd trace]. rewrite T, T0.
      rewrite <- !app_assoc. reflexivity. }
    split; [exact F | ].
    split; [cbn [close_session emit snd error_counter]; lia | ].
    split; [cbn [close_session emit snd stats_list]; now rewrite L, L0 | ].
    split; [cbn [close_session emit snd stats_list]; now rewrite L, L0 | ].
    exact O. }
  destruct r1 as [[] | e].
  - cbn [batches_outcome] in Out. destruct Out as (B & -> & P1).
    cbn [ret].
    destruct (after_loop_spec w scenario st left s2)
      as (r & s3 & done' & tail' & E' & G' & P2 & Out').
    rewrite E'.
    apply (Pack (done ++ done') tail' s3 r);
      [eapply progressed_trans; eassumption | ].
    unfold run_outcome. cbn [close_session emit snd stdout stats_list].
    destruct Out' as [(-> & B' & R') | (-> & NS & -> & ps & -> & Ln & Sh)].
    + left. split; [reflexivity | ].
      split; [rewrite batches_of_app, B, B', P; reflexivity | ].
      split; [exact R' | ]. rewrite P2, P1, P0, Pl. reflexivity.
    + right. right. split; [reflexivity | ]. split; [exact NS | ].
      exists left, [], ps. rewrite app_nil_r, B, P.
      destruct left as [ | i left]; [cbn in Ln; lia | ].
      repeat split; assumption.
  - apply (Pack done tail s2 (Raise e)); [exact G | ].
    unfold run_outcome. right.
    destruct e; cbn [batches_outcome] in Out.
    + right. destruct Out as (NS & b & rest & ps & B & Tl & Ln & Sh).
      split; [reflexivity | ]. split; [exact NS | ].
      exists b, (rest ++ leftover_batch left), ps.
      rewrite P, B, <- app_assoc. repeat split; assumption.
    + left. destruct Out as (Z0 & Tl & rest & B).
      split; [reflexivity | ]. split; [exact Z0 | ]. split; [exact Tl | ].
      exists (rest ++ leftover_batch left).
      rewrite P, B, <- app_assoc. reflexivity.
Qed.

(** ** Reading the trace *)

Lemma start_ids_app (l1 l2 : list Event) :
  start_ids (l1 ++ l2) = start_ids l1 ++ start_ids l2.
Proof. apply flat_map_app. Qed.

Lemma resolve_ids_app (l1 l2 : list Event) :
  resolve_ids (l1 ++ l2) = resolve_ids l1 ++ resolve_ids l2.
Proof. apply flat_map_app. Qed.

Lemma gathers_app (l1 l2 : list Event) :
  gathers (l1 ++ l2) = gathers l1 ++ gathers l2.
Proof. apply flat_map_app. Qed.

Lemma start_ids_cons (e : Event) (l : list Event) :
  start_ids (e :: l)
  = match e with EvStart i _ => [i] | _ => [] end ++ start_ids l.
Proof. reflexivity. Qed.

Lemma resolve_ids_cons (e : Event) (l : list Event) :
  resolve_ids (e :: l)
  = match e with EvResolve i _ => [i] | _ => [] end ++ resolve_ids l.
Proof. reflexivity. Qed.

Lemma gathers_cons (e : Event) (l : list Event) :
  gathers (e :: l)
  = match e with EvGather b => [b] | _ => [] end ++ gathers l.
Proof. reflexivity. Qed.

Lemma start_ids_starts (ps : list Pending) :
  start_ids (map start_event ps) = map p_index ps.
Proof.
  induction ps as [ | p ps IH]; [reflexivity | ]. cbn [map].
  rewrite ?start_ids_cons, ?resolve_ids_cons, ?gathers_cons, IH. reflexivity.
Qed.

Lemma resolve_ids_starts (ps : list Pending) :
  resolve_ids (map start_event ps) = [].
Proof.
  induction ps as [ | p ps IH]; [reflexivity | ]. cbn [map].
  rewrite ?start_ids_cons, ?resolve_ids_cons, ?gathers_cons, IH. reflexivity.
Qed.

Lemma gathers_starts (ps : list Pending) : gathers (map start_event ps) = [].
Proof.
  induction ps as [ | p ps IH]; [reflexivity | ]. cbn [map].
  rewrite ?start_ids_cons, ?resolve_ids_cons, ?gathers_cons, IH. reflexivity.
Qed.

Lemma start_ids_resolves (w : World) (ps : list Pending) :
  start_ids (map (resolve_event w) ps) = [].
Proof.
  induction ps as [ | p ps IH]; [reflexivity | ]. cbn [map].
  rewrite ?start_ids_cons, ?resolve_ids_cons, ?gathers_cons, IH. reflexivity.
Qed.

Lemma resolve_ids_resolves (w : World) (ps : list Pending) :
  resolve_ids (map (resolve_event w) ps) = map p_index ps.
Proof.
  induction ps as [ | p ps IH]; [reflexivity | ]. cbn [map].
  rewrite ?start_ids_cons, ?resolve_ids_cons, ?gathers_cons, IH. reflexivity.
Qed.

Lemma gathers_resolves (w : World) (ps : list Pending) :
  gathers (map (resolve_event w) ps) = [].
Proof.
  induction ps as [ | p ps IH]; [reflexivity | ]. cbn [map].
  rewrite ?start_ids_cons, ?resolve_ids_cons, ?gathers_cons, IH. reflexivity.
Qed.

Lemma start_ids_batch (w : World) (tasks : list Z) (ps : list Pending) :
  start_ids (batch_events w tasks ps) = map p_index ps.
Proof.
  unfold batch_events. change (EvGather tasks :: ?l) with ([EvGather tasks] ++ l).
  rewrite !start_ids_app, start_ids_starts, start_ids_resolves.
  cbn. now rewrite app_nil_r.
Qed.

Lemma resolve_ids_batch (w : World) (tasks : list Z) (ps : list Pending) :
  resolve_ids (batch_events w tasks ps) = map p_index (completion_order w ps).
Proof.
  unfold batch_events. change (EvGather tasks :: ?l) with ([EvGather tasks] ++ l).
  rewrite !resolve_ids_app, resolve_ids_starts, resolve_ids_resolves.
  cbn. now rewrite app_nil_r.
Qed.

Lemma gathers_batch (w : World) (tasks : list Z) (ps : list Pending) :
  gathers (batch_events w tasks ps) = [tasks].
Proof.
  unfold batch_events. change (EvGather tasks :: ?l) with ([EvGather tasks] ++ l).
  rewrite !gathers_app, gathers_starts, gathers_resolves. reflexivity.
Qed.

Lemma start_ids_blocks (w : World) (done : list (list Pending)) :
  start_ids (blocks_trace w done) = List.concat (batches_of done).
Proof.
  induction done as [ | ps done IH]; [reflexivity | ].
  change (blocks_trace w (ps :: done))
    with (batch_events w (map p_index ps) ps ++ blocks_trace w done).
  rewrite start_ids_app, start_ids_batch, IH. reflexivity.
Qed.

Lemma gathers_blocks (w : World) (done : list (list Pending)) :
  gathers (blocks_trace w done) = batches_of done.
Proof.
  induction done as [ | ps done IH]; [reflexivity | ].
  change (blocks_trace w (ps :: done))
    with (batch_events w (map p_index ps) ps ++ blocks_trace w done).
  rewrite gathers_app, gathers_batch, IH. reflexivity.
Qed.

Lemma new_events_app (s s' : State) (evs : list Event) :
  trace s' = trace s ++ evs -> new_events s s' = evs.
Proof.
  intros E. unfold new_events.
  rewrite E, skipn_app, skipn_all, Nat.sub_diag. reflexivity.
Qed.

(** *** The batches cover [range(requests)] *)

Lemma concat_all_batches (scenario : Config) :
  List.concat (all_batches scenario) = py_range (requests scenario).
Proof.
  unfold all_batches.
  pose proof (plan_concat (users scenario) (py_range (requests scenario)) [])
    as C.
  destruct (plan _ _ _) as [bs left]. cbn [fst snd app] in C.
  rewrite concat_app, <- C. f_equal.
  destruct left; cbn; now rewrite ?app_nil_r.
Qed.

Lemma length_range_from (len : nat) :
  forall start, List.length (range_from start len) = len.
Proof. induction len as [ | k IH]; intros start; cbn; [ | rewrite IH]; reflexivity. Qed.

Lemma in_range_from (len : nat) :
  forall start i,
    In i (range_from start len) <-> start <= i < start + Z.of_nat len.
Proof.
  induction len as [ | k IH]; intros start i; cbn [range_from In].
  - cbn. lia.
  - rewrite IH. lia.
Qed.

Lemma NoDup_range_from (len : nat) : forall start, NoDup (range_from start len).
Proof.
  induction len as [ | k IH]; intros start; cbn [range_from]; constructor.
  - rewrite in_range_from. lia.
  - apply IH.
Qed.

Lemma length_py_range (n : Z) : List.length (py_range n) = Z.to_nat n.
Proof. apply length_range_from. Qed.

Lemma NoDup_py_range (n : Z) : NoDup (py_range n).
Proof. apply NoDup_range_from. Qed.

Lemma in_py_range (n i : Z) : In i (py_range n) <-> 0 <= i < n.
Proof. unfold py_range. rewrite in_range_from. lia. Qed.

(** *** Runs in which every dispatch is attempted *)

Lemma length_concat_app {A} (l1 l2 : list (list A)) :
  List.length (List.concat (l1 ++ l2))
  = (List.length (List.concat l1) + List.length (List.concat l2))%nat.
Proof. now rewrite concat_app, length_app. Qed.

Lemma full_run (w : World) (scenario : Config) (s : State) :
  attempted s (snd (run_scenario w scenario s)) = requests scenario ->
  exists r s' done rest,
    run_scenario w scenario s = (r, s') /\
    new_events s s'
    = EvSessionOpen (users scenario + 100) :: EvSleep 2
      :: blocks_trace w done ++ [EvSessionClose] /\
    all_batches scenario = batches_of done ++ rest /\
    List.concat rest = [] /\
    List.concat (batches_of done) = py_range (requests scenario) /\
    Forall (Forall (dispatch_shape w scenario)) done /\
    error_counter s' = failures w (py_range (requests scenario)) /\
    Z.of_nat (List.length (stats_list s'))
    = requests scenario - failures w (py_range (requests scenario)) /\
    Forall (fun r => exists ps p, In ps done /\ In p ps /\
                                  record_of w scenario p r) (stats_list s').
Proof.
  destruct (run_scenario_spec w scenario s)
    as (r & s' & done & tail & E & T & F & C & N & R & Out).
  rewrite E. cbn [snd]. unfold attempted.
  rewrite (new_events_app _ _ _ T).
  rewrite !start_ids_cons. cbn [app].
  rewrite !start_ids_app, start_ids_blocks. cbn [start_ids flat_map].
  rewrite app_nil_r, length_app. intros Att.
  pose proof (concat_all_batches scenario) as CA.
  pose proof (length_py_range (requests scenario)) as LR.
  assert (tail = [] /\ exists rest,
             all_batches scenario = batches_of done ++ rest /\
             List.concat rest = []) as (-> & rest & AB & CR).
  { destruct Out as [(-> & B & _) | [(_ & _ & -> & rest & B) |
                     (_ & _ & b & rest & ps & B & -> & Ln & _)]].
    - split; [reflexivity | ]. exists []. now rewrite app_nil_r.
    - split; [reflexivity | ]. exists rest. split; [exact B | ].
      rewrite B, concat_app in CA. rewrite <- CA, length_app in LR.
      cbn [start_ids flat_map List.length] in Att.
      apply length_zero_iff_nil. lia.
    - exfalso. rewrite B, concat_app in CA. rewrite <- CA, length_app in LR.
      cbn [List.concat] in LR. rewrite length_app in LR.
      rewrite start_ids_cons, start_ids_starts in Att.
      cbn [app] in Att. rewrite length_map in Att. lia. }
  assert (List.concat (batches_of done) = py_range (requests scenario)) as CD.
  { rewrite AB, concat_app, CR, app_nil_r in CA. exact CA. }
  exists r, s', done, rest. split; [reflexivity | ].
  split; [apply new_events_app; exact T | ].
  split; [exact AB | ]. split; [exact CR | ]. split; [exact CD | ].
  split; [exact F | ]. rewrite CD in C, N.
  split; [exact C | ]. split; [ | exact R].
  rewrite N, LR. cbn [start_ids flat_map List.length] in Att.
  rewrite CD, LR in Att. lia.
Qed.

(** ** MetricsCollector: records and errors add up *)

(** C1: in a run of a scenario in which all [requests] dispatches are
    attempted, [F] of them ending in a transport-level exception, exactly
    [requests - F] records are in the scenario's record list and
    [ErrorCounter] ends at [F]; every record carries the status of a
    response that was received. For one dispatch: a received response,
    whatever its status (4xx and 5xx included), appends exactly one record
    with that status and leaves [ErrorCounter] alone; a transport
    exception appends nothing and adds one to [ErrorCounter]. *)
Theorem dispatch_accounting (w : World) (scenario : Config) (s : State) :
  let s' := snd (run_scenario w scenario s) in
  attempted s s' = requests scenario ->
  let F := failures w (py_range (requests scenario)) in
  (Z.of_nat (List.length (stats_list s')) = requests scenario - F /\
   error_counter s' = F /\
   Forall (fun r => exists i, In i (py_range (requests scenario)) /\
                              net_reply w i = Response (rec_status r))
          (stats_list s')) /\
  (forall (p : Pending) (s0 : State),
      match net_reply w (p_index p) with
      | Response status =>
          exists s1 r,
            worker_finish w scenario p s0 = (Ok tt, s1) /\
            stats_list s1 = stats_list s0 ++ [r] /\
            rec_status r = status /\
            error_counter s1 = error_counter s0
      | TransportError =>
          exists s1,
            worker_finish w scenario p s0 = (Ok tt, s1) /\
            stats_list s1 = stats_list s0 /\
            error_counter s1 = error_counter s0 + 1
      end).
Proof.
  intros s' Att F. split.
  - destruct (full_run w scenario s Att)
      as (r & s1 & done & rest & E & _ & _ & _ & CD & _ & C & N & R).
    subst s'. rewrite E. cbn [snd]. split; [exact N | ]. split; [exact C | ].
    eapply Forall_impl; [ | exact R].
    intros rec (ps & p & I & J & H & _). exists (p_index p).
    split; [ | exact H]. rewrite <- CD.
    apply in_concat. exists (map p_index ps).
    split; [apply in_map; exact I | apply in_map; exact J].
  - intros p s0.
    destruct (worker_finish_eq w scenario p s0) as (s1 & E & _ & _ & _ & H).
    destruct (net_reply w (p_index p)) as [status | ].
    + destruct H as (C & r & L & S & _). exists s1, r. repeat split; assumption.
    + destruct H as (C & L). exists s1. repeat split; assumption.
Qed.

Lemma dispatch_accounting_witness :
  attempted initial_state
            (snd (run_scenario flaky_world Small_Read_Only initial_state))
  = requests Small_Read_Only /\
  Z.of_nat (List.length
              (stats_list
                 (snd (run_scenario flaky_world Small_Read_Only initial_state))))
  = 10 - 2 /\
  error_counter (snd (run_scenario flaky_world Small_Read_Only initial_state))
  = 2.
Proof.
  split; [vm_compute; reflexivity | ].
  pose proof (proj1 (dispatch_accounting flaky_world Small_Read_Only
                                         initial_state eq_refl)) as H.
  split; [exact (proj1 H) | exact (proj1 (proj2 H))].
Defined.

(** ** The join between batches *)

Lemma split_at_event {A} (l1 l2 pre post : list A) (e : A) :
  l1 ++ l2 = pre ++ e :: post ->
  (exists mid, l1 = pre ++ e :: mid /\ post = mid ++ l2) \/
  (exists mid, pre = l1 ++ mid /\ l2 = mid ++ e :: post).
Proof.
  intros H. apply app_eq_app in H.
  destruct H as [l [[H1 H2] | [H1 H2]]].
  - destruct l as [ | a l].
    + right. exists []. rewrite app_nil_r in *. cbn in H2. subst.
      split; reflexivity.
    + left. cbn in H2. injection H2 as -> ->. exists l. split; congruence.
  - right. exists l. split; assumption.
Qed.

Lemma NoDup_app_disjoint {A} (l1 l2 : list A) (a : A) :
  NoDup (l1 ++ l2) -> In a l1 -> In a l2 -> False.
Proof.
  induction l1 as [ | x l1 IH]; cbn; intros N I1 I2; [contradiction | ].
  apply NoDup_cons_iff in N. destruct N as [Nx N].
  destruct I1 as [-> | I1].
  - apply Nx, in_or_app. now right.
  - now apply IH.
Qed.

Lemma in_nth_batch (bs : list (list Z)) (k : nat) (b : list Z) (i : Z) :
  nth_error bs k = Some b -> In i b -> In i (List.concat bs).
Proof.
  intros N I. apply in_concat. exists b. split; [ | exact I].
  eapply nth_error_In. exact N.
Qed.

Lemma blocks_trace_cons (w : World) (ps : list Pending)
      (done : list (list Pending)) :
  blocks_trace w (ps :: done)
  = batch_events w (map p_index ps) ps ++ blocks_trace w done.
Proof. reflexivity. Qed.

Lemma in_resolve_ids_batch (w : World) (ps : list Pending) (i : Z) :
  In i (map p_index ps) ->
  In i (resolve_ids (batch_events w (map p_index ps) ps)).
Proof.
  intros I. rewrite resolve_ids_batch.
  eapply Permutation_in; [ | exact I].
  apply Permutation_map, Permutation_sym, completion_order_perm.
Qed.

(** When a dispatch of batch [k+1] starts, every dispatch of batch [k] has
    resolved. *)
Lemma barrier_blocks (w : World) (done : list (list Pending)) :
  NoDup (List.concat (batches_of done)) ->
  forall (k : nat) (bk bk1 : list Z) (i j : Z) (pre post : list Event)
         (req : Request),
    nth_error (batches_of done) k = Some bk ->
    nth_error (batches_of done) (S k) = Some bk1 ->
    In i bk -> In j bk1 ->
    blocks_trace w done = pre ++ EvStart j req :: post ->
    In i (resolve_ids pre).
Proof.
  induction done as [ | ps done IH]; intros ND k bk bk1 i j pre post req Nk Nk1 Ii Ij E.
  - destruct k; discriminate.
  - rewrite batches_of_cons in *. cbn [List.concat] in ND.
    rewrite blocks_trace_cons in E.
    assert (In j (List.concat (batches_of done))) as Jlater.
    { cbn [nth_error] in Nk1. destruct k as [ | k].
      - eapply in_nth_batch; eassumption.
      - eapply in_nth_batch; eassumption. }
    apply split_at_event in E.
    destruct E as [(mid & E1 & _) | (mid & -> & E2)].
    + exfalso. apply (NoDup_app_disjoint _ _ j ND); [ | exact Jlater].
      rewrite <- (start_ids_batch w (map p_index ps) ps), E1, start_ids_app.
      apply in_or_app. right. rewrite start_ids_cons. now left.
    + rewrite resolve_ids_app. apply in_or_app.
      destruct k as [ | k].
      * left. cbn [nth_error] in Nk. injection Nk as <-.
        now apply in_resolve_ids_batch.
      * right. cbn [nth_error] in Nk, Nk1.
        eapply IH; try eassumption.
        eapply NoDup_app_remove_l. exact ND.
Qed.

(** Inside a batch, every dispatch is on the wire before any of them
    resolves. *)
Lemma concurrent_blocks (w : World) (done : list (list Pending)) :
  NoDup (List.concat (batches_of done)) ->
  forall (b : list Z) (i j : Z) (pre post : list Event) (rep : Reply),
    In b (batches_of done) -> In i b -> In j b ->
    blocks_trace w done = pre ++ EvResolve i rep :: post ->
    In j (start_ids pre).
Proof.
  induction done as [ | ps done IH]; intros ND b i j pre post rep Ib Ii Ij E.
  - contradiction.
  - rewrite batches_of_cons in *. cbn [List.concat] in ND.
    rewrite blocks_trace_cons in E.
    apply split_at_event in E.
    destruct Ib as [<- | Ib].
    + destruct E as [(mid & E1 & _) | (mid & -> & E2)].
      * unfold batch_events in E1.
        change (EvGather ?t :: ?a ++ ?l) with ((EvGather t :: a) ++ l) in E1.
        apply split_at_event in E1.
        destruct E1 as [(mid' & E1 & _) | (mid' & -> & _)].
        -- exfalso.
           assert (In i (resolve_ids (EvGather (map p_index ps)
                                        :: map start_event ps))) as X.
           { rewrite E1, resolve_ids_app. apply in_or_app. right.
             rewrite resolve_ids_cons. now left. }
           rewrite resolve_ids_cons, resolve_ids_starts in X. exact X.
        -- rewrite start_ids_app. apply in_or_app. left.
           rewrite start_ids_cons, start_ids_starts. exact Ij.
      * rewrite start_ids_app, start_ids_batch. apply in_or_app. now left.
    + assert (In i (List.concat (batches_of done))) as Ilater
          by (apply in_concat; exists b; split; assumption).
      destruct E as [(mid & E1 & _) | (mid & -> & E2)].
      * exfalso. apply (NoDup_app_disjoint _ _ i ND); [ | exact Ilater].
        assert (In i (resolve_ids (batch_events w (map p_index ps) ps))) as X.
        { rewrite E1, resolve_ids_app. apply in_or_app. right.
          rewrite resolve_ids_cons. now left. }
        rewrite resolve_ids_batch in X.
        eapply Permutation_in; [ | exact X].
        apply Permutation_map, completion_order_perm.
      * rewrite start_ids_app. apply in_or_app. right.
        exact (IH (NoDup_app_remove_l _ _ ND) b i j mid post rep Ib Ii Ij E2).
Qed.

Lemma inside_session (limit : Z) (blocks pre post : list Event) (e : Event) :
  e <> EvSessionOpen limit -> e <> EvSleep 2 -> e <> EvSessionClose ->
  EvSessionOpen limit :: EvSleep 2 :: blocks ++ [EvSessionClose]
  = pre ++ e :: post ->
  exists pre' post',
    pre = EvSessionOpen limit :: EvSleep 2 :: pre' /\
    blocks = pre' ++ e :: post'.
Proof.
  intros N1 N2 N3 H.
  destruct pre as [ | a pre]; cbn in H; injection H as H1 H; [congruence | ].
  destruct pre as [ | a' pre]; cbn in H; injection H as H2 H; [congruence | ].
  subst a a'. apply split_at_event in H.
  destruct H as [(mid & H & _) | (mid & _ & H)].
  - exists pre, mid. split; [reflexivity | exact H].
  - exfalso. destruct mid as [ | a mid]; cbn in H; injection H as H3 H.
    + congruence.
    + now apply app_cons_not_nil in H.
Qed.

(** *** Sizes of the batches *)

Lemma length_concat_uniform (usrs : Z) (bs : list (list Z)) :
  Forall (fun b => Z.of_nat (List.length b) = usrs) bs ->
  Z.of_nat (List.length (List.concat bs)) = Z.of_nat (List.length bs) * usrs.
Proof.
  induction 1 as [ | b bs Hb _ IH]; cbn [List.concat List.length]; [lia | ].
  rewrite length_app. lia.
Qed.

Lemma all_batches_shape (scenario : Config) :
  0 < users scenario ->
  exists bs left,
    all_batches scenario = bs ++ leftover_batch left /\
    Forall (fun b => Z.of_nat (List.length b) = users scenario) bs /\
    Z.of_nat (List.length left) < users scenario /\
    Z.of_nat (Z.to_nat (requests scenario))
    = Z.of_nat (List.length bs) * users scenario + Z.of_nat (List.length left).
Proof.
  intros Hu.
  destruct (plan (users scenario) (py_range (requests scenario)) [])
    as [bs left] eqn:P.
  pose proof (plan_sizes (users scenario) (py_range (requests scenario)) Hu [])
    as S.
  pose proof (plan_concat (users scenario) (py_range (requests scenario)) [])
    as C.
  rewrite P in S, C. cbn [fst snd app List.length] in S, C.
  destruct S as [F L]; [lia | ].
  exists bs, left. split; [now apply all_batches_eq | ].
  split; [exact F | ]. split; [exact L | ].
  rewrite <- length_py_range, <- C, length_app, Nat2Z.inj_add.
  now rewrite (length_concat_uniform _ _ F).
Qed.

Lemma no_empty_tail (usrs : Z) (bs : list (list Z)) (left : list Z)
      (front rest : list (list Z)) :
  0 < usrs ->
  Forall (fun b => Z.of_nat (List.length b) = usrs) bs ->
  bs ++ leftover_batch left = front ++ rest ->
  List.concat rest = [] -> rest = [].
Proof.
  intros Hu F E C. destruct rest as [ | b rest]; [reflexivity | exfalso].
  cbn [List.concat] in C. apply app_eq_nil in C. destruct C as [-> _].
  assert (In [] (bs ++ leftover_batch left)) as I
      by (rewrite E; apply in_or_app; right; now left).
  apply in_app_or in I. destruct I as [I | I].
  - rewrite Forall_forall in F. specialize (F _ I). cbn in F. lia.
  - destruct left; cbn in I; [contradiction | ].
    destruct I as [I | []]. discriminate.
Qed.

Lemma in_resolve_ids_blocks (w : World) (done : list (list Pending)) (i : Z) :
  In i (List.concat (batches_of done)) ->
  In i (resolve_ids (blocks_trace w done)).
Proof.
  induction done as [ | ps done IH]; [contradiction | ].
  rewrite batches_of_cons, blocks_trace_cons, resolve_ids_app.
  cbn [List.concat]. intros I. apply in_or_app.
  apply in_app_or in I. destruct I as [I | I].
  - left. now apply in_resolve_ids_batch.
  - right. now apply IH.
Qed.

(** The batcher in the runs that are not cut short: with [users > 0], when
    all [requests] dispatches are attempted, the batches handed to [gather]
    are consecutive pieces of
    [range(requests)] and every dispatch is issued exactly once, in order.
    If [requests] is a multiple of [users] there are [requests / users]
    batches of exactly [users] dispatches each; otherwise the
    [requests / users] full batches are followed by a last batch of
    [requests mod users] dispatches, which all resolve and whose outcomes
    are counted. Inside a batch all dispatches are on the wire before any
    resolves, and no dispatch of batch [k+1] starts before every dispatch
    of batch [k] has resolved. *)
Lemma batches_partition_requests (w : World) (scenario : Config) (s : State) :
  let s' := snd (run_scenario w scenario s) in
  let tr := new_events s s' in
  let bs := gathers tr in
  0 < users scenario ->
  attempted s s' = requests scenario ->
  (List.concat bs = py_range (requests scenario) /\
   start_ids tr = py_range (requests scenario)) /\
  (requests scenario mod users scenario = 0 ->
   Z.of_nat (List.length bs) = requests scenario / users scenario /\
   Forall (fun b => Z.of_nat (List.length b) = users scenario) bs) /\
  (requests scenario mod users scenario <> 0 ->
   exists full last,
     bs = full ++ [last] /\
     Z.of_nat (List.length full) = requests scenario / users scenario /\
     Forall (fun b => Z.of_nat (List.length b) = users scenario) full /\
     Z.of_nat (List.length last) = requests scenario mod users scenario /\
     (forall i, In i last -> In i (resolve_ids tr)) /\
     Z.of_nat (List.length (stats_list s')) + error_counter s'
     = requests scenario) /\
  (forall b i j pre post rep,
      In b bs -> In i b -> In j b ->
      tr = pre ++ EvResolve i rep :: post -> In j (start_ids pre)) /\
  (forall k bk bk1 i j pre post req,
      nth_error bs k = Some bk -> nth_error bs (S k) = Some bk1 ->
      In i bk -> In j bk1 ->
      tr = pre ++ EvStart j req :: post -> In i (resolve_ids pre)).
Proof.
  intros s' tr bs Hu Att.
  assert (0 <= requests scenario) as Hr by (unfold attempted in Att; lia).
  destruct (full_run w scenario s Att)
    as (r & s1 & done & rest & E & T & AB & CR & CD & _ & C & N & _).
  subst bs tr s'. rewrite E in *. cbn [snd] in *. rewrite T.
  destruct (all_batches_shape scenario Hu) as (full & left & Sh & F & L & Q).
  rewrite Z2Nat.id in Q by exact Hr.
  assert (rest = []) as ->
      by (apply (no_empty_tail (users scenario) full left (batches_of done)
                               rest Hu F); [congruence | exact CR]).
  rewrite app_nil_r in AB.
  assert (gathers (EvSessionOpen (users scenario + 100) :: EvSleep 2
                   :: blocks_trace w done ++ [EvSessionClose])
          = full ++ leftover_batch left) as ->.
  { rewrite !gathers_cons, gathers_app, gathers_blocks. cbn.
    rewrite app_nil_r. congruence. }
  assert (start_ids (EvSessionOpen (users scenario + 100) :: EvSleep 2
                     :: blocks_trace w done ++ [EvSessionClose])
          = py_range (requests scenario)) as St.
  { rewrite !start_ids_cons, start_ids_app, start_ids_blocks. cbn.
    rewrite app_nil_r. exact CD. }
  assert (forall i, In i (py_range (requests scenario)) ->
                    In i (resolve_ids
                            (EvSessionOpen (users scenario + 100) :: EvSleep 2
                             :: blocks_trace w done ++ [EvSessionClose])))
    as Res.
  { intros i I. rewrite !resolve_ids_cons, resolve_ids_app. cbn [app].
    apply in_or_app. left. apply in_resolve_ids_blocks. now rewrite CD. }
  assert (requests scenario / users scenario = Z.of_nat (List.length full) /\
          requests scenario mod users scenario = Z.of_nat (List.length left))
    as [Dv Md].
  { split; [symmetry; eapply Z.div_unique_pos | symmetry; eapply Z.mod_unique_pos];
      try (rewrite Q, Z.mul_comm; reflexivity); lia. }
  pose proof (NoDup_py_range (requests scenario)) as ND. rewrite <- CD in ND.
  split; [ | split; [ | split; [ | split]]].
  - split; [ | exact St]. rewrite <- Sh, AB. exact CD.
  - intros M. rewrite Md in M.
    assert (left = []) as -> by (apply length_zero_iff_nil; lia).
    cbn [leftover_batch]. rewrite app_nil_r. split; [lia | exact F].
  - intros M. rewrite Md in M.
    destruct left as [ | i0 left]; [cbn in M; lia | ].
    exists full, (i0 :: left). cbn [leftover_batch].
    split; [reflexivity | ]. split; [lia | ]. split; [exact F | ].
    split; [lia | ]. split; [ | lia].
    intros i I. apply Res. rewrite <- CD, <- AB, Sh.
    rewrite concat_app. apply in_or_app. right. cbn. now rewrite app_nil_r.
  - intros b i j pre post rep Ib Ii Ij Eq.
    apply inside_session in Eq; try discriminate.
    destruct Eq as (pre' & post' & -> & Eq).
    rewrite !start_ids_cons. cbn [app].
    rewrite <- Sh, AB in Ib.
    exact (concurrent_blocks w done ND b i j pre' post' rep Ib Ii Ij Eq).
  - intros k bk bk1 i j pre post req Nk Nk1 Ii Ij Eq.
    apply inside_session in Eq; try discriminate.
    destruct Eq as (pre' & post' & -> & Eq).
    rewrite !resolve_ids_cons. cbn [app].
    rewrite <- Sh, AB in Nk, Nk1.
    exact (barrier_blocks w done ND k bk bk1 i j pre' post' req Nk Nk1 Ii Ij Eq).
Qed.

Lemma batches_partition_requests_witness :
  (0 < users Uneven_Batches /\
   attempted initial_state
             (snd (run_scenario flaky_world Uneven_Batches initial_state))
   = requests Uneven_Batches) /\
  List.concat
    (gathers (new_events
                initial_state
                (snd (run_scenario flaky_world Uneven_Batches initial_state))))
  = py_range 20.
Proof.
  split; [split; vm_compute; reflexivity | ].
  exact (proj1 (proj1 (batches_partition_requests
                         flaky_world Uneven_Batches initial_state
                         eq_refl eq_refl))).
Defined.

(** *** A run cut short by the progress test *)

(** Every dispatch is attempted when key sampling cannot raise and the
    progress test cannot divide by zero. *)
Lemma attempted_when_safe (w : World) (scenario : Config) (s : State) :
  keys_safe scenario ->
  requests scenario / 10 <> 0 ->
  attempted s (snd (run_scenario w scenario s))
  = Z.of_nat (Z.to_nat (requests scenario)).
Proof.
  intros Safe NZ.
  destruct (run_scenario_spec w scenario s)
    as (r & s' & done & tail & E & T & _ & _ & _ & _ & Out).
  rewrite E. cbn [snd]. unfold attempted. rewrite (new_events_app _ _ _ T).
  destruct Out as [(-> & B & _) | [(_ & Z0 & _) | (_ & NS & _)]];
    [ | contradiction | contradiction].
  rewrite !start_ids_cons, start_ids_app, start_ids_blocks. cbn.
  rewrite app_nil_r, B, concat_all_batches, length_py_range. reflexivity.
Qed.

Lemma keys_safe_Six_By_Three : keys_safe Six_By_Three.
Proof. split; intros H; discriminate H. Qed.

(** C2 fails on a scenario with 6 requests and 3 users: whatever the
    environment does, the first batch [0, 1, 2] is gathered and resolved,
    then the progress test computes [3 % (6 // 10)], which raises
    [ZeroDivisionError]; the second of the [6 / 3 = 2] batches is never
    gathered and dispatches 3, 4 and 5 are never issued. *)
Theorem six_requests_three_users_one_batch (w : World) (s : State) :
  let r := fst (run_scenario w Six_By_Three s) in
  let s' := snd (run_scenario w Six_By_Three s) in
  requests Six_By_Three / users Six_By_Three = 2 /\
  r = Raise ZeroDivisionError /\
  gathers (new_events s s') = [[0; 1; 2]] /\
  start_ids (new_events s s') = [0; 1; 2] /\
  Z.of_nat (List.length (stats_list s')) + error_counter s' = 3.
Proof.
  cbv zeta. split; [reflexivity | ].
  assert (exists s1 ps recs,
             run_scenario w Six_By_Three s
             = (Raise ZeroDivisionError, close_session s1) /\
             map p_index ps = [0; 1; 2] /\
             trace s1 = trace s ++ EvSessionOpen 103 :: EvSleep 2
                                :: batch_events w [0; 1; 2] ps /\
             stats_list s1 = recs /\
             error_counter s1 = failures w [0; 1; 2] /\
             Z.of_nat (List.length recs) = 3 - failures w [0; 1; 2])
    as (s1 & ps & recs & E & I & T & L & C & N).
  { rewrite run_scenario_eq. cbv zeta.
    set (s0 := loop_entry w Six_By_Three s).
    assert (trace s0 = trace s ++ [EvSessionOpen 103; EvSleep 2]) as T0
        by (cbn; now rewrite <- app_assoc).
    assert (stats_list s0 = []) as L0 by reflexivity.
    assert (error_counter s0 = 0) as C0 by reflexivity.
    clearbody s0.
    unfold bind at 1. rewrite batch_loop_plan.
    change (plan (users Six_By_Three) (py_range (requests Six_By_Three)) [])
      with ([[0; 1; 2]; [3; 4; 5]], @nil Z).
    cbn [fst snd run_batches last].
    rewrite bind_assoc. unfold bind at 1.
    destruct (gather_spec w Six_By_Three [0; 1; 2] s0)
      as (r1 & s1 & E1 & O1 & [[-> G] | (-> & NS & _)]);
      [ | exfalso; apply NS, keys_safe_Six_By_Three].
    rewrite E1.
    destruct G as (ps & I & _ & T & C & recs & L & N & _).
    unfold progress_check, bind, lift, py_mod.
    change (requests Six_By_Three / 10 =? 0) with true. cbn beta iota.
    exists s1, ps, recs. split; [reflexivity | ]. split; [exact I | ].
    split; [rewrite T, T0, <- app_assoc; reflexivity | ].
    split; [now rewrite L, L0 | ]. split; [rewrite C, C0; lia | exact N]. }
  rewrite E. cbn [fst snd]. split; [reflexivity | ].
  assert (new_events s (close_session s1)
          = EvSessionOpen 103 :: EvSleep 2
            :: batch_events w [0; 1; 2] ps ++ [EvSessionClose]) as ->.
  { apply new_events_app. cbn [close_session emit snd trace].
    rewrite T, <- !app_assoc. reflexivity. }
  rewrite !gathers_cons, !start_ids_cons, gathers_app, start_ids_app.
  rewrite gathers_batch, start_ids_batch, I. cbn [app].
  split; [reflexivity | ]. split; [reflexivity | ].
  cbn [close_session emit snd stats_list error_counter].
  rewrite L, C. lia.
Qed.

(** ** Progress lines *)

Lemma marks_plan (total usrs : Z) (pending_is : list Z) :
  forall tasks,
    marks total (fst (plan usrs pending_is tasks))
    = loop_marks total usrs pending_is (Z.of_nat (List.length tasks)).
Proof.
  induction pending_is as [ | i rest IH]; intros tasks;
    cbn [plan loop_marks]; [reflexivity | ].
  rewrite length_app, Nat2Z.inj_add. cbn [List.length Z.of_nat].
  change (Z.pos (Pos.of_succ_nat 0)) with 1.
  destruct (usrs <=? Z.of_nat (List.length tasks) + 1).
  - specialize (IH []). destruct (plan usrs rest []) as [bs left].
    cbn [fst marks flat_map] in *. rewrite last_last. f_equal. exact IH.
  - rewrite IH, length_app, Nat2Z.inj_add. reflexivity.
Qed.

Lemma keys_safe_Flash_Sale_Spike : keys_safe Flash_Sale_Spike.
Proof. split; intros _; cbn; lia. Qed.

(** C3 fails on the second scenario of the catalog (50000 requests, 3000
    users): whatever the environment does, the run prints exactly three
    progress lines, at 30%, 60% and 90%, because the test is made only when
    a batch has just been gathered and a batch ends on a multiple of
    [requests // 10] only every fifth time. *)
Theorem flash_sale_progress_lines (w : World) (s : State) :
  exists percents,
    progress_percents (stdout (snd (run_scenario w Flash_Sale_Spike s)))
    = progress_percents (stdout s) ++ percents /\
    map Qred percents = [30 # 1; 60 # 1; 90 # 1].
Proof.
  destruct (run_scenario_spec w Flash_Sale_Spike s)
    as (r & s' & done & tail & E & _ & _ & _ & _ & _ & Out).
  rewrite E. cbn [snd].
  destruct Out as [(_ & _ & _ & P) | [(_ & Z0 & _) | (_ & NS & _)]].
  - exists (loop_marks (requests Flash_Sale_Spike) (users Flash_Sale_Spike)
                       (py_range (requests Flash_Sale_Spike))
                       (Z.of_nat (List.length (@nil Z)))).
    split; [ | vm_compute; reflexivity].
    rewrite P. apply f_equal.
    exact (marks_plan (requests Flash_Sale_Spike) (users Flash_Sale_Spike)
                      (py_range (requests Flash_Sale_Spike)) []).
  - vm_compute in Z0. discriminate.
  - exfalso. apply NS, keys_safe_Flash_Sale_Spike.
Qed.

(** ** Reads and writes *)

Lemma read_ids_app (l1 l2 : list Event) :
  read_ids (l1 ++ l2) = read_ids l1 ++ read_ids l2.
Proof. apply flat_map_app. Qed.

Lemma write_ids_app (l1 l2 : list Event) :
  write_ids (l1 ++ l2) = write_ids l1 ++ write_ids l2.
Proof. apply flat_map_app. Qed.

Lemma read_write_ids_starts (ps : list Pending) :
  Forall is_get ps ->
  read_ids (map start_event ps) = map p_index ps /\
  write_ids (map start_event ps) = [].
Proof.
  induction 1 as [ | p ps [_ Hp] _ [IHr IHw]]; [split; reflexivity | ].
  cbn [map]. unfold read_ids, write_ids in *. cbn [flat_map].
  unfold start_event at 1 3. rewrite Hp, IHr, IHw. split; reflexivity.
Qed.

Lemma read_write_ids_resolves (w : World) (ps : list Pending) :
  read_ids (map (resolve_event w) ps) = [] /\
  write_ids (map (resolve_event w) ps) = [].
Proof.
  induction ps as [ | p ps [IHr IHw]]; [split; reflexivity | ].
  cbn [map]. unfold read_ids, write_ids in *. cbn [flat_map resolve_event].
  rewrite IHr, IHw. split; reflexivity.
Qed.

Lemma read_write_ids_batch (w : World) (tasks : list Z) (ps : list Pending) :
  Forall is_get ps ->
  read_ids (batch_events w tasks ps) = map p_index ps /\
  write_ids (batch_events w tasks ps) = [].
Proof.
  intros G. unfold batch_events.
  change (EvGather tasks :: ?l) with ([EvGather tasks] ++ l).
  rewrite !read_ids_app, !write_ids_app.
  destruct (read_write_ids_starts ps G) as [-> ->].
  destruct (read_write_ids_resolves w (completion_order w ps)) as [-> ->].
  cbn. now rewrite app_nil_r.
Qed.

Lemma read_write_ids_blocks (w : World) (done : list (list Pending)) :
  Forall (Forall is_get) done ->
  read_ids (blocks_trace w done) = List.concat (batches_of done) /\
  write_ids (blocks_trace w done) = [].
Proof.
  induction 1 as [ | ps done G _ [IHr IHw]]; [split; reflexivity | ].
  rewrite blocks_trace_cons, batches_of_cons, read_ids_app, write_ids_app.
  destruct (read_write_ids_batch w (map p_index ps) ps G) as [-> ->].
  rewrite IHr, IHw. split; reflexivity.
Qed.

(** With [read_ratio >= 1] no draw of [0, 1) exceeds it. *)
Lemma read_only_shape (w : World) (config : Config) (p : Pending) :
  (1 <= read_ratio config)%Q -> dispatch_shape w config p -> is_get p.
Proof.
  intros H [k E]. unfold dispatch_of in E.
  assert (Qlt_bool (read_ratio config) (unit_draw w k) = false) as L.
  { apply Qlt_bool_false_iff. pose proof (unit_draw_range w k) as [_ U].
    apply Qlt_le_weak. eapply Qlt_le_trans; eassumption. }
  rewrite L in E. rewrite E. cbn. split; reflexivity.
Qed.

Lemma get_key_rng (w : World) (config : Config) (s s1 : State)
      (r : result (option string)) :
  get_key w config s = (r, s1) -> (rng_calls s <= rng_calls s1)%nat.
Proof.
  destruct (String.eqb_spec (key_pattern config) "uniform") as [Hu | Hu].
  { rewrite get_key_uniform by assumption.
    destruct (key_space config <? 1); intros E; injection E as <- <-; cbn; lia. }
  destruct (String.eqb_spec (key_pattern config) "hot") as [Hh | Hh].
  { rewrite get_key_hot by assumption. cbv zeta.
    destruct (Qlt_bool _ _);
      [destruct (hot_bound _ <? 1) | destruct (key_space config <? 1)];
      intros E; injection E as <- <-; cbn; lia. }
  destruct (String.eqb_spec (key_pattern config) "zipf") as [Hz | Hz].
  { rewrite get_key_zipf by assumption.
    intros E; injection E as <- <-. cbn. lia. }
  rewrite get_key_other by assumption.
  intros E; injection E as <- <-. lia.
Qed.

Lemma read_write_ids_cons (e : Event) (l : list Event) :
  read_ids (e :: l)
  = match e with EvStart i (Get _) => [i] | _ => [] end ++ read_ids l /\
  write_ids (e :: l)
  = match e with EvStart i (Post _ _ _) => [i] | _ => [] end ++ write_ids l.
Proof. split; reflexivity. Qed.

(** C5: a worker samples its key with [get_key] and its value with
    [generate_payload], reads the clock, and then draws a fresh [U] of
    [0, 1) as its last call into [random]; it POSTs [{key, value}] to
    [/store] (a WRITE) exactly when [U > read_ratio], and GETs
    [/retrieve/<key>] (a READ) otherwise, the key and the value being the
    sampled ones; the record of an answered request carries that
    operation and that key. Consequently, in a scenario with
    [requests = 10], [users = 5] and [read_ratio = 1.0], no dispatch is a
    WRITE, every dispatch is a READ and every record carries operation
    READ; when the 10 dispatches are made they are the READs of workers
    0..9, and absent transport failures there are 10 records. The 10
    dispatches are made whenever key sampling cannot raise. *)
Theorem read_write_selection (w : World) (scenario : Config) (s : State) :
  requests scenario = 10 ->
  users scenario = 5 ->
  (read_ratio scenario == 1)%Q ->
  (forall (config : Config) (i : Z) (s0 s1 : State) (key : option string),
      get_key w config s0 = (Ok key, s1) ->
      exists value s2 p s3,
        generate_payload w (payload_mean config) (payload_std config) s1
        = (Ok value, s2) /\
        worker_start w i config s0 = (Ok p, s3) /\
        p_index p = i /\ p_key p = key /\ p_value p = value /\
        rng_calls s3 = S (rng_calls s2) /\
        trace s3 = trace s0 ++ [EvStart i (p_request p)] /\
        let U := unit_draw w (rng_calls s2) in
        (0 <= U /\ U < 1)%Q /\
        ((read_ratio config < U)%Q ->
         p_op_type p = WRITE /\
         p_request p = Post "http://localhost:8080/api/cache/store" key value) /\
        (~ (read_ratio config < U)%Q ->
         p_op_type p = READ /\
         p_request p = Get (String.append
                              "http://localhost:8080/api/cache/retrieve/"
                              match key with
                              | Some k => k
                              | None => "None"
                              end))) /\
  (forall (config : Config) (p : Pending) (status : Z) (s0 : State),
      net_reply w (p_index p) = Response status ->
      exists r s1,
        worker_finish w config p s0 = (Ok tt, s1) /\
        stats_list s1 = stats_list s0 ++ [r] /\
        rec_operation r = p_op_type p /\ rec_key r = p_key p /\
        rec_status r = status) /\
  (let s' := snd (run_scenario w scenario s) in
   let tr := new_events s s' in
   write_ids tr = [] /\
   read_ids tr = start_ids tr /\
   Forall (fun r => rec_operation r = READ) (stats_list s') /\
   (attempted s s' = 10 ->
    read_ids tr = py_range 10 /\
    (failures w (py_range 10) = 0 ->
     List.length (stats_list s') = 10%nat)) /\
   (keys_safe scenario -> attempted s s' = 10)).
Proof.
  intros Hreq Husers Hratio. split; [ | split].
  - intros config i s0 s1 key K.
    pose proof (get_key_frame w config s0 s1 (Ok key) K) as [(A & B & C & D) _].
    rewrite worker_start_eq, K. cbv zeta. rewrite generate_payload_eq.
    eexists. eexists. eexists. eexists.
    split; [reflexivity | ]. split; [reflexivity | ].
    cbn [tick_rng snd rng_calls].
    unfold dispatch_of.
    destruct (Qlt_bool (read_ratio config) (unit_draw w (S (rng_calls s1))))
             eqn:L; cbn [p_index p_key p_value p_op_type p_request].
    + apply Qlt_bool_iff in L.
      split; [reflexivity | ]. split; [reflexivity | ]. split; [reflexivity | ].
      split; [reflexivity | ]. split; [cbn; now rewrite D | ].
      split; [apply unit_draw_range | ]. split.
      * intros _. split; reflexivity.
      * intros N. contradiction.
    + apply Qlt_bool_false_iff in L.
      split; [reflexivity | ]. split; [reflexivity | ]. split; [reflexivity | ].
      split; [reflexivity | ]. split; [cbn; now rewrite D | ].
      split; [apply unit_draw_range | ]. split.
      * intros L'. exfalso. exact (Qlt_not_le _ _ L' L).
      * intros _. split; [reflexivity | ]. destruct key; reflexivity.
  - intros config p status s0 R.
    destruct (worker_finish_eq w config p s0) as (s1 & E & _ & _ & _ & M).
    rewrite R in M. destruct M as (_ & r & St & S1 & S2 & _ & _ & S5).
    exists r, s1. repeat split; assumption.
  - intros s' tr.
    assert (write_ids tr = [] /\ read_ids tr = start_ids tr /\
            Forall (fun r => rec_operation r = READ) (stats_list s') /\
            (keys_safe scenario -> attempted s s' = 10)) as (Wr & Rd & Rec & Safe).
    { destruct (run_scenario_spec w scenario s)
        as (r & s1 & done & tail & E & T & F & C & N & R & Out).
      unfold attempted. subst tr s'. rewrite E. cbn [snd].
      rewrite (new_events_app _ _ _ T).
      assert (1 <= read_ratio scenario)%Q as Hr
          by (rewrite Hratio; apply Qle_refl).
      assert (Forall (Forall is_get) done) as G.
      { eapply Forall_impl; [ | exact F]. intros ps Fp.
        eapply Forall_impl; [ | exact Fp]. intros p. now apply read_only_shape. }
      destruct (read_write_ids_blocks w done G) as [Rb Wb].
      assert (write_ids tail = [] /\ read_ids tail = start_ids tail /\
              (keys_safe scenario ->
               tail = [] /\ batches_of done = all_batches scenario))
        as (Wt & Rt & Kt).
      { destruct Out as [(-> & B & _) | [(_ & Z0 & _) |
                         (_ & NS & b & rest & ps & _ & -> & _ & Sh)]].
        - split; [reflexivity | ]. split; [reflexivity | ].
          intros _. split; [reflexivity | exact B].
        - rewrite Hreq in Z0. vm_compute in Z0. discriminate.
        - assert (Forall is_get ps) as Gp.
          { eapply Forall_impl; [ | exact Sh]. intros p.
            now apply read_only_shape. }
          destruct (read_write_ids_cons (EvGather b) (map start_event ps))
            as [-> ->].
          rewrite start_ids_cons, start_ids_starts. cbn [app].
          destruct (read_write_ids_starts ps Gp) as [-> ->].
          split; [reflexivity | ]. split; [reflexivity | ].
          intros Safe; contradiction. }
      destruct (read_write_ids_cons
                  (EvSessionOpen (users scenario + 100))
                  (EvSleep 2 :: blocks_trace w done ++ tail ++ [EvSessionClose]))
        as [-> ->].
      destruct (read_write_ids_cons
                  (EvSleep 2)
                  (blocks_trace w done ++ tail ++ [EvSessionClose]))
        as [-> ->].
      rewrite !start_ids_cons, !write_ids_app, !read_ids_app, !start_ids_app.
      rewrite Wb, Wt, Rb, Rt, start_ids_blocks. cbn [app].
      split; [reflexivity | ]. split; [reflexivity | ]. split.
      + eapply Forall_impl; [ | exact R].
        intros rec (ps & p & I1 & I2 & _ & Op & _). rewrite Op.
        rewrite Forall_forall in G. specialize (G ps I1).
        rewrite Forall_forall in G. exact (proj1 (G p I2)).
      + intros Safe. destruct (Kt Safe) as [-> B].
        rewrite B, concat_all_batches, Hreq. reflexivity. }
    split; [exact Wr | ]. split; [exact Rd | ]. split; [exact Rec | ].
    split; [ | exact Safe].
    intros Att. rewrite <- Hreq in Att.
    destruct (full_run w scenario s Att)
      as (r & s1 & done & rest & E & T & _ & _ & CD & _ & _ & N & _).
    rewrite Rd. subst tr s'. rewrite E in *. cbn [snd] in *. rewrite T.
    rewrite Hreq in CD, N. split.
    + rewrite !start_ids_cons, start_ids_app, start_ids_blocks, CD. cbn.
      now rewrite app_nil_r.
    + intros F0. rewrite F0 in N. lia.
Qed.

Lemma read_write_selection_witness :
  (requests Small_Read_Only = 10 /\ users Small_Read_Only = 5 /\
   (read_ratio Small_Read_Only == 1)%Q) /\
  write_ids (new_events
               initial_state
               (snd (run_scenario quiet_world Small_Read_Only initial_state)))
  = [] /\
  Forall (fun r => rec_operation r = READ)
         (stats_list
            (snd (run_scenario quiet_world Small_Read_Only initial_state))).
Proof.
  split; [repeat split | ].
  pose proof (proj2 (proj2 (read_write_selection quiet_world Small_Read_Only
                                                 initial_state eq_refl eq_refl
                                                 (Qeq_refl 1)))) as H.
  split; [exact (proj1 H) | exact (proj1 (proj2 (proj2 H)))].
Defined.

(** * Further properties of the script *)

(** ** What every step of a run preserves

    A relation between an earlier and a later state that the primitive
    steps keep is kept by [gather], by the batch loop and by the whole
    session block. [Ready] is what the relation needs to know of a pending
    request when its worker is resumed. *)

Section Preservation.

Variable w : World.
Variable config : Config.
Variable R : State -> State -> Prop.
Variable Ready : Pending -> Prop.

Hypothesis R_refl : forall s, R s s.
Hypothesis R_trans : forall a b c, R a b -> R b c -> R a c.
Hypothesis R_start :
  forall i s r s', worker_start w i config s = (r, s') ->
                   R s s' /\ (forall p, r = Ok p -> Ready p).
Hypothesis R_finish :
  forall p s, Ready p -> R s (snd (worker_finish w config p s)).
Hypothesis R_emit : forall e s, R s (snd (emit e s)).
Hypothesis R_print : forall l s, R s (snd (print l s)).
Hypothesis R_time : forall s, R s (snd (time_time w s)).

Lemma bind_keeps {A B} (m : M A) (k : A -> M B) (s : State) :
  R s (snd (m s)) -> (forall a s1, R s1 (snd (k a s1))) ->
  R s (snd (bind m k s)).
Proof.
  intros Hm Hk. unfold bind. destruct (m s) as [[a | e] s1]; cbn [snd] in *.
  - eapply R_trans; [exact Hm | apply Hk].
  - exact Hm.
Qed.

Lemma start_all_keeps (tasks : list Z) :
  forall s ps e s',
    start_all w config tasks s = ((ps, e), s') -> R s s' /\ Forall Ready ps.
Proof.
  induction tasks as [ | i rest IH]; intros s ps e s'; cbn [start_all].
  - intros E. injection E as <- <- <-. split; [apply R_refl | constructor].
  - destruct (worker_start w i config s) as [[p | x] s1] eqn:W;
      destruct (R_start _ _ _ _ W) as [R1 Q1];
      destruct (start_all w config rest s1) as [[ps1 e1] s2] eqn:S1;
      destruct (IH _ _ _ _ S1) as [R2 Q2];
      intros E; injection E as <- <- <-.
    + split; [eapply R_trans; eassumption | ].
      constructor; [now apply Q1 | exact Q2].
    + split; [eapply R_trans; eassumption | exact Q2].
Qed.

Lemma finish_all_keeps (qs : list Pending) :
  forall s, Forall Ready qs -> R s (snd (finish_all w config qs s)).
Proof.
  induction qs as [ | q qs IH]; intros s F; cbn [finish_all].
  - apply R_refl.
  - apply Forall_cons_iff in F. destruct F as [Fq F].
    apply bind_keeps; [now apply R_finish | intros _ s1; now apply IH].
Qed.

Lemma gather_keeps (tasks : list Z) (s : State) :
  R s (snd (gather w config tasks s)).
Proof.
  unfold gather. apply bind_keeps; [apply R_emit | ]. intros _ s0.
  destruct (start_all w config tasks s0) as [[ps e] s1] eqn:S1.
  destruct (start_all_keeps _ _ _ _ _ S1) as [R1 Q1].
  destruct e as [x | ]; cbn [snd]; [exact R1 | ].
  eapply R_trans; [exact R1 | ].
  apply bind_keeps; [ | intros _ s2; apply R_emit].
  apply finish_all_keeps.
  rewrite Forall_forall in *. intros p I. apply Q1.
  eapply Permutation_in; [apply completion_order_perm | exact I].
Qed.

Lemma batch_loop_keeps (start_time : Q) (pending_is : list Z) :
  forall tasks s,
    R s (snd (batch_loop w config start_time pending_is tasks s)).
Proof.
  induction pending_is as [ | i rest IH]; intros tasks s; cbn [batch_loop].
  - apply R_refl.
  - destruct (users config <=? Z.of_nat (List.length (tasks ++ [i])));
      [ | apply IH].
    apply bind_keeps; [apply gather_keeps | ]. intros _ s1.
    apply bind_keeps; [apply R_refl | ]. intros r s2.
    apply bind_keeps; [ | intros _ s3; apply IH].
    destruct (r =? 0); [ | apply R_refl].
    apply bind_keeps; [apply R_time | intros now s3; apply R_print].
Qed.

Lemma after_loop_keeps (start_time : Q) (tasks : list Z) (s : State) :
  R s (snd (after_loop w config start_time tasks s)).
Proof.
  unfold after_loop. apply bind_keeps.
  { destruct tasks; [apply R_refl | apply gather_keeps]. }
  intros _ s1. apply bind_keeps; [apply R_time | ]. intros now s2.
  apply bind_keeps; [apply R_refl | ]. intros thr s3.
  apply bind_keeps; [apply R_print | ]. intros _ s4.
  apply bind_keeps; [apply R_print | ]. intros _ s5.
  apply bind_keeps; [apply R_print | ]. intros _ s6.
  apply bind_keeps; [ | intros _ s7; apply R_refl].
  destruct (0 <? error_counter s6); [apply R_print | apply R_refl].
Qed.

(** From the entry of the batch loop to the end of [run_scenario]. *)
Lemma session_keeps (s : State) :
  R (loop_entry w config s) (snd (run_scenario w config s)).
Proof.
  rewrite run_scenario_eq. cbv zeta.
  match goal with
  | |- context [bind ?m ?k ?s0] =>
      assert (R s0 (snd (bind m k s0))) as H;
      [ | destruct (bind m k s0) as [r s1]; cbn [snd] in *;
          eapply R_trans; [exact H | apply R_emit] ]
  end.
  apply bind_keeps; [apply batch_loop_keeps | ].
  intros tasks s1. apply after_loop_keeps.
Qed.

End Preservation.

(** ** KeySampler: where the keys fall *)

(** X1: under the "uniform" pattern [get_key] returns [user_<N>] with
    [1 <= N <= key_space], consuming one call into [random], when
    [key_space >= 1]; with [key_space < 1] it raises [ValueError] and
    leaves the state untouched. *)
Theorem uniform_key_range (w : World) (config : Config) (s : State) :
  key_pattern config = "uniform" ->
  (1 <= key_space config ->
   exists N,
     get_key w config s = (Ok (Some (user_ N)), after_draws 1 s) /\
     1 <= N <= key_space config) /\
  (key_space config < 1 -> get_key w config s = (Raise ValueError, s)).
Proof.
  intros H. rewrite get_key_uniform by assumption. split; intros Hs.
  - assert ((key_space config <? 1) = false) as -> by (apply Z.ltb_ge; lia).
    eexists. split; [reflexivity | ]. apply int_draw_range. exact Hs.
  - assert ((key_space config <? 1) = true) as -> by (apply Z.ltb_lt; lia).
    reflexivity.
Qed.

Lemma uniform_key_range_witness :
  key_pattern The_Ram_Eater = "uniform" /\
  exists N,
    get_key quiet_world The_Ram_Eater initial_state
    = (Ok (Some (user_ N)), after_draws 1 initial_state) /\
    1 <= N <= key_space The_Ram_Eater.
Proof.
  split; [reflexivity | ].
  apply (proj1 (uniform_key_range quiet_world The_Ram_Eater initial_state
                                  eq_refl)).
  vm_compute. discriminate.
Defined.

Lemma zipf_bounds (w : World) (config : Config) (s : State) :
  key_pattern config = "zipf" ->
  exists N,
    get_key w config s = (Ok (Some (user_ N)), after_draws 1 s) /\
    1 <= N <= Z.max 1 (key_space config - 1).
Proof.
  intros H. rewrite get_key_zipf by assumption.
  eexists. split; [reflexivity | ]. split; [lia | ].
  destruct (unit_draw_top w (rng_calls s)) as [U0 U1].
  destruct (Z_le_gt_dec (key_space config) 0) as [NP | P].
  - pose proof (zipf_index_nonpos _ _ U0 U1 NP). lia.
  - pose proof (zipf_index_below (key_space config) _ U0 U1 ltac:(lia)). lia.
Qed.

(** X2: under the "zipf" pattern [get_key] never raises and returns
    [user_<N>] with [1 <= N <= max(1, key_space - 1)]: the key
    [user_<key_space>] is never sampled when [key_space >= 2], and
    [user_1] is returned for every [key_space <= 1], also when the key
    space is empty. *)
Theorem zipf_never_top_key (w : World) (config : Config) (s : State) :
  key_pattern config = "zipf" ->
  exists N,
    get_key w config s = (Ok (Some (user_ N)), after_draws 1 s) /\
    1 <= N <= Z.max 1 (key_space config - 1).
Proof.
  intros H. destruct (zipf_bounds w config s H) as (N & E & B).
  exists N. split; [exact E | exact B].
Qed.

Lemma zipf_never_top_key_witness :
  key_pattern Realistic_E_Commerce_Day = "zipf" /\
  exists N,
    get_key flaky_world Realistic_E_Commerce_Day initial_state
    = (Ok (Some (user_ N)), after_draws 1 initial_state) /\
    1 <= N <= Z.max 1 (key_space Realistic_E_Commerce_Day - 1).
Proof.
  split; [reflexivity | ].
  exact (zipf_never_top_key flaky_world Realistic_E_Commerce_Day
                            initial_state eq_refl).
Defined.

(** X3: with one of the three patterns and [key_space >= 1], every key
    that [get_key] returns is [user_<N>] with [1 <= N <= key_space]: the
    hot subset and the cube of the zipf pattern never leave the key
    space. *)
Theorem sampled_key_in_key_space (w : World) (config : Config) (s s' : State)
        (key : option string) :
  key_pattern config = "uniform" \/ key_pattern config = "hot" \/
  key_pattern config = "zipf" ->
  1 <= key_space config ->
  get_key w config s = (Ok key, s') ->
  exists N, key = Some (user_ N) /\ 1 <= N <= key_space config.
Proof.
  intros [H | [H | H]] Hs.
  - rewrite get_key_uniform by assumption.
    assert ((key_space config <? 1) = false) as -> by (apply Z.ltb_ge; lia).
    intros E. injection E as <- _.
    exists (int_draw w (rng_calls s) 1 (key_space config)).
    split; [reflexivity | ]. now apply int_draw_range.
  - rewrite get_key_hot by assumption. cbv zeta.
    pose proof (hot_bound_le_space (key_space config) Hs) as Hd.
    destruct (Qlt_bool _ _).
    + destruct (hot_bound (key_space config) <? 1) eqn:E1; [discriminate | ].
      apply Z.ltb_ge in E1. intros E. injection E as <- _.
      exists (int_draw w (S (rng_calls s)) 1 (hot_bound (key_space config))).
      split; [reflexivity | ].
      pose proof (int_draw_range w (S (rng_calls s)) 1 _ E1). lia.
    + assert ((key_space config <? 1) = false) as -> by (apply Z.ltb_ge; lia).
      intros E. injection E as <- _.
      exists (int_draw w (S (rng_calls s)) 1 (key_space config)).
      split; [reflexivity | ]. now apply int_draw_range.
  - destruct (zipf_bounds w config s H) as (N & E & B).
    rewrite E. intros E'. injection E' as <- _.
    exists N. split; [reflexivity | lia].
Qed.

Lemma sampled_key_in_key_space_witness :
  (key_pattern Flash_Sale_Spike = "uniform" \/
   key_pattern Flash_Sale_Spike = "hot" \/
   key_pattern Flash_Sale_Spike = "zipf") /\
  1 <= key_space Flash_Sale_Spike /\
  exists N, Some "user_1" = Some (user_ N) /\
            1 <= N <= key_space Flash_Sale_Spike.
Proof.
  split; [right; left; reflexivity | ]. split; [vm_compute; discriminate | ].
  refine (sampled_key_in_key_space
            quiet_world Flash_Sale_Spike initial_state
            (after_draws 2 initial_state) (Some "user_1") _ _ _).
  - right. left. reflexivity.
  - vm_compute. discriminate.
  - vm_compute. reflexivity.
Defined.

(** ** The clock only moves forward *)

Lemma get_key_clock (w : World) (config : Config) (s s1 : State)
      (r : result (option string)) :
  get_key w config s = (r, s1) -> clock_calls s1 = clock_calls s.
Proof.
  destruct (String.eqb_spec (key_pattern config) "uniform") as [Hu | Hu].
  { rewrite get_key_uniform by assumption.
    destruct (key_space config <? 1); intros E; injection E as <- <-;
      reflexivity. }
  destruct (String.eqb_spec (key_pattern config) "hot") as [Hh | Hh].
  { rewrite get_key_hot by assumption. cbv zeta.
    destruct (Qlt_bool _ _);
      [destruct (hot_bound _ <? 1) | destruct (key_space config <? 1)];
      intros E; injection E as <- <-; reflexivity. }
  destruct (String.eqb_spec (key_pattern config) "zipf") as [Hz | Hz].
  { rewrite get_key_zipf by assumption.
    intros E; injection E as <- <-. reflexivity. }
  rewrite get_key_other by assumption.
  intros E; injection E as <- <-. reflexivity.
Qed.

Lemma worker_start_clock (w : World) (config : Config) (i : Z) (s s' : State)
      (r : result Pending) :
  worker_start w i config s = (r, s') ->
  clock_le s s' /\ (forall p, r = Ok p -> True).
Proof.
  rewrite worker_start_eq.
  destruct (get_key w config s) as [[key | e] s1] eqn:K;
    apply get_key_clock in K; cbv zeta; intros E; injection E as <- <-;
    (split; [unfold clock_le; cbn; lia | trivial]).
Qed.

Lemma worker_finish_clock (w : World) (config : Config) (p : Pending)
      (s : State) :
  True -> clock_le s (snd (worker_finish w config p s)).
Proof.
  intros _. unfold worker_finish, clock_le.
  destruct (net_reply w (p_index p)); cbn; lia.
Qed.

Lemma clock_le_trans (a b c : State) : clock_le a b -> clock_le b c -> clock_le a c.
Proof. unfold clock_le. lia. Qed.

Lemma clock_le_refl (s : State) : clock_le s s.
Proof. unfold clock_le. lia. Qed.

Lemma gather_clock (w : World) (config : Config) (tasks : list Z) (s : State) :
  clock_le s (snd (gather w config tasks s)).
Proof.
  apply (gather_keeps w config clock_le (fun _ => True));
    [apply clock_le_refl | apply clock_le_trans
     | intros i s0 r s1; apply worker_start_clock
     | intros p s0; apply worker_finish_clock | ];
    intros; unfold clock_le; cbn; lia.
Qed.

Lemma batch_loop_clock (w : World) (config : Config) (start_time : Q)
      (pending_is tasks : list Z) (s : State) :
  clock_le s (snd (batch_loop w config start_time pending_is tasks s)).
Proof.
  apply (batch_loop_keeps w config clock_le (fun _ => True));
    [apply clock_le_refl | apply clock_le_trans
     | intros i s0 r s1; apply worker_start_clock
     | intros p s0; apply worker_finish_clock | | | ];
    intros; unfold clock_le; cbn; lia.
Qed.

Lemma clock_advances_lt (w : World) (a b : nat) :
  clock_advances w -> (a < b)%nat -> (wall_clock w a < wall_clock w b)%Q.
Proof.
  intros H L. induction L as [ | b L IH]; [apply H | ].
  eapply Qlt_trans; [exact IH | apply H].
Qed.

(** ** Normal termination *)

Lemma summary_returns (w : World) (scenario : Config) (start_time : Q)
      (s : State) :
  ~ (wall_clock w (clock_calls s) - start_time == 0)%Q ->
  exists rs s',
    after_loop w scenario start_time [] s = (Ok rs, s') /\
    rs = stats_list s' /\
    stats_list s' = stats_list s /\ error_counter s' = error_counter s /\
    trace s' = trace s.
Proof.
  intros NZ. unfold after_loop, bind, ret, time_time, lift, py_truediv, print.
  cbn beta iota.
  destruct (Qeq_bool _ 0) eqn:E.
  - apply Qeq_bool_iff in E. contradiction.
  - cbn beta iota. cbn [error_counter stats_list].
    destruct (0 <? error_counter s);
      eexists; eexists; (split; [reflexivity | ]); cbn; repeat split.
Qed.

Lemma batch_loop_raises (w : World) (scenario : Config) (start_time : Q)
      (pending_is : list Z) (s s1 : State) (e : exn) :
  batch_loop w scenario start_time pending_is [] s = (Raise e, s1) ->
  match e with
  | ValueError => ~ keys_safe scenario
  | ZeroDivisionError => requests scenario / 10 = 0
  end.
Proof.
  rewrite batch_loop_plan.
  destruct (run_batches_spec w scenario start_time
                             (fst (plan (users scenario) pending_is [])) s)
    as (r1 & s2 & done & tail & E & _ & Out).
  unfold bind. rewrite E. destruct r1 as [[] | e1]; [discriminate | ].
  intros B. injection B as <- <-.
  destruct e1; cbn [batches_outcome] in Out; exact (proj1 Out).
Qed.

Lemma run_scenario_returns (w : World) (scenario : Config) (s : State) :
  keys_safe scenario ->
  requests scenario / 10 <> 0 ->
  clock_advances w ->
  exists s', run_scenario w scenario s = (Ok (stats_list s'), s').
Proof.
  intros Safe NZ Adv. rewrite run_scenario_eq. cbv zeta.
  assert (clock_calls (loop_entry w scenario s) = S (clock_calls s)) as C0
      by reflexivity.
  set (s0 := loop_entry w scenario s) in *. clearbody s0.
  set (st := wall_clock w (clock_calls s)).
  pose proof (batch_loop_clock w scenario st
                               (py_range (requests scenario)) [] s0) as C1.
  unfold bind at 1.
  destruct (batch_loop w scenario st (py_range (requests scenario)) [] s0)
    as [[tasks | e] s1] eqn:B; cbn [snd] in C1.
  - assert (forall s2, clock_le s1 s2 ->
                       exists s',
                         after_loop w scenario st [] s2
                         = (Ok (stats_list s'), s')) as Sum.
    { intros s2 C2.
      destruct (summary_returns w scenario st s2) as (rs & s' & E & -> & _);
        [ | exists s'; exact E].
      intros Z0. unfold clock_le in *.
      assert (st < wall_clock w (clock_calls s2))%Q as L
          by (apply clock_advances_lt; [exact Adv | lia]).
      apply (Qlt_irrefl st). rewrite <- (Qplus_0_l st) at 2.
      rewrite <- Z0. ring_simplify. exact L. }
    destruct tasks as [ | i tasks].
    + destruct (Sum s1 (clock_le_refl s1)) as (s' & E).
      rewrite E. exists (close_session s'). reflexivity.
    + rewrite after_loop_cons. unfold bind at 1.
      pose proof (gather_clock w scenario (i :: tasks) s1) as C2.
      destruct (gather_spec w scenario (i :: tasks) s1)
        as (r1 & s2 & E1 & _ & [[-> _] | (-> & NS & _)]);
        [ | contradiction].
      rewrite E1 in *. cbn [snd] in C2.
      destruct (Sum s2 C2) as (s' & E).
      rewrite E. exists (close_session s'). reflexivity.
  - apply batch_loop_raises in B. destruct e; contradiction.
Qed.

Lemma flaky_clock_advances : clock_advances flaky_world.
Proof.
  intros k. cbn [wall_clock flaky_world]. rewrite <- Zlt_Qlt. lia.
Qed.

Lemma run_scenario_ok (w : World) (scenario : Config) (s s' : State)
      (rs : list RequestRecord) :
  run_scenario w scenario s = (Ok rs, s') ->
  exists done,
    rs = stats_list s' /\
    new_events s s'
    = EvSessionOpen (users scenario + 100) :: EvSleep 2
      :: blocks_trace w done ++ [EvSessionClose] /\
    List.concat (batches_of done) = py_range (requests scenario) /\
    batches_of done = all_batches scenario /\
    error_counter s' = failures w (py_range (requests scenario)) /\
    Z.of_nat (List.length rs)
    = Z.of_nat (Z.to_nat (requests scenario))
      - failures w (py_range (requests scenario)).
Proof.
  intros H.
  destruct (run_scenario_spec w scenario s)
    as (r & s1 & done & tail & E & T & _ & C & N & _ & Out).
  rewrite H in E. injection E as <- <-.
  destruct Out as [(-> & B & [R | R] & _) | [(R & _) | (R & _)]];
    try discriminate.
  injection R as ->.
  pose proof (concat_all_batches scenario) as CA. rewrite <- B in CA.
  exists done. split; [reflexivity | ].
  split; [apply new_events_app; exact T | ]. split; [exact CA | ].
  split; [exact B | ]. rewrite CA in C, N.
  split; [exact C | ]. rewrite N, length_py_range. reflexivity.
Qed.

(** X4: when [run_scenario] returns normally, the list it returns is the
    scenario's record list, and records plus counted errors add up to the
    requested number of dispatches ([0] for a negative [requests]): every
    request is accounted for exactly once, as a record or as an error. *)
Theorem returned_records_account (w : World) (scenario : Config)
        (s s' : State) (rs : list RequestRecord) :
  run_scenario w scenario s = (Ok rs, s') ->
  rs = stats_list s' /\
  error_counter s' = failures w (py_range (requests scenario)) /\
  Z.of_nat (List.length rs) + error_counter s' = Z.max 0 (requests scenario) /\
  attempted s s' = Z.max 0 (requests scenario).
Proof.
  intros H. destruct (run_scenario_ok w scenario s s' rs H)
    as (done & Rs & T & CD & _ & C & N).
  split; [exact Rs | ]. split; [exact C | ]. split; [lia | ].
  unfold attempted. rewrite T.
  rewrite !start_ids_cons, start_ids_app, start_ids_blocks, CD. cbn [app].
  rewrite length_app, length_py_range. cbn. lia.
Qed.

Lemma returned_records_account_witness :
  exists rs s',
    run_scenario flaky_world Small_Read_Only initial_state = (Ok rs, s') /\
    Z.of_nat (List.length rs) + error_counter s' = 10.
Proof.
  destruct (run_scenario flaky_world Small_Read_Only initial_state)
    as [r s'] eqn:E.
  assert (exists rs, r = Ok rs) as [rs ->].
  { assert (fst (run_scenario flaky_world Small_Read_Only initial_state)
            = Ok (stats_list
                    (snd (run_scenario flaky_world Small_Read_Only
                                       initial_state)))) as F
        by (vm_compute; reflexivity).
    rewrite E in F. cbn [fst snd] in F. eexists. exact F. }
  exists rs, s'. split; [reflexivity | ].
  exact (proj1 (proj2 (proj2 (returned_records_account
                                flaky_world Small_Read_Only initial_state
                                s' rs E)))).
Defined.

(** X5: [run_scenario] returns its record list, raising nothing, whenever
    key sampling cannot raise (a key space of at least 1 for "uniform", at
    least 20 for "hot"), [requests // 10] is not zero and the clock
    advances between readings; all [requests] dispatches are then
    attempted. *)
Theorem run_scenario_terminates (w : World) (scenario : Config) (s : State) :
  keys_safe scenario ->
  requests scenario / 10 <> 0 ->
  clock_advances w ->
  exists rs s',
    run_scenario w scenario s = (Ok rs, s') /\
    rs = stats_list s' /\
    Z.of_nat (List.length rs)
    = Z.max 0 (requests scenario)
      - failures w (py_range (requests scenario)) /\
    attempted s s' = Z.max 0 (requests scenario).
Proof.
  intros Safe NZ Adv.
  destruct (run_scenario_returns w scenario s Safe NZ Adv) as (s' & E).
  exists (stats_list s'), s'. split; [exact E | ]. split; [reflexivity | ].
  destruct (run_scenario_ok w scenario s s' _ E) as (done & _ & T & CD & _ & _ & N).
  split; [lia | ].
  unfold attempted. rewrite T.
  rewrite !start_ids_cons, start_ids_app, start_ids_blocks, CD. cbn [app].
  rewrite length_app, length_py_range. cbn. lia.
Qed.

Lemma run_scenario_terminates_witness :
  (keys_safe Flash_Sale_Spike /\ requests Flash_Sale_Spike / 10 <> 0 /\
   clock_advances flaky_world) /\
  exists rs s',
    run_scenario flaky_world Flash_Sale_Spike initial_state = (Ok rs, s') /\
    rs = stats_list s' /\
    Z.of_nat (List.length rs)
    = Z.max 0 (requests Flash_Sale_Spike)
      - failures flaky_world (py_range (requests Flash_Sale_Spike)) /\
    attempted initial_state s' = Z.max 0 (requests Flash_Sale_Spike).
Proof.
  assert (requests Flash_Sale_Spike / 10 <> 0) as NZ
      by (vm_compute; discriminate).
  split; [split; [exact keys_safe_Flash_Sale_Spike | split;
                  [exact NZ | exact flaky_clock_advances]] | ].
  exact (run_scenario_terminates flaky_world Flash_Sale_Spike initial_state
                                 keys_safe_Flash_Sale_Spike NZ
                                 flaky_clock_advances).
Defined.

(** ** Edge cases of the batcher *)

Lemma py_range_nonpos (n : Z) : n <= 0 -> py_range n = [].
Proof.
  intros H. unfold py_range.
  replace (Z.to_nat n) with O by lia. reflexivity.
Qed.

(** X6: with [requests <= 0] the loop body never runs: the session is
    opened and closed around the reset pause only, nothing is gathered, no
    request is issued, and the record list and the error counter stay
    empty, whatever the other fields of the scenario are. *)
Theorem no_requests_no_dispatch (w : World) (scenario : Config) (s : State) :
  requests scenario <= 0 ->
  let r := fst (run_scenario w scenario s) in
  let s' := snd (run_scenario w scenario s) in
  new_events s s'
  = [EvSessionOpen (users scenario + 100); EvSleep 2; EvSessionClose] /\
  stats_list s' = [] /\ error_counter s' = 0 /\
  (r = Ok [] \/ r = Raise ZeroDivisionError).
Proof.
  intros H. cbv zeta.
  destruct (summary_spec w scenario (wall_clock w (clock_calls s))
                         (loop_entry w scenario s))
    as (r & s1 & E & T & L & C & _ & R).
  assert (run_scenario w scenario s = (r, close_session s1)) as ->.
  { rewrite run_scenario_eq. cbv zeta.
    rewrite (py_range_nonpos _ H). cbn [batch_loop].
    unfold bind at 1. cbn [ret]. rewrite E. reflexivity. }
  cbn [fst snd].
  split; [ | split; [ | split]].
  - apply new_events_app. cbn [close_session emit snd trace].
    rewrite T. cbn [loop_entry trace]. rewrite <- !app_assoc. reflexivity.
  - cbn [close_session emit snd stats_list]. rewrite L. reflexivity.
  - cbn [close_session emit snd error_counter]. rewrite C. reflexivity.
  - destruct R as [-> | ->]; [left | right; reflexivity].
    rewrite L. reflexivity.
Qed.

Lemma no_requests_no_dispatch_witness :
  requests No_Requests <= 0 /\
  new_events initial_state
             (snd (run_scenario flaky_world No_Requests initial_state))
  = [EvSessionOpen (users No_Requests + 100); EvSleep 2; EvSessionClose].
Proof.
  split; [vm_compute; discriminate | ].
  refine (proj1 (no_requests_no_dispatch flaky_world No_Requests
                                         initial_state _)).
  vm_compute. discriminate.
Defined.

Lemma plan_sizes_any (usrs : Z) (pending_is : list Z) :
  forall tasks,
    Z.of_nat (List.length tasks) < Z.max 1 usrs ->
    Forall (fun b => Z.of_nat (List.length b) = Z.max 1 usrs)
           (fst (plan usrs pending_is tasks)) /\
    Z.of_nat (List.length (snd (plan usrs pending_is tasks))) < Z.max 1 usrs.
Proof.
  induction pending_is as [ | i rest IH]; intros tasks Ht; cbn [plan].
  - split; [constructor | exact Ht].
  - destruct (usrs <=? Z.of_nat (List.length (tasks ++ [i]))) eqn:E.
    + apply Z.leb_le in E.
      destruct (IH []) as [F L]; [cbn; lia | ].
      destruct (plan usrs rest []) as [bs left]. cbn [fst snd] in *.
      split; [ | exact L]. constructor; [ | exact F].
      rewrite length_app in *. cbn [List.length] in *. lia.
    + apply Z.leb_gt in E. apply IH.
      rewrite length_app in *. cbn [List.length] in *. lia.
Qed.

Lemma all_batches_bound (scenario : Config) :
  Forall (fun b => 1 <= Z.of_nat (List.length b) <= Z.max 1 (users scenario))
         (all_batches scenario).
Proof.
  unfold all_batches.
  pose proof (plan_sizes_any (users scenario) (py_range (requests scenario)) [])
    as S.
  destruct (plan _ _ _) as [bs left]. cbn [fst snd List.length] in S.
  destruct S as [F L]; [lia | ].
  apply Forall_app. split.
  - eapply Forall_impl; [ | exact F]. cbn beta. intros b Hb. lia.
  - destruct left as [ | i left]; constructor; [ | constructor].
    cbn [List.length] in *. lia.
Qed.

(** X7: in every run, completed or cut short, each batch handed to
    [asyncio.gather] holds at least one and at most [max(1, users)]
    coroutines, and no more requests than that are put on the wire between
    two joins: [users] bounds the concurrency, and a [users] of zero or
    less degrades to one request at a time. *)
Theorem batch_size_bound (w : World) (scenario : Config) (s : State) :
  let tr := new_events s (snd (run_scenario w scenario s)) in
  Forall (fun b => 1 <= Z.of_nat (List.length b) <= Z.max 1 (users scenario))
         (gathers tr) /\
  Z.of_nat (List.length (start_ids tr))
  <= Z.of_nat (List.length (List.concat (gathers tr))).
Proof.
  cbv zeta.
  destruct (run_scenario_spec w scenario s)
    as (r & s' & done & tail & E & T & _ & _ & _ & _ & Out).
  rewrite E. cbn [snd]. rewrite (new_events_app _ _ _ T).
  rewrite !gathers_cons, !start_ids_cons. cbn [app].
  rewrite !gathers_app, !start_ids_app, gathers_blocks, start_ids_blocks.
  pose proof (all_batches_bound scenario) as B.
  assert (Forall (fun b => 1 <= Z.of_nat (List.length b)
                           <= Z.max 1 (users scenario))
                 (batches_of done ++ gathers tail) /\
          (List.length (start_ids tail)
           <= List.length (List.concat (gathers tail)))%nat) as [F L].
  { destruct Out as [(-> & A & _) | [(_ & _ & -> & rest & A) |
                     (_ & _ & b & rest & ps & A & -> & Ln & _)]].
    - cbn. rewrite app_nil_r, A. split; [exact B | lia].
    - cbn. rewrite app_nil_r. rewrite A in B.
      apply Forall_app in B. split; [exact (proj1 B) | lia].
    - rewrite gathers_cons, gathers_starts, start_ids_cons, start_ids_starts.
      cbn [app List.concat]. rewrite app_nil_r, length_map.
      rewrite A in B. apply Forall_app in B. destruct B as [B1 B2].
      apply Forall_cons_iff in B2. split; [ | lia].
      apply Forall_app. split; [exact B1 | ].
      constructor; [exact (proj1 B2) | constructor]. }
  cbn [gathers start_ids flat_map app]. rewrite !app_nil_r.
  split; [exact F | ].
  rewrite concat_app, !length_app. lia.
Qed.

(** ** The session *)

Lemma no_session_event_starts (ps : list Pending) :
  Forall (fun e => ~ session_event e) (map start_event ps).
Proof. induction ps; constructor; [intros [] | assumption]. Qed.

Lemma no_session_event_resolves (w : World) (ps : list Pending) :
  Forall (fun e => ~ session_event e) (map (resolve_event w) ps).
Proof. induction ps; constructor; [intros [] | assumption]. Qed.

Lemma no_session_event_blocks (w : World) (done : list (list Pending)) :
  Forall (fun e => ~ session_event e) (blocks_trace w done).
Proof.
  induction done as [ | ps done IH]; [constructor | ].
  rewrite blocks_trace_cons. apply Forall_app. split; [ | exact IH].
  unfold batch_events. constructor; [intros [] | ].
  apply Forall_app. split; [apply no_session_event_starts | ].
  apply Forall_app. split; [apply no_session_event_resolves | ].
  constructor; [intros [] | constructor].
Qed.

(** X8: whether [run_scenario] returns or raises, its events start with
    the opening of one session, sized [users + 100], and end with the
    closing of that session; no session is opened or closed in between, so
    every gather, request and pause of the run happens inside the one
    session and the session is always released. *)
Theorem session_scoped (w : World) (scenario : Config) (s : State) :
  exists inside,
    new_events s (snd (run_scenario w scenario s))
    = EvSessionOpen (users scenario + 100) :: inside ++ [EvSessionClose] /\
    Forall (fun e => ~ session_event e) inside.
Proof.
  destruct (run_scenario_spec w scenario s)
    as (r & s' & done & tail & E & T & _ & _ & _ & _ & Out).
  rewrite E. cbn [snd].
  exists (EvSleep 2 :: blocks_trace w done ++ tail). split.
  - apply new_events_app. rewrite T. cbn [app]. rewrite <- app_assoc.
    reflexivity.
  - constructor; [intros [] | ].
    apply Forall_app. split; [apply no_session_event_blocks | ].
    destruct Out as [(-> & _) | [(_ & _ & -> & _) |
                     (_ & _ & b & rest & ps & _ & -> & _)]];
      try constructor; [intros [] | apply no_session_event_starts].
Qed.

(** ** What a record holds *)

Lemma get_key_None (w : World) (config : Config) (s s1 : State) :
  get_key w config s = (Ok None, s1) -> ~ known_pattern config.
Proof.
  intros E [H | [H | H]]; revert E.
  - rewrite get_key_uniform by assumption.
    destruct (key_space config <? 1); discriminate.
  - rewrite get_key_hot by assumption. cbv zeta.
    destruct (Qlt_bool _ _);
      [destruct (hot_bound _ <? 1) | destruct (key_space config <? 1)];
      discriminate.
  - rewrite get_key_zipf by assumption. discriminate.
Qed.

Lemma worker_start_sound (w : World) (config : Config) (i : Z) (s s' : State)
      (r : result Pending) :
  worker_start w i config s = (r, s') ->
  keeps_sound_records config s s' /\
  (forall p, r = Ok p -> sound_pending config p).
Proof.
  intros W. split.
  - destruct (worker_start_cases w i config s s' r W)
      as [(_ & L & _) | (p & _ & _ & L & _)];
      unfold keeps_sound_records; now rewrite L.
  - revert W. rewrite worker_start_eq.
    destruct (get_key w config s) as [[key | e] s1] eqn:K;
      [ | intros E p Hp; congruence].
    cbv zeta. intros E p Hp. injection E as <- _. injection Hp as <-.
    unfold sound_pending, dispatch_of.
    destruct (Qlt_bool _ _); cbn [p_value p_key];
      (split; [rewrite py_len_mul_X; lia | ]);
      intros ->; eapply get_key_None; exact K.
Qed.

Lemma worker_finish_sound (w : World) (config : Config) (p : Pending)
      (s : State) :
  sound_pending config p ->
  keeps_sound_records config s (snd (worker_finish w config p s)).
Proof.
  intros [Hv Hk] F.
  destruct (worker_finish_eq w config p s) as (s' & E & _ & _ & _ & H).
  rewrite E. cbn [snd].
  destruct (net_reply w (p_index p)).
  - destruct H as (_ & r & -> & _ & _ & N & B & K).
    apply Forall_app. split; [exact F | ].
    constructor; [ | constructor].
    unfold sound_record. rewrite N, B, K. repeat split; assumption.
  - destruct H as (_ & ->). exact F.
Qed.

Lemma final_records_sound (w : World) (scenario : Config) (s : State) :
  Forall (sound_record scenario)
         (stats_list (snd (run_scenario w scenario s))).
Proof.
  apply (session_keeps w scenario (keeps_sound_records scenario)
                       (sound_pending scenario)).
  - intros s0 F. exact F.
  - intros a b c H1 H2 F. apply H2, H1, F.
  - intros i s0 r s1. apply worker_start_sound.
  - intros p s0. apply worker_finish_sound.
  - intros e s0 F. exact F.
  - intros l s0 F. exact F.
  - intros s0 F. exact F.
  - constructor.
Qed.

(** X9: every record in the list [run_scenario] leaves behind, and so
    every record it returns, carries the scenario's name and a payload
    size of at least one byte, and its key is missing only when the
    scenario's pattern is none of "uniform", "hot" and "zipf". *)
Theorem records_are_sound (w : World) (scenario : Config) (s : State) :
  Forall (sound_record scenario)
         (stats_list (snd (run_scenario w scenario s))) /\
  match fst (run_scenario w scenario s) with
  | Ok rs => Forall (sound_record scenario) rs
  | Raise _ => True
  end.
Proof.
  pose proof (final_records_sound w scenario s) as F. split; [exact F | ].
  destruct (run_scenario w scenario s) as [[rs | e] s'] eqn:E; [ | exact I].
  cbn [fst snd] in *.
  destruct (run_scenario_ok w scenario s s' rs E) as (_ & -> & _). exact F.
Qed.

(** ** [main]: the export *)

Lemma run_all_spec (worlds : nat -> World) (scenarios : list Config) :
  forall k acc s rs s',
    run_all worlds k scenarios acc s = (Ok rs, s') ->
    exists rss, rs = acc ++ List.concat rss /\ grouped worlds k scenarios rss.
Proof.
  induction scenarios as [ | sc scs IH]; intros k acc s rs s'; cbn [run_all].
  - intros E. injection E as <- _. exists []. cbn. now rewrite app_nil_r.
  - unfold bind at 1.
    destruct (run_scenario (worlds k) sc s) as [[results | e] s1] eqn:R;
      [ | discriminate].
    unfold bind at 1. cbn [emit]. intros E.
    destruct (IH _ _ _ _ _ E) as (rss & -> & G).
    exists (results :: rss). split; [cbn; now rewrite app_assoc | ].
    cbn [grouped]. split; [ | split; [ | exact G]].
    + pose proof (final_records_sound (worlds k) sc s) as F.
      rewrite R in F. cbn [snd] in F.
      destruct (run_scenario_ok _ _ _ _ _ R) as (_ & -> & _). exact F.
    + destruct (run_scenario_ok _ _ _ _ _ R) as (_ & _ & _ & _ & _ & _ & N).
      lia.
Qed.

Lemma run_all_returns (worlds : nat -> World) (scenarios : list Config) :
  Forall (fun sc => keys_safe sc /\ requests sc / 10 <> 0) scenarios ->
  (forall k, clock_advances (worlds k)) ->
  forall k acc s,
  exists rs s', run_all worlds k scenarios acc s = (Ok rs, s').
Proof.
  intros F Adv. induction F as [ | sc scs [Safe NZ] _ IH]; intros k acc s;
    cbn [run_all].
  - eexists. eexists. reflexivity.
  - destruct (run_scenario_returns (worlds k) sc s Safe NZ (Adv k)) as (s1 & E).
    unfold bind at 1. rewrite E. unfold bind at 1. cbn [emit]. apply IH.
Qed.

(** X10: when the export is reached, the table written to
    [titan_nuclear_benchmark.csv] is the header followed by one row per
    record, the records of each scenario together and the scenarios in
    catalog order; each scenario contributes its requested number of
    rows minus its transport failures, every row of it carries its name,
    and the count announced on the console is the number of rows
    written. *)
Theorem export_rows (worlds : nat -> World) (scenarios : list Config)
        (s s' : State) (ex : Export) :
  export_all worlds scenarios s = (Ok ex, s') ->
  ex_path ex = CSV_FILENAME /\
  exists rss,
    grouped worlds 0 scenarios rss /\
    ex_rows ex = csv_header :: map csv_row (List.concat rss) /\
    In (CoExporting (Z.of_nat (List.length (List.concat rss))) CSV_FILENAME)
       (ex_console ex).
Proof.
  unfold export_all.
  destruct (run_all worlds 0 scenarios [] s) as [[rs | e] s1] eqn:R;
    [ | discriminate].
  intros E. injection E as <- <-. cbn [ex_path ex_rows ex_console].
  split; [reflexivity | ].
  destruct (run_all_spec _ _ _ _ _ _ _ R) as (rss & -> & G).
  change ([] ++ List.concat rss) with (List.concat rss).
  exists rss. split; [exact G | ]. split; [reflexivity | ].
  cbn [In app]. do 3 right. apply in_or_app. right. right. now left.
Qed.

Lemma export_rows_witness :
  exists ex s',
    export_all (fun _ => flaky_world) [Small_Read_Only; Uneven_Batches]
               initial_state = (Ok ex, s') /\
    ex_path ex = CSV_FILENAME.
Proof.
  destruct (export_all (fun _ => flaky_world) [Small_Read_Only; Uneven_Batches]
                       initial_state) as [r s'] eqn:E.
  assert (exists ex, r = Ok ex) as [ex ->].
  { assert (match fst (export_all (fun _ => flaky_world)
                                  [Small_Read_Only; Uneven_Batches]
                                  initial_state) with
            | Ok _ => true
            | Raise _ => false
            end = true) as F by (vm_compute; reflexivity).
    rewrite E in F. cbn [fst] in F. destruct r; [eexists; reflexivity | ].
    discriminate. }
  exists ex, s'. split; [reflexivity | ].
  exact (proj1 (export_rows (fun _ => flaky_world)
                            [Small_Read_Only; Uneven_Batches]
                            initial_state s' ex E)).
Defined.

Lemma catalog_is_safe :
  Forall (fun sc => keys_safe sc /\ requests sc / 10 <> 0) SCENARIOS.
Proof.
  repeat constructor; try (intros H; discriminate H);
    try (vm_compute; discriminate).
Qed.

(** X11: on the catalog shipped with the script, when the clock advances
    between readings, [main] raises nothing and writes the export, whatever
    the service answers and whatever is drawn: the table has the header
    and [200000 - F] rows, [F] being the number of requests of the three
    scenarios that ended in a transport exception. *)
Theorem main_exports_catalog (worlds : nat -> World) (s : State) :
  (forall k, clock_advances (worlds k)) ->
  exists ex s',
    main worlds s = (Ok ex, s') /\
    ex_path ex = CSV_FILENAME /\
    Z.of_nat (List.length (ex_rows ex))
    = 1 + 200000
      - (failures (worlds 0%nat)
                  (py_range (requests Realistic_E_Commerce_Day))
         + failures (worlds 1%nat) (py_range (requests Flash_Sale_Spike))
         + failures (worlds 2%nat) (py_range (requests The_Ram_Eater))).
Proof.
  intros Adv. unfold main, export_all.
  destruct (run_all_returns worlds SCENARIOS catalog_is_safe Adv 0%nat [] s)
    as (rs & s' & E).
  rewrite E. eexists. eexists. split; [reflexivity | ].
  cbn [ex_path ex_rows]. split; [reflexivity | ].
  destruct (run_all_spec _ _ _ _ _ _ _ E) as (rss & -> & G).
  unfold SCENARIOS in G.
  destruct rss as [ | r1 rss]; cbn [grouped] in G; [contradiction | ].
  destruct G as (_ & N1 & G).
  destruct rss as [ | r2 rss]; cbn [grouped] in G; [contradiction | ].
  destruct G as (_ & N2 & G).
  destruct rss as [ | r3 rss]; cbn [grouped] in G; [contradiction | ].
  destruct G as (_ & N3 & G).
  destruct rss as [ | r4 rss]; cbn [grouped] in G; [ | contradiction].
  cbn [app List.concat List.length]. rewrite length_map, !length_app.
  cbn [List.length]. rewrite Nat.add_0_r.
  change (Z.max 0 (requests Realistic_E_Commerce_Day)) with 100000 in N1.
  change (Z.max 0 (requests Flash_Sale_Spike)) with 50000 in N2.
  change (Z.max 0 (requests The_Ram_Eater)) with 50000 in N3.
  lia.
Qed.

Lemma main_exports_catalog_witness :
  (forall k : nat, clock_advances ((fun _ => flaky_world) k)) /\
  exists ex s',
    main (fun _ => flaky_world) initial_state = (Ok ex, s') /\
    ex_path ex = CSV_FILENAME.
Proof.
  split; [intros k; exact flaky_clock_advances | ].
  destruct (main_exports_catalog (fun _ => flaky_world) initial_state
                                 (fun _ => flaky_clock_advances))
    as (ex & s' & E & P & _).
  exists ex, s'. split; [exact E | exact P].
Defined.

(** ** The cache reset does not steer the run *)

Lemma agree_refl (s : State) : agree s s.
Proof.
  repeat split. induction (stdout s) as [ | l ls IH]; constructor;
    [left; reflexivity | exact IH].
Qed.

Lemma sim_ret {A} (a : A) : sim (ret a) (ret a).
Proof. intros s1 s2 Ag. split; [reflexivity | exact Ag]. Qed.

Lemma sim_raise {A} (e : exn) : sim (@raise A e) (raise e).
Proof. intros s1 s2 Ag. split; [reflexivity | exact Ag]. Qed.

Lemma sim_lift {A} (r : result A) : sim (lift r) (lift r).
Proof. intros s1 s2 Ag. split; [reflexivity | exact Ag]. Qed.

Lemma sim_bind {A B} (m1 m2 : M A) (k1 k2 : A -> M B) :
  sim m1 m2 -> (forall a, sim (k1 a) (k2 a)) -> sim (bind m1 k1) (bind m2 k2).
Proof.
  intros H K s1 s2 Ag. unfold bind. destruct (H s1 s2 Ag) as [E Ag'].
  destruct (m1 s1) as [[a | e] t1], (m2 s2) as [[a' | e'] t2];
    cbn [fst snd] in *; try discriminate.
  - injection E as ->. apply K. exact Ag'.
  - injection E as ->. split; [reflexivity | exact Ag'].
Qed.

Lemma sim_print_lines (l1 l2 : Line) :
  same_line_but_reset l1 l2 -> sim (print l1) (print l2).
Proof.
  intros L s1 s2 (A1 & A2 & A3 & A4 & A5 & A6). cbn.
  repeat split; try assumption.
  apply Forall2_app; [exact A6 | constructor; [exact L | constructor]].
Qed.

Lemma sim_print (l : Line) : sim (print l) (print l).
Proof. apply sim_print_lines. left. reflexivity. Qed.

Lemma sim_emit (e : Event) : sim (emit e) (emit e).
Proof.
  intros s1 s2 (A1 & A2 & A3 & A4 & A5 & A6). cbn.
  repeat split; try assumption. now rewrite A5.
Qed.

Lemma sim_append_record (r : RequestRecord) :
  sim (append_record r) (append_record r).
Proof.
  intros s1 s2 (A1 & A2 & A3 & A4 & A5 & A6). cbn.
  repeat split; try assumption. now rewrite A3.
Qed.

Lemma sim_count_error : sim count_error count_error.
Proof.
  intros s1 s2 (A1 & A2 & A3 & A4 & A5 & A6). cbn.
  repeat split; try assumption. now rewrite A4.
Qed.

Lemma sim_tick_rng : sim tick_rng tick_rng.
Proof.
  intros s1 s2 (A1 & A2 & A3 & A4 & A5 & A6). cbn.
  repeat split; try assumption; now rewrite A1.
Qed.

Lemma sim_fresh_collectors : sim fresh_collectors fresh_collectors.
Proof.
  intros s1 s2 (A1 & A2 & A3 & A4 & A5 & A6). cbn.
  repeat split; assumption.
Qed.

Lemma sim_time_time (w : World) : sim (time_time w) (time_time w).
Proof.
  intros s1 s2 (A1 & A2 & A3 & A4 & A5 & A6). cbn.
  repeat split; try assumption; now rewrite A2.
Qed.

Ltac sim_steps :=
  repeat first
    [ apply sim_ret | apply sim_raise | apply sim_lift | apply sim_print
    | apply sim_emit | apply sim_append_record | apply sim_count_error
    | apply sim_tick_rng | apply sim_time_time | apply sim_fresh_collectors
    | apply sim_bind
    | match goal with
      | |- forall _, sim _ _ => intro
      | |- sim (if ?c then _ else _) (if ?c then _ else _) => destruct c
      | |- sim (match ?x with _ => _ end) (match ?x with _ => _ end) =>
          destruct x
      end ].

Lemma sim_worker_start (w : World) (config : Config) (i : Z) :
  sim (worker_start w i config) (worker_start w i config).
Proof.
  unfold worker_start, get_key, generate_payload, random_random,
    random_randint, random_gauss. sim_steps.
Qed.

Lemma sim_worker_finish (w : World) (config : Config) (p : Pending) :
  sim (worker_finish w config p) (worker_finish w config p).
Proof. unfold worker_finish. sim_steps. Qed.

Lemma sim_finish_all (w : World) (config : Config) (ps : list Pending) :
  sim (finish_all w config ps) (finish_all w config ps).
Proof.
  induction ps as [ | p ps IH]; cbn [finish_all]; [apply sim_ret | ].
  apply sim_bind; [apply sim_worker_finish | intros _; exact IH].
Qed.

Lemma start_all_agree (w : World) (config : Config) (tasks : list Z) :
  forall s1 s2, agree s1 s2 ->
    fst (start_all w config tasks s1) = fst (start_all w config tasks s2) /\
    agree (snd (start_all w config tasks s1))
          (snd (start_all w config tasks s2)).
Proof.
  induction tasks as [ | i rest IH]; intros s1 s2 Ag; cbn [start_all].
  - split; [reflexivity | exact Ag].
  - destruct (sim_worker_start w config i s1 s2 Ag) as [E Ag'].
    destruct (worker_start w i config s1) as [[p | e] t1],
             (worker_start w i config s2) as [[p' | e'] t2];
      cbn [fst snd] in *; try discriminate; injection E as ->;
      destruct (IH t1 t2 Ag') as [E' Ag''];
      destruct (start_all w config rest t1) as [[ps x] u1],
               (start_all w config rest t2) as [[ps' x'] u2];
      cbn [fst snd] in *; injection E' as -> ->;
      (split; [reflexivity | exact Ag'']).
Qed.

Lemma sim_gather (w : World) (config : Config) (tasks : list Z) :
  sim (gather w config tasks) (gather w config tasks).
Proof.
  unfold gather. apply sim_bind; [apply sim_emit | ].
  intros _ s1 s2 Ag. destruct (start_all_agree w config tasks s1 s2 Ag) as [E Ag'].
  destruct (start_all w config tasks s1) as [[ps x] t1],
           (start_all w config tasks s2) as [[ps' x'] t2].
  cbn [fst snd] in *. injection E as -> ->. destruct x' as [e | ].
  - split; [reflexivity | exact Ag'].
  - apply (sim_bind (finish_all w config (completion_order w ps'))
                    (finish_all w config (completion_order w ps')));
      [apply sim_finish_all | intros _; apply sim_emit | exact Ag'].
Qed.

Lemma sim_batch_loop (w : World) (scenario : Config) (start_time : Q)
      (pending_is : list Z) :
  forall tasks,
    sim (batch_loop w scenario start_time pending_is tasks)
        (batch_loop w scenario start_time pending_is tasks).
Proof.
  induction pending_is as [ | i rest IH]; intros tasks; cbn [batch_loop];
    [apply sim_ret | ].
  cbv zeta. destruct (users scenario <=? _); [ | apply IH].
  apply sim_bind; [apply sim_gather | intros _].
  apply sim_bind; [apply sim_lift | intros r].
  apply sim_bind; [ | intros _; apply IH].
  destruct (r =? 0); sim_steps.
Qed.

Lemma sim_after_reset (w : World) (scenario : Config) :
  sim (emit (EvSleep 2) ;;;
       start_time <- time_time w ;;
       tasks <- batch_loop w scenario start_time
                           (py_range (requests scenario)) [] ;;
       after_loop w scenario start_time tasks)
      (emit (EvSleep 2) ;;;
       start_time <- time_time w ;;
       tasks <- batch_loop w scenario start_time
                           (py_range (requests scenario)) [] ;;
       after_loop w scenario start_time tasks).
Proof.
  apply sim_bind; [apply sim_emit | intros _].
  apply sim_bind; [apply sim_time_time | intros start_time].
  apply sim_bind; [apply sim_batch_loop | intros tasks].
  unfold after_loop.
  apply sim_bind; [destruct tasks; [apply sim_ret | apply sim_gather] | intros _].
  apply sim_bind; [apply sim_time_time | intros now].
  apply sim_bind; [apply sim_lift | intros throughput].
  cbv zeta. do 3 (apply sim_bind; [apply sim_print | intros _]).
  intros s1 s2 Ag. pose proof Ag as (_ & _ & A3 & A4 & _).
  cbv beta. rewrite A3, A4.
  assert (sim
    ((if 0 <? error_counter s2 then print (LnErrors (error_counter s2))
      else ret tt) ;;; ret (stats_list s2))
    ((if 0 <? error_counter s2 then print (LnErrors (error_counter s2))
      else ret tt) ;;; ret (stats_list s2))) as H by sim_steps.
  exact (H s1 s2 Ag).
Qed.

Lemma sim_with_session {A} (limit : Z) (body1 body2 : M A) :
  sim body1 body2 -> sim (with_session limit body1) (with_session limit body2).
Proof.
  intros H. unfold with_session. apply sim_bind; [apply sim_emit | intros _].
  intros s1 s2 Ag. destruct (H s1 s2 Ag) as [E Ag'].
  destruct (body1 s1) as [r1 t1], (body2 s2) as [r2 t2]. cbn [fst snd] in *.
  split; [exact E | ]. exact (proj2 (sim_emit EvSessionClose t1 t2 Ag')).
Qed.

(** X12: the answer to the cache reset, a status or a transport
    exception, changes nothing of a run but the one line that reports it:
    [run_scenario] returns the same records or raises the same exception,
    with the same error count, the same requests in the same order and the
    same clock readings. *)
Theorem reset_outcome_is_only_reported (w : World) (r : Reply)
        (scenario : Config) (s : State) :
  fst (run_scenario (with_reset w r) scenario s)
  = fst (run_scenario w scenario s) /\
  agree (snd (run_scenario (with_reset w r) scenario s))
        (snd (run_scenario w scenario s)).
Proof.
  assert (sim (run_scenario (with_reset w r) scenario)
              (run_scenario w scenario)) as H.
  { unfold run_scenario.
    do 3 (apply sim_bind; [apply sim_print | intros _]).
    apply sim_bind; [apply sim_fresh_collectors | intros _].
    apply sim_with_session.
    change (session_body (with_reset w r) scenario)
      with (clear_server_state (with_reset w r) ;;;
            emit (EvSleep 2) ;;;
            start_time <- time_time w ;;
            tasks <- batch_loop w scenario start_time
                                (py_range (requests scenario)) [] ;;
            after_loop w scenario start_time tasks).
    change (session_body w scenario)
      with (clear_server_state w ;;;
            emit (EvSleep 2) ;;;
            start_time <- time_time w ;;
            tasks <- batch_loop w scenario start_time
                                (py_range (requests scenario)) [] ;;
            after_loop w scenario start_time tasks).
    apply sim_bind; [ | intros _; apply sim_after_reset].
    unfold clear_server_state. cbn [with_reset reset_reply].
    destruct r, (reset_reply w); apply sim_print_lines; right; split; exact I. }
  exact (H s s (agree_refl s)).
Qed.
